(** * TidyImport: the data cleaning engine of [src/lib/cleaningEngine.ts]

    A shallow embedding of the pure functions of the cleaning engine
    (value cleaners, birthday parsing, full-name splitting, the row
    processor, the validators and row selectors, the duplicate detectors,
    the detection of address and name columns, the address consolidation
    and the sample values), of the CSV reader and writer of the file
    parser with the export sanitiser [sanitizeData], and of the keyword
    fallback of the header mapping, followed by the properties established
    about them.

    Strings.  A JavaScript string is modelled as a list of characters
    ([list ascii]).  The model is exact on ASCII text: [toLowerCase] and
    [toUpperCase] act on the letters A-Z / a-z, the class [\s] and [trim]
    recognise tab, line feed, vertical tab, form feed, carriage return and
    space, and [\d] is 0-9.  Codes above 127 are inert; where the case
    mappings of JavaScript would change the length of a string, the
    statement is made for strings of ASCII characters ([asciiOnly]).

    Regular expressions.  The anchored patterns of the validators and of
    the header detectors are matched by derivatives, the flag [i] being
    read as equality up to the case of A-Z; the global replacements are
    written as the scans they perform, from left to right and without
    overlap.

    Objects.  A [Record<string, string>] is an association list with
    distinct keys kept in insertion order; reading a key that is absent
    gives [None] (JavaScript's [undefined]).  Objects are read through
    their own keys only, whereas the code also finds the members an object
    inherits from [Object.prototype] ("constructor", "__proto__",
    "toString", ...).  The last section of the definitions names the
    inputs that stay clear of them ([plainTimeZone], [plainBirthday],
    [plainCell], [plainTable], [plainHeaders]); a statement that depends
    on it carries the predicate as a hypothesis.  JavaScript
    enumerates integer-like keys first; where rows are compared, they are
    compared with their keys in insertion order.  A [Map] is an association
    list in insertion order as well.

    Arrays.  [Array.prototype.sort] is stable; it is modelled by a stable
    insertion sort, and the mutation of the array it sorts is not
    modelled.

    Numbers.  Row indices, orders and lengths are natural numbers; the
    confidence of a proposed mapping (0, 0.6, ... 0.9) is kept as a number
    of tenths.

    Raw cells.  The file parser delivers every cell as a string; a source
    column that is missing from a row reads as [undefined]. *)

From Stdlib Require Import List Ascii String Bool Arith PeanoNat NArith Lia.
From Stdlib Require Import Sorted Permutation.
Import ListNotations.

(* ================================================================== *)
(** ** JavaScript string primitives *)
(* ================================================================== *)

Module JS.

Definition jsstring := list ascii.

(** A literal. *)
Definition str (s : string) : jsstring := list_ascii_of_string s.

Definition code (c : ascii) : N := N_of_ascii c.

Definition between (lo hi : N) (c : ascii) : bool :=
  (N.leb lo (code c) && N.leb (code c) hi)%bool.

(** [\d] *)
Definition isDigit (c : ascii) : bool := between 48 57 c.

(** [\D] *)
Definition isNonDigit (c : ascii) : bool := negb (isDigit c).

(** [\s], and the characters removed by [trim] *)
Definition isSpace (c : ascii) : bool :=
  between 9 13 c || N.eqb (code c) 32.

(** [[a-zA-Z]] *)
Definition isAlpha (c : ascii) : bool :=
  between 65 90 c || between 97 122 c.

Definition lowerChar (c : ascii) : ascii :=
  if between 65 90 c then ascii_of_N (code c + 32) else c.

Definition upperChar (c : ascii) : ascii :=
  if between 97 122 c then ascii_of_N (code c - 32) else c.

Definition toLowerCase (s : jsstring) : jsstring := map lowerChar s.
Definition toUpperCase (s : jsstring) : jsstring := map upperChar s.

(** [a === b] on strings *)
Fixpoint eqs (a b : jsstring) : bool :=
  match a, b with
  | [], [] => true
  | c :: a', d :: b' => Ascii.eqb c d && eqs a' b'
  | _, _ => false
  end.

Fixpoint trimStart (s : jsstring) : jsstring :=
  match s with
  | [] => []
  | c :: t => if isSpace c then trimStart t else s
  end.

Definition trimEnd (s : jsstring) : jsstring := rev (trimStart (rev s)).

Definition trim (s : jsstring) : jsstring := trimEnd (trimStart s).

(** [s.startsWith(t)] *)
Fixpoint startsWith (s t : jsstring) : bool :=
  match t, s with
  | [], _ => true
  | _ :: _, [] => false
  | d :: t', c :: s' => Ascii.eqb c d && startsWith s' t'
  end.

(** [s.endsWith(t)] *)
Definition endsWith (s t : jsstring) : bool := startsWith (rev s) (rev t).

(** [s.includes(t)] *)
Fixpoint includes (s t : jsstring) : bool :=
  startsWith s t ||
  match s with
  | [] => false
  | _ :: s' => includes s' t
  end.

(** [s.split(sep)] for a separator that is one character of the class
    [p]: [split(' ')] and [split(/[,;|]/)]. *)
Fixpoint splitOn (p : ascii -> bool) (s : jsstring) : list jsstring :=
  match s with
  | [] => [[]]
  | c :: t =>
      if p c then [] :: splitOn p t
      else match splitOn p t with
           | w :: ws => (c :: w) :: ws
           | [] => [[c]]
           end
  end.

(** [s.split(/p+/)]: the separators are the maximal runs of [p];
    [inRun] tells that the previous character was part of a run. *)
Fixpoint splitRuns (p : ascii -> bool) (inRun : bool) (s : jsstring)
  : list jsstring :=
  match s with
  | [] => [[]]
  | c :: t =>
      if p c then
        if inRun then splitRuns p true t else [] :: splitRuns p true t
      else match splitRuns p false t with
           | w :: ws => (c :: w) :: ws
           | [] => [[c]]
           end
  end.

(** [ws.join(sep)] *)
Fixpoint join (sep : jsstring) (ws : list jsstring) : jsstring :=
  match ws with
  | [] => []
  | [w] => w
  | w :: ws' => w ++ sep ++ join sep ws'
  end.

(** [s.replace(/p/g, '')] *)
Definition removeAll (p : ascii -> bool) (s : jsstring) : jsstring :=
  filter (fun c => negb (p c)) s.

(** [s.padStart(2, '0')] *)
Definition padStart2 (s : jsstring) : jsstring :=
  match s with
  | [] => str "00"
  | [c] => "0"%char :: [c]
  | _ => s
  end.

(** [parseInt(s, 10)] on a string of decimal digits. *)
Definition digitVal (c : ascii) : nat := N.to_nat (code c - 48).

Definition parseInt (s : jsstring) : nat :=
  fold_left (fun acc c => 10 * acc + digitVal c) s 0.

(** Truthiness of a string: non-empty. *)
Definition truthy (s : jsstring) : bool :=
  match s with [] => false | _ => true end.

End JS.

Import JS.

(* ================================================================== *)
(** ** Full-name splitter *)
(* ================================================================== *)

Definition NAME_PREFIXES : list jsstring := map str
  [ "Mr"; "Mr."; "Mrs"; "Mrs."; "Ms"; "Ms."; "Miss";
    "Dr"; "Dr."; "Prof"; "Prof."; "Professor";
    "Rev"; "Rev."; "Reverend";
    "Hon"; "Hon."; "Honorable";
    "Sir"; "Dame"; "Lady"; "Lord" ]%string.

Definition NAME_SUFFIXES : list jsstring := map str
  [ "Jr"; "Jr."; "Junior";
    "Sr"; "Sr."; "Senior";
    "I"; "II"; "III"; "IV"; "V";
    "PhD"; "Ph.D"; "Ph.D.";
    "MD"; "M.D"; "M.D.";
    "DDS"; "D.D.S.";
    "Esq"; "Esq.";
    "CPA"; "RN"; "MBA" ]%string.

Record SplitNameResult := {
  firstName : jsstring;
  lastName : jsstring;
  removedPrefix : option jsstring;
  removedSuffix : option jsstring
}.

(** [{ cleaned, removed? }] *)
Definition removePrefix (words : list jsstring)
  : list jsstring * option jsstring :=
  match words with
  | [] => (words, None)
  | firstWord :: rest =>
      match find (fun prefix => eqs (toLowerCase prefix) (toLowerCase firstWord))
                 NAME_PREFIXES with
      | Some matchedPrefix => (rest, Some matchedPrefix)
      | None => (words, None)
      end
  end.

Definition removeSuffix (words : list jsstring)
  : list jsstring * option jsstring :=
  match words with
  | [] => (words, None)
  | _ =>
      let lastWord := last words [] in
      match find (fun suffix => eqs (toLowerCase suffix) (toLowerCase lastWord))
                 NAME_SUFFIXES with
      | Some matchedSuffix => (removelast words, Some matchedSuffix)
      | None => (words, None)
      end
  end.

Definition isMiddleInitial (w : jsstring) : bool :=
  Nat.eqb (List.length w) 1 || (Nat.eqb (List.length w) 2 && endsWith w (str ".")).

Definition splitFullName (fullName : jsstring) : SplitNameResult :=
  if negb (truthy fullName) then
    {| firstName := []; lastName := [];
       removedPrefix := None; removedSuffix := None |}
  else
    let words := filter truthy (splitRuns isSpace false (trim fullName)) in
    match words with
    | [] => {| firstName := []; lastName := [];
               removedPrefix := None; removedSuffix := None |}
    | _ =>
        let (words1, removedPrefix) := removePrefix words in
        let (words2, removedSuffix) := removeSuffix words1 in
        match words2 with
        | [] => {| firstName := []; lastName := [];
                   removedPrefix := removedPrefix;
                   removedSuffix := removedSuffix |}
        | [w0] => {| firstName := w0; lastName := [];
                     removedPrefix := removedPrefix;
                     removedSuffix := removedSuffix |}
        | [w0; w1] => {| firstName := w0; lastName := w1;
                         removedPrefix := removedPrefix;
                         removedSuffix := removedSuffix |}
        | [w0; w1; w2] =>
            if isMiddleInitial w1 then
              {| firstName := w0; lastName := w2;
                 removedPrefix := removedPrefix;
                 removedSuffix := removedSuffix |}
            else
              {| firstName := w0; lastName := join (str " ") [w1; w2];
                 removedPrefix := removedPrefix;
                 removedSuffix := removedSuffix |}
        | _ => {| firstName := join (str " ") (firstn 2 words2);
                  lastName := join (str " ") (skipn 2 words2);
                  removedPrefix := removedPrefix;
                  removedSuffix := removedSuffix |}
        end
    end.

(* ================================================================== *)
(** ** Constant tables *)
(* ================================================================== *)

Definition TARGET_HEADERS : list jsstring := map str
  [ "Email"; "First Name"; "Last Name"; "Phone"; "Address"; "Birthday";
    "Time Zone"; "Status"; "Tags"; "Notes" ]%string.

Definition VALID_STATUSES : list jsstring := map str
  [ "Lead"; "Customer"; "VIP" ]%string.

Definition VALID_TIME_ZONES : list jsstring := map str
  [
    "Abu Dhabi"; "Adelaide"; "Alaska"; "Almaty"; "American Samoa";
    "Amsterdam"; "Arizona"; "Astana"; "Athens"; "Atlantic Time (Canada)";
    "Auckland"; "Azores"; "Baghdad"; "Baku"; "Bangkok"; "Beijing";
    "Belgrade"; "Berlin"; "Bern"; "Bogota"; "Brasilia"; "Bratislava";
    "Brisbane"; "Brussels"; "Bucharest"; "Budapest"; "Buenos Aires";
    "Cairo"; "Canberra"; "Cape Verde Is."; "Caracas"; "Casablanca";
    "Central America"; "Central Time (US & Canada)"; "Chatham Is.";
    "Chennai"; "Chihuahua"; "Chongqing"; "Copenhagen"; "Darwin"; "Dhaka";
    "Eastern Time (US & Canada)"; "Edinburgh"; "Ekaterinburg"; "Fiji";
    "Georgetown"; "Greenland"; "Guadalajara"; "Guam"; "Hanoi"; "Harare";
    "Hawaii"; "Helsinki"; "Hobart"; "Hong Kong"; "Indiana (East)";
    "International Date Line West"; "Irkutsk"; "Islamabad"; "Istanbul";
    "Jakarta"; "Jerusalem"; "Kabul"; "Kaliningrad"; "Kamchatka"; "Karachi";
    "Kathmandu"; "Kolkata"; "Krasnoyarsk"; "Kuala Lumpur"; "Kuwait";
    "Kyiv"; "La Paz"; "Lima"; "Lisbon"; "Ljubljana"; "London"; "Madrid";
    "Magadan"; "Marshall Is."; "Mazatlan"; "Melbourne"; "Mexico City";
    "Mid-Atlantic"; "Midway Island"; "Minsk"; "Monrovia"; "Monterrey";
    "Montevideo"; "Moscow"; "Mountain Time (US & Canada)"; "Mumbai";
    "Muscat"; "Nairobi"; "New Caledonia"; "New Delhi"; "Newfoundland";
    "Novosibirsk"; "Nuku'alofa"; "Osaka"; "Pacific Time (US & Canada)";
    "Paris"; "Perth"; "Port Moresby"; "Prague"; "Pretoria"; "Quito";
    "Rangoon"; "Riga"; "Riyadh"; "Rome"; "Samara"; "Samoa"; "Santiago";
    "Sapporo"; "Sarajevo"; "Saskatchewan"; "Seoul"; "Singapore"; "Skopje";
    "Sofia"; "Solomon Is."; "Srednekolymsk"; "Sri Jayawardenepura";
    "St. Petersburg"; "Stockholm"; "Sydney"; "Taipei"; "Tallinn";
    "Tashkent"; "Tbilisi"; "Tehran"; "Tijuana"; "Tokelau Is."; "Tokyo";
    "Ulaanbaatar"; "Urumqi"; "UTC"; "Vienna"; "Vilnius"; "Vladivostok";
    "Volgograd"; "Warsaw"; "Wellington"; "West Central Africa"; "Yakutsk";
    "Yerevan"; "Zagreb"
  ]%string.

(** The alias object, as its own entries in insertion order
    ([Object.entries]). *)
Definition TIMEZONE_ALIASES : list (jsstring * jsstring) :=
  map (fun kv : string * string => (str (fst kv), str (snd kv)))
  [
    ("est", "Eastern Time (US & Canada)");
    ("edt", "Eastern Time (US & Canada)");
    ("eastern", "Eastern Time (US & Canada)");
    ("eastern time", "Eastern Time (US & Canada)");
    ("eastern standard time", "Eastern Time (US & Canada)");
    ("eastern daylight time", "Eastern Time (US & Canada)");
    ("et", "Eastern Time (US & Canada)");
    ("america/new_york", "Eastern Time (US & Canada)");
    ("new york", "Eastern Time (US & Canada)");
    ("us/eastern", "Eastern Time (US & Canada)");
    ("cst", "Central Time (US & Canada)");
    ("cdt", "Central Time (US & Canada)");
    ("central", "Central Time (US & Canada)");
    ("central time", "Central Time (US & Canada)");
    ("central standard time", "Central Time (US & Canada)");
    ("central daylight time", "Central Time (US & Canada)");
    ("ct", "Central Time (US & Canada)");
    ("america/chicago", "Central Time (US & Canada)");
    ("chicago", "Central Time (US & Canada)");
    ("us/central", "Central Time (US & Canada)");
    ("mst", "Mountain Time (US & Canada)");
    ("mdt", "Mountain Time (US & Canada)");
    ("mountain", "Mountain Time (US & Canada)");
    ("mountain time", "Mountain Time (US & Canada)");
    ("mountain standard time", "Mountain Time (US & Canada)");
    ("mountain daylight time", "Mountain Time (US & Canada)");
    ("mt", "Mountain Time (US & Canada)");
    ("america/denver", "Mountain Time (US & Canada)");
    ("denver", "Mountain Time (US & Canada)");
    ("us/mountain", "Mountain Time (US & Canada)");
    ("pst", "Pacific Time (US & Canada)");
    ("pdt", "Pacific Time (US & Canada)");
    ("pacific", "Pacific Time (US & Canada)");
    ("pacific time", "Pacific Time (US & Canada)");
    ("pacific standard time", "Pacific Time (US & Canada)");
    ("pacific daylight time", "Pacific Time (US & Canada)");
    ("pt", "Pacific Time (US & Canada)");
    ("america/los_angeles", "Pacific Time (US & Canada)");
    ("los angeles", "Pacific Time (US & Canada)");
    ("la", "Pacific Time (US & Canada)");
    ("us/pacific", "Pacific Time (US & Canada)");
    ("akst", "Alaska");
    ("akdt", "Alaska");
    ("alaska time", "Alaska");
    ("america/anchorage", "Alaska");
    ("us/alaska", "Alaska");
    ("hst", "Hawaii");
    ("hast", "Hawaii");
    ("hawaiian", "Hawaii");
    ("hawaii time", "Hawaii");
    ("pacific/honolulu", "Hawaii");
    ("us/hawaii", "Hawaii");
    ("america/phoenix", "Arizona");
    ("phoenix", "Arizona");
    ("us/arizona", "Arizona");
    ("atlantic", "Atlantic Time (Canada)");
    ("ast", "Atlantic Time (Canada)");
    ("adt", "Atlantic Time (Canada)");
    ("america/halifax", "Atlantic Time (Canada)");
    ("canada/atlantic", "Atlantic Time (Canada)");
    ("indiana", "Indiana (East)");
    ("america/indiana", "Indiana (East)");
    ("gmt", "London");
    ("bst", "London");
    ("uk", "London");
    ("britain", "London");
    ("europe/london", "London");
    ("greenwich", "London");
    ("cet", "Paris");
    ("cest", "Paris");
    ("france", "Paris");
    ("europe/paris", "Paris");
    ("germany", "Berlin");
    ("europe/berlin", "Berlin");
    ("jst", "Tokyo");
    ("japan", "Tokyo");
    ("asia/tokyo", "Tokyo");
    ("china", "Beijing");
    ("shanghai", "Beijing");
    ("asia/shanghai", "Beijing");
    ("india", "New Delhi");
    ("ist", "New Delhi");
    ("asia/kolkata", "Kolkata");
    ("aest", "Sydney");
    ("aedt", "Sydney");
    ("australia", "Sydney");
    ("australia/sydney", "Sydney")
  ]%string.

(** [arr.includes(x)] on a list of strings *)
Definition includesStr (l : list jsstring) (x : jsstring) : bool :=
  existsb (fun y => eqs y x) l.

(** [obj[k]] on a string-keyed table: the value of the own key [k].  The
    code also finds inherited members; see [inheritedName]. *)
Fixpoint lookup (tbl : list (jsstring * jsstring)) (k : jsstring)
  : option jsstring :=
  match tbl with
  | [] => None
  | (k', v) :: tbl' => if eqs k' k then Some v else lookup tbl' k
  end.

(* ================================================================== *)
(** ** Export helpers *)
(* ================================================================== *)

Definition formulaCharacters : list jsstring :=
  [ str "="; str "+"; str "-"; str "@"; ["009"%char]; ["013"%char] ].

Definition sanitizeForExport (value : jsstring) : jsstring :=
  if negb (truthy value) then value
  else if existsb (fun ch => startsWith value ch) formulaCharacters
       then str "'" ++ value
       else value.

(** Strips every non-digit character; the result is a plain digit string. *)
Definition formatPhoneNumber (phone : jsstring) : jsstring :=
  if negb (truthy phone) then [] else removeAll isNonDigit phone.

(* ================================================================== *)
(** ** Value cleaners *)
(* ================================================================== *)

(** [word.charAt(0).toUpperCase() + word.slice(1)] *)
Definition capitalize (word : jsstring) : jsstring :=
  toUpperCase (firstn 1 word) ++ skipn 1 word.

(** The code for a string of ASCII characters ([asciiOnly]). *)
Definition toProperCase (s : jsstring) : jsstring :=
  if negb (truthy s) then []
  else join (str " ")
         (map capitalize
              (splitOn (fun c => Ascii.eqb c " ") (toLowerCase s))).

Definition cleanPhone (phone : jsstring) : jsstring :=
  if negb (truthy phone) then [] else removeAll isNonDigit phone.

Definition cleanEmail (email : jsstring) : jsstring :=
  if negb (truthy email) then []
  else removeAll isSpace (toLowerCase email).

Definition cleanStatus (status : jsstring) : jsstring :=
  if negb (truthy status) then []
  else
    let normalized := toLowerCase (trim status) in
    match find (fun validStatus => eqs (toLowerCase validStatus) normalized)
               VALID_STATUSES with
    | Some validStatus => validStatus
    | None => trim status
    end.

Definition isTagSeparator (c : ascii) : bool :=
  Ascii.eqb c "," || Ascii.eqb c ";" || Ascii.eqb c "|".

Definition cleanTags (tags : jsstring) : jsstring :=
  if negb (truthy tags) then []
  else join (str "|")
         (filter (fun tag => Nat.ltb 0 (List.length tag))
                 (map trim (splitOn isTagSeparator tags))).

(** The three lookups of [cleanTimeZone], on the trimmed lower-case input. *)
Definition matchValidTimeZone (lowerNormalized : jsstring) : option jsstring :=
  find (fun validTz => eqs (toLowerCase validTz) lowerNormalized)
       VALID_TIME_ZONES.

Definition matchAliasPartial (lowerNormalized : jsstring)
  : option (jsstring * jsstring) :=
  find (fun entry => includes lowerNormalized (fst entry)
                     || includes (fst entry) lowerNormalized)
       TIMEZONE_ALIASES.

(** The alias is read under its own key: the code for every input but
    those that lower-case to an inherited name ([plainTimeZone]), for
    which the code returns the inherited member. *)
Definition cleanTimeZone (timeZone : jsstring) : jsstring :=
  if negb (truthy timeZone) then []
  else
    let normalized := trim timeZone in
    let lowerNormalized := toLowerCase normalized in
    match matchValidTimeZone lowerNormalized with
    | Some validTz => validTz
    | None =>
        match lookup TIMEZONE_ALIASES lowerNormalized with
        | Some validTz => validTz
        | None =>
            match matchAliasPartial lowerNormalized with
            | Some (_, validTz) => validTz
            | None => normalized
            end
        end
    end.

Definition validateTimeZone (timeZone : jsstring) : bool :=
  if negb (truthy timeZone) then true
  else existsb (fun tz => eqs (toLowerCase tz) (toLowerCase timeZone))
               VALID_TIME_ZONES.

(* ================================================================== *)
(** ** Birthday parsing and rendering *)
(* ================================================================== *)

Inductive BirthdayFormat := MM_DD_YYYY | DD_MM_YYYY | YYYY_MM_DD.

Definition MONTH_NAMES : list (jsstring * jsstring) :=
  map (fun kv : string * string => (str (fst kv), str (snd kv)))
  [
    ("jan", "01"); ("january", "01"); ("feb", "02"); ("february", "02");
    ("mar", "03"); ("march", "03"); ("apr", "04"); ("april", "04");
    ("may", "05"); ("jun", "06"); ("june", "06"); ("jul", "07");
    ("july", "07"); ("aug", "08"); ("august", "08"); ("sep", "09");
    ("sept", "09"); ("september", "09"); ("oct", "10"); ("october", "10");
    ("nov", "11"); ("november", "11"); ("dec", "12"); ("december", "12")
  ]%string.

Record BirthdayComponents := {
  month : jsstring;
  day : jsstring;
  year : jsstring
}.

Fixpoint takeWhile (p : ascii -> bool) (s : jsstring) : jsstring :=
  match s with
  | c :: t => if p c then c :: takeWhile p t else []
  | [] => []
  end.

Fixpoint dropWhile (p : ascii -> bool) (s : jsstring) : jsstring :=
  match s with
  | c :: t => if p c then dropWhile p t else s
  | [] => []
  end.

(** A regular-expression item [[p]{lo,hi}] whose continuation cannot start
    with a character of [p]: it matches the maximal run of [p], provided
    the length of the run is within the bounds.  Returns the run and the
    rest of the input. *)
Definition run (p : ascii -> bool) (lo hi : nat) (s : jsstring)
  : option (jsstring * jsstring) :=
  let r := takeWhile p s in
  if Nat.leb lo (List.length r) && Nat.leb (List.length r) hi
  then Some (r, dropWhile p s) else None.

(** [[p]+] under the same condition. *)
Definition run1 (p : ascii -> bool) (s : jsstring)
  : option (jsstring * jsstring) :=
  match takeWhile p s with
  | [] => None
  | r => Some (r, dropWhile p s)
  end.

(** [[\/\-]] *)
Definition isDateSep (c : ascii) : bool :=
  Ascii.eqb c "/" || Ascii.eqb c "-".

(** One character of the class [p]. *)
Definition one (p : ascii -> bool) (s : jsstring) : option jsstring :=
  match s with
  | c :: t => if p c then Some t else None
  | [] => None
  end.

(** [,?] *)
Definition optComma (s : jsstring) : jsstring :=
  match s with
  | c :: t => if Ascii.eqb c "," then t else s
  | [] => s
  end.

(** [/^(\d{4})[\/\-](\d{1,2})[\/\-](\d{1,2})$/]: the captures, in order. *)
Definition isoMatch (s : jsstring) : option (jsstring * jsstring * jsstring) :=
  match run isDigit 4 4 s with
  | Some (g1, s1) =>
    match one isDateSep s1 with
    | Some s2 =>
      match run isDigit 1 2 s2 with
      | Some (g2, s3) =>
        match one isDateSep s3 with
        | Some s4 =>
          match run isDigit 1 2 s4 with
          | Some (g3, []) => Some (g1, g2, g3)
          | _ => None
          end
        | None => None
        end
      | None => None
      end
    | None => None
    end
  | None => None
  end.

(** [/^(\d{1,2})[\/\-](\d{1,2})[\/\-](\d{4})$/] *)
Definition slashMatch (s : jsstring) : option (jsstring * jsstring * jsstring) :=
  match run isDigit 1 2 s with
  | Some (g1, s1) =>
    match one isDateSep s1 with
    | Some s2 =>
      match run isDigit 1 2 s2 with
      | Some (g2, s3) =>
        match one isDateSep s3 with
        | Some s4 =>
          match run isDigit 4 4 s4 with
          | Some (g3, []) => Some (g1, g2, g3)
          | _ => None
          end
        | None => None
        end
      | None => None
      end
    | None => None
    end
  | None => None
  end.

(** The common tail [,?\s+(\d{4})$] of the two textual patterns. *)
Definition yearTail (s : jsstring) : option jsstring :=
  match run1 isSpace (optComma s) with
  | Some (_, s1) =>
    match run isDigit 4 4 s1 with
    | Some (g, []) => Some g
    | _ => None
    end
  | None => None
  end.

(** [/^([a-zA-Z]+)\s+(\d{1,2}),?\s+(\d{4})$/] *)
Definition textMatch1 (s : jsstring) : option (jsstring * jsstring * jsstring) :=
  match run1 isAlpha s with
  | Some (g1, s1) =>
    match run1 isSpace s1 with
    | Some (_, s2) =>
      match run isDigit 1 2 s2 with
      | Some (g2, s3) =>
        match yearTail s3 with
        | Some g3 => Some (g1, g2, g3)
        | None => None
        end
      | None => None
      end
    | None => None
    end
  | None => None
  end.

(** [/^(\d{1,2})\s+([a-zA-Z]+),?\s+(\d{4})$/] *)
Definition textMatch2 (s : jsstring) : option (jsstring * jsstring * jsstring) :=
  match run isDigit 1 2 s with
  | Some (g1, s1) =>
    match run1 isSpace s1 with
    | Some (_, s2) =>
      match run1 isAlpha s2 with
      | Some (g2, s3) =>
        match yearTail s3 with
        | Some g3 => Some (g1, g2, g3)
        | None => None
        end
      | None => None
      end
    | None => None
    end
  | None => None
  end.

(** The two textual patterns, tried in order after the numeric ones.  The
    month is read under its own key: the code for every input but those
    whose month word lower-cases to an inherited name ([plainBirthday]). *)
Definition parseTextual (trimmed : jsstring) : option BirthdayComponents :=
  let second :=
    match textMatch2 trimmed with
    | Some (d, monthText, y) =>
        match lookup MONTH_NAMES (toLowerCase monthText) with
        | Some m => Some {| month := m; day := padStart2 d; year := y |}
        | None => None
        end
    | None => None
    end in
  match textMatch1 trimmed with
  | Some (monthText, d, y) =>
      match lookup MONTH_NAMES (toLowerCase monthText) with
      | Some m => Some {| month := m; day := padStart2 d; year := y |}
      | None => second
      end
  | None => second
  end.

Definition parseBirthday (birthday : jsstring) : option BirthdayComponents :=
  if negb (truthy birthday) then None
  else
    let trimmed := trim birthday in
    match isoMatch trimmed with
    | Some (y, m, d) =>
        Some {| month := padStart2 m; day := padStart2 d; year := y |}
    | None =>
        match slashMatch trimmed with
        | Some (first, second, y) =>
            let firstNum := parseInt first in
            let secondNum := parseInt second in
            if Nat.ltb 12 firstNum && Nat.leb secondNum 12 then
              Some {| month := padStart2 second; day := padStart2 first;
                      year := y |}
            else if Nat.ltb 12 secondNum && Nat.leb firstNum 12 then
              Some {| month := padStart2 first; day := padStart2 second;
                      year := y |}
            else
              Some {| month := padStart2 first; day := padStart2 second;
                      year := y |}
        | None => parseTextual trimmed
        end
    end.

Definition formatBirthdayToTarget (components : BirthdayComponents)
  (format : BirthdayFormat) : jsstring :=
  match format with
  | MM_DD_YYYY =>
      month components ++ str "/" ++ day components ++ str "/" ++ year components
  | DD_MM_YYYY =>
      day components ++ str "/" ++ month components ++ str "/" ++ year components
  | YYYY_MM_DD =>
      year components ++ str "/" ++ month components ++ str "/" ++ day components
  end.

Definition cleanBirthday (birthday : jsstring) : jsstring :=
  match parseBirthday birthday with
  | Some components => formatBirthdayToTarget components MM_DD_YYYY
  | None => trim birthday
  end.

(* ================================================================== *)
(** ** Rows *)
(* ================================================================== *)

(** [Record<string, string>] *)
Definition Row := list (jsstring * jsstring).

(** [row[k]] for a key [k] that is not inherited ([inheritedName]): the
    value of the own key, or [undefined]. *)
Definition get (row : Row) (k : jsstring) : option jsstring := lookup row k.

(** [row[k] = v]: overwrites in place, or appends a new key (the code
    creates no key "__proto__"; see [inheritedName]). *)
Fixpoint set (row : Row) (k v : jsstring) : Row :=
  match row with
  | [] => [(k, v)]
  | (k', v') :: row' =>
      if eqs k' k then (k', v) :: row' else (k', v') :: set row' k v
  end.

Definition reformatBirthdays (data : list Row) (format : BirthdayFormat)
  : list Row :=
  map (fun row =>
         match get row (str "Birthday") with
         | None => row
         | Some birthday =>
             if negb (truthy birthday) then row
             else match parseBirthday birthday with
                  | Some components =>
                      set row (str "Birthday")
                          (formatBirthdayToTarget components format)
                  | None => row
                  end
         end) data.

(* ================================================================== *)
(** ** Cell cleaning *)
(* ================================================================== *)

(** A raw cell is a string, or [None] when the source column is missing
    from the row ([undefined]). *)
Definition RawValue := option jsstring.

Definition rawTruthy (value : RawValue) : bool :=
  match value with Some s => truthy s | None => false end.

(** [String(value ?? '')] *)
Definition rawString (value : RawValue) : jsstring :=
  match value with Some s => s | None => [] end.

Definition isEmptyValue (value : RawValue) : bool :=
  match value with
  | None => true
  | Some s =>
      let normalized := toLowerCase (trim s) in
      eqs normalized [] || eqs normalized (str "n/a")
      || eqs normalized (str "null") || eqs normalized (str "undefined")
  end.

(** The [switch] of [cleanCell] over the standard headers. *)
Definition cleanStandard (targetHeader originalValue : jsstring) : jsstring :=
  if eqs targetHeader (str "First Name") || eqs targetHeader (str "Last Name")
  then toProperCase originalValue
  else if eqs targetHeader (str "Email") then cleanEmail originalValue
  else if eqs targetHeader (str "Phone") then cleanPhone originalValue
  else if eqs targetHeader (str "Status") then cleanStatus originalValue
  else if eqs targetHeader (str "Tags") then cleanTags originalValue
  else if eqs targetHeader (str "Time Zone") then cleanTimeZone originalValue
  else if eqs targetHeader (str "Birthday") then cleanBirthday originalValue
  else originalValue.

(** Returns [[cleanedValue, wasModified]]; the code on the cells of
    [plainCell]. *)
Definition cleanCell (value : RawValue) (targetHeader : option jsstring)
  : jsstring * bool :=
  let originalValue := trim (rawString value) in
  if isEmptyValue value then ([], negb (eqs originalValue []))
  else
    match targetHeader with
    | None => (originalValue, false)
    | Some target =>
        if negb (truthy target) then (originalValue, false)
        else
          let cleaned :=
            if includesStr TARGET_HEADERS target
            then cleanStandard target originalValue
            else originalValue in
          (cleaned, negb (eqs cleaned originalValue))
    end.

(* ================================================================== *)
(** ** Row processor *)
(* ================================================================== *)

(** [confidence] is not read by the engine and is left out; an absent
    [isCustom] is [false]. *)
Record HeaderMapping := {
  sourceHeader : jsstring;
  targetHeader : option jsstring;
  isCustom : bool
}.

Record CleaningStats := {
  totalRows : nat;
  emailsCleaned : nat;
  phonesNormalized : nat;
  emptyValuesCleared : nat;
  namesToProperCase : nat;
  totalCellsModified : nat;
  statusValidated : nat;
  timeZoneValidated : nat;
  tagsFormatted : nat;
  birthdayFormatted : nat;
  addressesConsolidated : nat;
  emptyRowsRemoved : nat;
  emptyColumnsRemoved : nat
}.

(** [stats.totalCellsModified++] *)
Definition incr_totalCellsModified (s : CleaningStats) : CleaningStats :=
  {| totalRows := totalRows s;
     emailsCleaned := emailsCleaned s;
     phonesNormalized := phonesNormalized s;
     emptyValuesCleared := emptyValuesCleared s;
     namesToProperCase := namesToProperCase s;
     totalCellsModified := S (totalCellsModified s);
     statusValidated := statusValidated s;
     timeZoneValidated := timeZoneValidated s;
     tagsFormatted := tagsFormatted s;
     birthdayFormatted := birthdayFormatted s;
     addressesConsolidated := addressesConsolidated s;
     emptyRowsRemoved := emptyRowsRemoved s;
     emptyColumnsRemoved := emptyColumnsRemoved s |}.

(** [stats.emailsCleaned++] *)
Definition incr_emailsCleaned (s : CleaningStats) : CleaningStats :=
  {| totalRows := totalRows s;
     emailsCleaned := S (emailsCleaned s);
     phonesNormalized := phonesNormalized s;
     emptyValuesCleared := emptyValuesCleared s;
     namesToProperCase := namesToProperCase s;
     totalCellsModified := totalCellsModified s;
     statusValidated := statusValidated s;
     timeZoneValidated := timeZoneValidated s;
     tagsFormatted := tagsFormatted s;
     birthdayFormatted := birthdayFormatted s;
     addressesConsolidated := addressesConsolidated s;
     emptyRowsRemoved := emptyRowsRemoved s;
     emptyColumnsRemoved := emptyColumnsRemoved s |}.

(** [stats.phonesNormalized++] *)
Definition incr_phonesNormalized (s : CleaningStats) : CleaningStats :=
  {| totalRows := totalRows s;
     emailsCleaned := emailsCleaned s;
     phonesNormalized := S (phonesNormalized s);
     emptyValuesCleared := emptyValuesCleared s;
     namesToProperCase := namesToProperCase s;
     totalCellsModified := totalCellsModified s;
     statusValidated := statusValidated s;
     timeZoneValidated := timeZoneValidated s;
     tagsFormatted := tagsFormatted s;
     birthdayFormatted := birthdayFormatted s;
     addressesConsolidated := addressesConsolidated s;
     emptyRowsRemoved := emptyRowsRemoved s;
     emptyColumnsRemoved := emptyColumnsRemoved s |}.

(** [stats.namesToProperCase++] *)
Definition incr_namesToProperCase (s : CleaningStats) : CleaningStats :=
  {| totalRows := totalRows s;
     emailsCleaned := emailsCleaned s;
     phonesNormalized := phonesNormalized s;
     emptyValuesCleared := emptyValuesCleared s;
     namesToProperCase := S (namesToProperCase s);
     totalCellsModified := totalCellsModified s;
     statusValidated := statusValidated s;
     timeZoneValidated := timeZoneValidated s;
     tagsFormatted := tagsFormatted s;
     birthdayFormatted := birthdayFormatted s;
     addressesConsolidated := addressesConsolidated s;
     emptyRowsRemoved := emptyRowsRemoved s;
     emptyColumnsRemoved := emptyColumnsRemoved s |}.

(** [stats.statusValidated++] *)
Definition incr_statusValidated (s : CleaningStats) : CleaningStats :=
  {| totalRows := totalRows s;
     emailsCleaned := emailsCleaned s;
     phonesNormalized := phonesNormalized s;
     emptyValuesCleared := emptyValuesCleared s;
     namesToProperCase := namesToProperCase s;
     totalCellsModified := totalCellsModified s;
     statusValidated := S (statusValidated s);
     timeZoneValidated := timeZoneValidated s;
     tagsFormatted := tagsFormatted s;
     birthdayFormatted := birthdayFormatted s;
     addressesConsolidated := addressesConsolidated s;
     emptyRowsRemoved := emptyRowsRemoved s;
     emptyColumnsRemoved := emptyColumnsRemoved s |}.

(** [stats.timeZoneValidated++] *)
Definition incr_timeZoneValidated (s : CleaningStats) : CleaningStats :=
  {| totalRows := totalRows s;
     emailsCleaned := emailsCleaned s;
     phonesNormalized := phonesNormalized s;
     emptyValuesCleared := emptyValuesCleared s;
     namesToProperCase := namesToProperCase s;
     totalCellsModified := totalCellsModified s;
     statusValidated := statusValidated s;
     timeZoneValidated := S (timeZoneValidated s);
     tagsFormatted := tagsFormatted s;
     birthdayFormatted := birthdayFormatted s;
     addressesConsolidated := addressesConsolidated s;
     emptyRowsRemoved := emptyRowsRemoved s;
     emptyColumnsRemoved := emptyColumnsRemoved s |}.

(** [stats.tagsFormatted++] *)
Definition incr_tagsFormatted (s : CleaningStats) : CleaningStats :=
  {| totalRows := totalRows s;
     emailsCleaned := emailsCleaned s;
     phonesNormalized := phonesNormalized s;
     emptyValuesCleared := emptyValuesCleared s;
     namesToProperCase := namesToProperCase s;
     totalCellsModified := totalCellsModified s;
     statusValidated := statusValidated s;
     timeZoneValidated := timeZoneValidated s;
     tagsFormatted := S (tagsFormatted s);
     birthdayFormatted := birthdayFormatted s;
     addressesConsolidated := addressesConsolidated s;
     emptyRowsRemoved := emptyRowsRemoved s;
     emptyColumnsRemoved := emptyColumnsRemoved s |}.

(** [stats.birthdayFormatted++] *)
Definition incr_birthdayFormatted (s : CleaningStats) : CleaningStats :=
  {| totalRows := totalRows s;
     emailsCleaned := emailsCleaned s;
     phonesNormalized := phonesNormalized s;
     emptyValuesCleared := emptyValuesCleared s;
     namesToProperCase := namesToProperCase s;
     totalCellsModified := totalCellsModified s;
     statusValidated := statusValidated s;
     timeZoneValidated := timeZoneValidated s;
     tagsFormatted := tagsFormatted s;
     birthdayFormatted := S (birthdayFormatted s);
     addressesConsolidated := addressesConsolidated s;
     emptyRowsRemoved := emptyRowsRemoved s;
     emptyColumnsRemoved := emptyColumnsRemoved s |}.

(** [stats.emptyValuesCleared++] *)
Definition incr_emptyValuesCleared (s : CleaningStats) : CleaningStats :=
  {| totalRows := totalRows s;
     emailsCleaned := emailsCleaned s;
     phonesNormalized := phonesNormalized s;
     emptyValuesCleared := S (emptyValuesCleared s);
     namesToProperCase := namesToProperCase s;
     totalCellsModified := totalCellsModified s;
     statusValidated := statusValidated s;
     timeZoneValidated := timeZoneValidated s;
     tagsFormatted := tagsFormatted s;
     birthdayFormatted := birthdayFormatted s;
     addressesConsolidated := addressesConsolidated s;
     emptyRowsRemoved := emptyRowsRemoved s;
     emptyColumnsRemoved := emptyColumnsRemoved s |}.

(** [stats.emptyRowsRemoved++] *)
Definition incr_emptyRowsRemoved (s : CleaningStats) : CleaningStats :=
  {| totalRows := totalRows s;
     emailsCleaned := emailsCleaned s;
     phonesNormalized := phonesNormalized s;
     emptyValuesCleared := emptyValuesCleared s;
     namesToProperCase := namesToProperCase s;
     totalCellsModified := totalCellsModified s;
     statusValidated := statusValidated s;
     timeZoneValidated := timeZoneValidated s;
     tagsFormatted := tagsFormatted s;
     birthdayFormatted := birthdayFormatted s;
     addressesConsolidated := addressesConsolidated s;
     emptyRowsRemoved := S (emptyRowsRemoved s);
     emptyColumnsRemoved := emptyColumnsRemoved s |}.

(** [stats.emptyColumnsRemoved = n] *)
Definition set_emptyColumnsRemoved (n : nat) (s : CleaningStats) : CleaningStats :=
  {| totalRows := totalRows s;
     emailsCleaned := emailsCleaned s;
     phonesNormalized := phonesNormalized s;
     emptyValuesCleared := emptyValuesCleared s;
     namesToProperCase := namesToProperCase s;
     totalCellsModified := totalCellsModified s;
     statusValidated := statusValidated s;
     timeZoneValidated := timeZoneValidated s;
     tagsFormatted := tagsFormatted s;
     birthdayFormatted := birthdayFormatted s;
     addressesConsolidated := addressesConsolidated s;
     emptyRowsRemoved := emptyRowsRemoved s;
     emptyColumnsRemoved := n |}.

(** [stats.totalRows = n] *)
Definition set_totalRows (n : nat) (s : CleaningStats) : CleaningStats :=
  {| totalRows := n;
     emailsCleaned := emailsCleaned s;
     phonesNormalized := phonesNormalized s;
     emptyValuesCleared := emptyValuesCleared s;
     namesToProperCase := namesToProperCase s;
     totalCellsModified := totalCellsModified s;
     statusValidated := statusValidated s;
     timeZoneValidated := timeZoneValidated s;
     tagsFormatted := tagsFormatted s;
     birthdayFormatted := birthdayFormatted s;
     addressesConsolidated := addressesConsolidated s;
     emptyRowsRemoved := emptyRowsRemoved s;
     emptyColumnsRemoved := emptyColumnsRemoved s |}.

Definition initialStats (n : nat) : CleaningStats :=
  {| totalRows := n; emailsCleaned := 0; phonesNormalized := 0;
     emptyValuesCleared := 0; namesToProperCase := 0;
     totalCellsModified := 0; statusValidated := 0; timeZoneValidated := 0;
     tagsFormatted := 0; birthdayFormatted := 0; addressesConsolidated := 0;
     emptyRowsRemoved := 0; emptyColumnsRemoved := 0 |}.

(** The [switch] that picks the per-field counter of a modified cell. *)
Definition bumpField (target : jsstring) (s : CleaningStats) : CleaningStats :=
  if includesStr TARGET_HEADERS target then
    if eqs target (str "Email") then incr_emailsCleaned s
    else if eqs target (str "Phone") then incr_phonesNormalized s
    else if eqs target (str "First Name") || eqs target (str "Last Name")
         then incr_namesToProperCase s
    else if eqs target (str "Status") then incr_statusValidated s
    else if eqs target (str "Time Zone") then incr_timeZoneValidated s
    else if eqs target (str "Tags") then incr_tagsFormatted s
    else if eqs target (str "Birthday") then incr_birthdayFormatted s
    else s
  else s.

(** A mapping takes part when both its target and its source are truthy. *)
Definition activeTarget (mapping : HeaderMapping) : option jsstring :=
  match targetHeader mapping with
  | Some target =>
      if truthy target && truthy (sourceHeader mapping) then Some target
      else None
  | None => None
  end.

(** The statistics update of one mapped cell. *)
Definition cellStats (rawValue : RawValue) (target : jsstring)
  (s : CleaningStats) : CleaningStats :=
  let (cleanedValue, wasModified) := cleanCell rawValue (Some target) in
  if wasModified then
    let s1 := bumpField target (incr_totalCellsModified s) in
    if eqs cleanedValue [] && rawTruthy rawValue
    then incr_emptyValuesCleared s1 else s1
  else s.

(** The body of [mappings.forEach] for one row: the state is the row under
    construction and the statistics. *)
Definition processCell (row : Row) (st : Row * CleaningStats)
  (mapping : HeaderMapping) : Row * CleaningStats :=
  match activeTarget mapping with
  | Some target =>
      let rawValue := get row (sourceHeader mapping) in
      (set (fst st) target (fst (cleanCell rawValue (Some target))),
       cellStats rawValue target (snd st))
  | None => st
  end.

Definition allTargetHeaders (mappings : list HeaderMapping) : list jsstring :=
  fold_left
    (fun acc m =>
       match targetHeader m with
       | Some target =>
           if truthy target && isCustom m && negb (includesStr acc target)
           then acc ++ [target] else acc
       | None => acc
       end)
    mappings TARGET_HEADERS.

(** Every target header initialised with the empty string. *)
Definition blankRow (headers : list jsstring) : Row :=
  fold_left (fun cleanedRow header => set cleanedRow header []) headers [].

Definition processRow (mappings : list HeaderMapping) (headers : list jsstring)
  (s : CleaningStats) (row : Row) : Row * CleaningStats :=
  fold_left (processCell row) mappings (blankRow headers, s).

(** [rows.map(...)] with the statistics threaded through. *)
Fixpoint cleanRows (mappings : list HeaderMapping) (headers : list jsstring)
  (rows : list Row) (s : CleaningStats) : list Row * CleaningStats :=
  match rows with
  | [] => ([], s)
  | row :: rest =>
      let (cleanedRow, s1) := processRow mappings headers s row in
      let (cleanedRest, s2) := cleanRows mappings headers rest s1 in
      (cleanedRow :: cleanedRest, s2)
  end.

(** [value && value.trim() !== ''] *)
Definition nonBlank (value : jsstring) : bool :=
  truthy value && negb (eqs (trim value) []).

Definition hasData (row : Row) : bool :=
  existsb (fun kv => nonBlank (snd kv)) row.

(** [data.filter(...)], counting the rows that are dropped. *)
Fixpoint dropEmptyRows (data : list Row) (s : CleaningStats)
  : list Row * CleaningStats :=
  match data with
  | [] => ([], s)
  | row :: rest =>
      if hasData row then
        let (kept, s') := dropEmptyRows rest s in (row :: kept, s')
      else dropEmptyRows rest (incr_emptyRowsRemoved s)
  end.

(** [Set.add] *)
Definition addKey (keys : list jsstring) (k : jsstring) : list jsstring :=
  if includesStr keys k then keys else keys ++ [k].

Definition columnsWithData (filteredData : list Row) : list jsstring :=
  fold_left
    (fun cols row =>
       fold_left (fun cols kv => if nonBlank (snd kv) then addKey cols (fst kv)
                                 else cols) row cols)
    filteredData [].

Definition allColumns (filteredData : list Row) : list jsstring :=
  match filteredData with
  | row :: _ => map fst row
  | [] => []
  end.

Definition emptyColumns (filteredData : list Row) : list jsstring :=
  filter (fun col => negb (includesStr (columnsWithData filteredData) col))
         (allColumns filteredData).

Definition pruneColumns (cols : list jsstring) (row : Row) : Row :=
  fold_left (fun cleanedRow kv =>
               if includesStr cols (fst kv)
               then set cleanedRow (fst kv) (snd kv) else cleanedRow)
            row [].

Record ProcessResult := {
  data : list Row;
  stats : CleaningStats
}.

(** The rows as cleaned, before any pruning ([const data]). *)
Definition builtRows (rows : list Row) (mappings : list HeaderMapping)
  : list Row * CleaningStats :=
  cleanRows mappings (allTargetHeaders mappings) rows
            (initialStats (List.length rows)).

(** The code on the tables of [plainTable]; on others the code can fail
    with a TypeError, or create no key where [set] creates one. *)
Definition processData (rows : list Row) (mappings : list HeaderMapping)
  : ProcessResult :=
  let (built, s1) := builtRows rows mappings in
  let (filteredData, s2) := dropEmptyRows built s1 in
  let s3 := set_emptyColumnsRemoved (List.length (emptyColumns filteredData)) s2 in
  let cleanedData :=
    map (pruneColumns (columnsWithData filteredData)) filteredData in
  {| data := cleanedData;
     stats := set_totalRows (List.length cleanedData) s3 |}.

(* ================================================================== *)
(** ** Duplicate detection *)
(* ================================================================== *)

Inductive DuplicateField := Email | Phone.

Record DuplicateGroup := {
  field : DuplicateField;
  value : jsstring;
  rowIndices : list nat
}.

(** [Map<string, number[]>], entries in insertion order. *)
Definition EmailMap := list (jsstring * list nat).

(** [if (!m.has(k)) m.set(k, []); m.get(k).push(i)] *)
Fixpoint pushIndex (m : EmailMap) (k : jsstring) (i : nat) : EmailMap :=
  match m with
  | [] => [(k, [i])]
  | (k', l) :: m' =>
      if eqs k' k then (k', l ++ [i]) :: m' else (k', l) :: pushIndex m' k i
  end.

(** [row['Email']?.toLowerCase().trim()], with [undefined] read as the
    (equally falsy) empty string. *)
Definition emailKey (row : Row) : jsstring :=
  match get row (str "Email") with
  | Some e => trim (toLowerCase e)
  | None => []
  end.

(** [data.forEach((row, index) => ...)] from position [index] on. *)
Fixpoint collectEmails (rows : list Row) (index : nat) (m : EmailMap)
  : EmailMap :=
  match rows with
  | [] => m
  | row :: rest =>
      let email := emailKey row in
      collectEmails rest (S index)
        (if truthy email then pushIndex m email index else m)
  end.

Definition detectDuplicates (rows : list Row) : list DuplicateGroup :=
  map (fun entry => {| field := Email; value := fst entry;
                       rowIndices := snd entry |})
      (filter (fun entry => Nat.ltb 1 (List.length (snd entry)))
              (collectEmails rows 0 [])).

(* ================================================================== *)
(** ** Export sanitising of rows ([sanitizeData]) *)
(* ================================================================== *)

(** The body of [data.map]; the code for headers that are not inherited
    names ([plainHeaders]). *)
Definition sanitizeRow (headers : list jsstring) (row : Row) : Row :=
  fold_left
    (fun sanitizedRow header =>
       let value0 := match get row header with
                     | Some v => v   (* [row[header] || ''] *)
                     | None => []
                     end in
       let value1 := if eqs header (str "Phone") && truthy value0
                     then formatPhoneNumber value0 else value0 in
       set sanitizedRow header (sanitizeForExport value1))
    headers [].

Definition sanitizeData (rows : list Row) (headers : list jsstring)
  : list Row :=
  map (sanitizeRow headers) rows.

(* ================================================================== *)
(** ** Vocabulary of the statements *)
(* ================================================================== *)

(** The string is empty or starts with a character that [trim] keeps. *)
Definition headOk (s : jsstring) : bool :=
  match s with [] => true | c :: _ => negb (isSpace c) end.

(** The separator of [split(' ')]. *)
Definition isBlank (c : ascii) : bool := Ascii.eqb c " ".

(** [tag.length > 0] *)
Definition keepTag (tag : jsstring) : bool := Nat.ltb 0 (List.length tag).

(** A string of exactly [n] decimal digits. *)
Definition digits (n : nat) (s : jsstring) : Prop :=
  List.length s = n /\ forallb isDigit s = true.

(** What every successful parse delivers: a two-digit month, a two-digit
    day and a four-digit year. *)
Definition wellFormed (c : BirthdayComponents) : Prop :=
  digits 2 (month c) /\ digits 2 (day c) /\ digits 4 (year c).

(** The decision taken on a match of the [A/B/YYYY] pattern (the last two
    branches of the source build the same record). *)
Definition slashDecision (first second y : jsstring) : BirthdayComponents :=
  if Nat.ltb 12 (parseInt first) && Nat.leb (parseInt second) 12
  then {| month := padStart2 second; day := padStart2 first; year := y |}
  else {| month := padStart2 first; day := padStart2 second; year := y |}.

(** Month and day exchanged. *)
Definition swapped (c : BirthdayComponents) : BirthdayComponents :=
  {| month := day c; day := month c; year := year c |}.

(** The components on which rendering in a format and parsing the result
    gives the same rendering again. *)
Definition stableUnder (format : BirthdayFormat) (c : BirthdayComponents)
  : Prop :=
  match format with
  | YYYY_MM_DD => True
  | MM_DD_YYYY => ~ (12 < parseInt (month c) /\ parseInt (day c) <= 12)
  | DD_MM_YYYY =>
      (12 < parseInt (day c) /\ parseInt (month c) <= 12) \/ month c = day c
  end.

(** One row of [reformatBirthdays]. *)
Definition reformatRow (format : BirthdayFormat) (row : Row) : Row :=
  match get row (str "Birthday") with
  | None => row
  | Some birthday =>
      if negb (truthy birthday) then row
      else match parseBirthday birthday with
           | Some components =>
               set row (str "Birthday")
                   (formatBirthdayToTarget components format)
           | None => row
           end
  end.

(** The rows, counted from [index], whose Email key is [v], in ascending
    order. *)
Fixpoint indicesOf (v : jsstring) (rows : list Row) (index : nat) : list nat :=
  match rows with
  | [] => []
  | row :: rest =>
      if eqs (emailKey row) v then index :: indicesOf v rest (S index)
      else indicesOf v rest (S index)
  end.

(** [m.get(k)], with an absent key read as the empty array. *)
Fixpoint indicesAt (m : EmailMap) (k : jsstring) : list nat :=
  match m with
  | [] => []
  | (k', l) :: m' => if eqs k' k then l else indicesAt m' k
  end.

(** The mapped cells of a table, row by row and mapping by mapping: the raw
    value read and the target it is cleaned for. *)
Definition mappedCells (rows : list Row) (mappings : list HeaderMapping)
  : list (RawValue * jsstring) :=
  flat_map (fun row =>
              flat_map (fun m => match activeTarget m with
                                 | Some target =>
                                     [(get row (sourceHeader m), target)]
                                 | None => []
                                 end) mappings) rows.

(** The cleaned value of a mapped cell and its trimmed original. *)
Definition cleanedOf (cell : RawValue * jsstring) : jsstring :=
  fst (cleanCell (fst cell) (Some (snd cell))).

Definition originalOf (cell : RawValue * jsstring) : jsstring :=
  trim (rawString (fst cell)).

Definition modified (cell : RawValue * jsstring) : bool :=
  negb (eqs (cleanedOf cell) (originalOf cell)).

(** The per-field counters and the target headers they belong to. *)
Inductive Counter :=
  CEmails | CPhones | CNames | CStatus | CTimeZone | CTags | CBirthday.

Definition readCounter (c : Counter) (s : CleaningStats) : nat :=
  match c with
  | CEmails => emailsCleaned s
  | CPhones => phonesNormalized s
  | CNames => namesToProperCase s
  | CStatus => statusValidated s
  | CTimeZone => timeZoneValidated s
  | CTags => tagsFormatted s
  | CBirthday => birthdayFormatted s
  end.

Definition counterOf (c : Counter) : list jsstring :=
  match c with
  | CEmails => [str "Email"]
  | CPhones => [str "Phone"]
  | CNames => [str "First Name"; str "Last Name"]
  | CStatus => [str "Status"]
  | CTimeZone => [str "Time Zone"]
  | CTags => [str "Tags"]
  | CBirthday => [str "Birthday"]
  end.

(** What is observed of the statistics of the cells. *)
Inductive Meter := MTotal | MCleared | MField (c : Counter) | MRowsRemoved.

Definition readMeter (k : Meter) (s : CleaningStats) : nat :=
  match k with
  | MTotal => totalCellsModified s
  | MCleared => emptyValuesCleared s
  | MField c => readCounter c s
  | MRowsRemoved => emptyRowsRemoved s
  end.

Definition counted (k : Meter) (cell : RawValue * jsstring) : bool :=
  match k with
  | MTotal => modified cell
  | MCleared => modified cell && eqs (cleanedOf cell) []
  | MField c => modified cell && includesStr (counterOf c) (snd cell)
  | MRowsRemoved => false
  end.

(** The statistics update of one mapped cell, as a fold step. *)
Definition cellStep (s : CleaningStats) (cell : RawValue * jsstring)
  : CleaningStats :=
  cellStats (fst cell) (snd cell) s.

(** The mapped cells of one row. *)
Definition rowCells (mappings : list HeaderMapping) (row : Row)
  : list (RawValue * jsstring) :=
  flat_map (fun m => match activeTarget m with
                     | Some target => [(get row (sourceHeader m), target)]
                     | None => []
                     end) mappings.

(** A column has data when some row holds a non-blank value under it. *)
Definition columnHasData (rows : list Row) (k : jsstring) : bool :=
  existsb (fun row =>
             existsb (fun kv => eqs (fst kv) k && nonBlank (snd kv)) row) rows.

(** The keys of a cleaned row depend on the mappings only. *)
Definition commonKeys (mappings : list HeaderMapping) (headers : list jsstring)
  : list jsstring :=
  fold_left (fun keys m => match activeTarget m with
                           | Some target => addKey keys target
                           | None => keys
                           end)
            mappings (fold_left addKey headers []).

(* ================================================================== *)
(** ** Further vocabulary *)
(* ================================================================== *)

(** The words of a full name: [fullName.trim().split(/\s+/)] without the
    empty pieces. *)
Definition fullNameWords (fullName : jsstring) : list jsstring :=
  filter truthy (splitRuns isSpace false (trim fullName)).

(** The list holding the word an optional removal took away. *)
Definition removedWord (removed : option jsstring) (ws : list jsstring) : Prop :=
  match removed with
  | Some entry => exists w, ws = [w] /\ toLowerCase entry = toLowerCase w
  | None => ws = []
  end.

(** [validateStatus] *)
Definition validateStatus (status : jsstring) : bool :=
  if negb (truthy status) then true
  else existsb (fun s => eqs (toLowerCase s) (toLowerCase status))
               VALID_STATUSES.

(* ================================================================== *)
(** ** Regular expressions *)
(* ================================================================== *)

(** The regular expressions of the validators and detectors, matched
    against the whole subject (they are all anchored with [^] and [$]),
    by derivatives. *)
Module Regex.

Inductive re :=
| Void
| Eps
| Cls (p : ascii -> bool)
| Cat (a b : re)
| Alt (a b : re)
| Star (a : re).

Fixpoint nullable (r : re) : bool :=
  match r with
  | Void => false
  | Eps => true
  | Cls _ => false
  | Cat a b => nullable a && nullable b
  | Alt a b => nullable a || nullable b
  | Star _ => true
  end.

Fixpoint deriv (c : ascii) (r : re) : re :=
  match r with
  | Void => Void
  | Eps => Void
  | Cls p => if p c then Eps else Void
  | Cat a b =>
      if nullable a then Alt (Cat (deriv c a) b) (deriv c b)
      else Cat (deriv c a) b
  | Alt a b => Alt (deriv c a) (deriv c b)
  | Star a => Cat (deriv c a) (Star a)
  end.

(** [/^r$/.test(s)] *)
Fixpoint matches (r : re) (s : jsstring) : bool :=
  match s with
  | [] => nullable r
  | c :: t => matches (deriv c r) t
  end.

(** The strings a regular expression denotes. *)
Inductive lang : re -> jsstring -> Prop :=
| LEps : lang Eps []
| LCls p c : p c = true -> lang (Cls p) [c]
| LCat a b s t : lang a s -> lang b t -> lang (Cat a b) (s ++ t)
| LAltL a b s : lang a s -> lang (Alt a b) s
| LAltR a b s : lang b s -> lang (Alt a b) s
| LStarNil a : lang (Star a) []
| LStarCons a s t : lang a s -> lang (Star a) t -> lang (Star a) (s ++ t).

(** [r+], [r?] *)
Definition plus (r : re) : re := Cat r (Star r).
Definition opt (r : re) : re := Alt Eps r.

(** One literal character; under the flag [i] up to case. *)
Definition chr (c : ascii) : re := Cls (fun d => Ascii.eqb d c).
Definition chrI (c : ascii) : re :=
  Cls (fun d => Ascii.eqb (lowerChar d) (lowerChar c)).

(** A literal word under the flag [i]. *)
Fixpoint litI (s : jsstring) : re :=
  match s with
  | [] => Eps
  | c :: t => Cat (chrI c) (litI t)
  end.

(** [a|b|...] *)
Fixpoint alts (rs : list re) : re :=
  match rs with
  | [] => Void
  | [r] => r
  | r :: rs' => Alt r (alts rs')
  end.

(** [ab...] *)
Fixpoint cats (rs : list re) : re :=
  match rs with
  | [] => Eps
  | [r] => r
  | r :: rs' => Cat r (cats rs')
  end.

End Regex.

Import Regex.

(* ================================================================== *)
(** ** Validators *)
(* ================================================================== *)

Definition MAX_NAME_LENGTH : nat := 26.

(** [[^\s@]] *)
Definition isEmailChar (c : ascii) : bool :=
  negb (isSpace c || Ascii.eqb c "@").

(** [/^[^\s@]+@[^\s@]+\.[^\s@]+$/] *)
Definition emailRegex : re :=
  cats [ plus (Cls isEmailChar); chr "@"; plus (Cls isEmailChar); chr ".";
         plus (Cls isEmailChar) ].

Definition validateEmailFormat (email : jsstring) : bool :=
  if negb (truthy email) then false else matches emailRegex email.

Record RowValidation := {
  rowIndex : nat;
  missingFields : list jsstring;
  invalidEmail : bool;
  invalidStatus : bool;
  invalidTimeZone : bool;
  missingTimeZone : bool;
  firstNameRequired : bool;
  firstNameTooLong : bool;
  lastNameTooLong : bool
}.

(** [row[k]?.trim() || ''] *)
Definition trimmedField (row : Row) (k : jsstring) : jsstring :=
  match get row k with
  | Some v => trim v
  | None => []
  end.

(** [!row[k] || row[k].trim() === ''] *)
Definition fieldBlank (row : Row) (k : jsstring) : bool :=
  match get row k with
  | Some v => negb (truthy v) || eqs (trim v) []
  | None => true
  end.

(** [v && v.trim() !== '' && !validate(v)] on the field [k]. *)
Definition fieldInvalid (validate : jsstring -> bool) (row : Row) (k : jsstring)
  : bool :=
  match get row k with
  | Some v => truthy v && negb (eqs (trim v) []) && negb (validate v)
  | None => false
  end.

(** The diagnostic of one row, before the decision to report it. *)
Definition validateRow (row : Row) (index : nat) : RowValidation :=
  let firstName := trimmedField row (str "First Name") in
  let lastName := trimmedField row (str "Last Name") in
  let required := negb (truthy firstName) in
  {| rowIndex := index;
     missingFields :=
       (if required then [str "First Name"] else [])
       ++ filter (fieldBlank row) [str "Email"; str "Phone"; str "Last Name"];
     invalidEmail := fieldInvalid validateEmailFormat row (str "Email");
     invalidStatus := fieldInvalid validateStatus row (str "Status");
     invalidTimeZone :=
       negb (fieldBlank row (str "Time Zone"))
       && negb (validateTimeZone (rawString (get row (str "Time Zone"))));
     missingTimeZone := fieldBlank row (str "Time Zone");
     firstNameRequired := required;
     firstNameTooLong :=
       negb required && Nat.ltb MAX_NAME_LENGTH (List.length firstName);
     lastNameTooLong := Nat.ltb MAX_NAME_LENGTH (List.length lastName) |}.

(** The condition under which a row is pushed to the warnings. *)
Definition hasIssue (w : RowValidation) : bool :=
  Nat.ltb 0 (List.length (missingFields w))
  || invalidEmail w || invalidStatus w || invalidTimeZone w
  || missingTimeZone w || firstNameTooLong w || lastNameTooLong w.

(** [data.forEach((row, index) => ...)] from position [index] on. *)
Fixpoint validateFrom (rows : list Row) (index : nat) : list RowValidation :=
  match rows with
  | [] => []
  | row :: rest =>
      let w := validateRow row index in
      if hasIssue w then w :: validateFrom rest (S index)
      else validateFrom rest (S index)
  end.

Definition validateRows (rows : list Row) : list RowValidation :=
  validateFrom rows 0.

(** [data.map((row, index) => ...).filter(pred).map(index)] *)
Fixpoint selectFrom (pred : Row -> bool) (rows : list Row) (index : nat)
  : list nat :=
  match rows with
  | [] => []
  | row :: rest =>
      if pred row then index :: selectFrom pred rest (S index)
      else selectFrom pred rest (S index)
  end.

Definition getRowsWithMissingTimezone (rows : list Row) : list nat :=
  selectFrom (fun row => fieldBlank row (str "Time Zone")) rows 0.

Definition getRowsWithMissingStatus (rows : list Row) : list nat :=
  selectFrom (fun row => fieldBlank row (str "Status")) rows 0.

Definition getRowsWithInvalidStatus (rows : list Row) : list nat :=
  selectFrom (fun row =>
                match get row (str "Status") with
                | Some v =>
                    let status := trim v in
                    truthy status && negb (eqs status [])
                    && negb (validateStatus status)
                | None => false
                end) rows 0.

Definition getRowsWithNameTooLong (rows : list Row) : list nat :=
  selectFrom (fun row =>
                Nat.ltb MAX_NAME_LENGTH
                        (List.length (trimmedField row (str "First Name")))
                || Nat.ltb MAX_NAME_LENGTH
                           (List.length (trimmedField row (str "Last Name"))))
             rows 0.

(** [findMissingEmails] of the data-issues resolver. *)
Definition findMissingEmails (rows : list Row) : list nat :=
  selectFrom (fun row => fieldBlank row (str "Email")) rows 0.

(** A row on which [validateRows] has nothing to report. *)
Definition rowIsClean (row : Row) : bool :=
  negb (fieldBlank row (str "First Name"))
  && Nat.leb (List.length (trimmedField row (str "First Name"))) MAX_NAME_LENGTH
  && negb (fieldBlank row (str "Last Name"))
  && Nat.leb (List.length (trimmedField row (str "Last Name"))) MAX_NAME_LENGTH
  && negb (fieldBlank row (str "Email"))
  && validateEmailFormat (rawString (get row (str "Email")))
  && negb (fieldBlank row (str "Phone"))
  && (fieldBlank row (str "Status")
      || validateStatus (rawString (get row (str "Status"))))
  && negb (fieldBlank row (str "Time Zone"))
  && validateTimeZone (rawString (get row (str "Time Zone"))).

(* ================================================================== *)
(** ** CSV files ([parseFile], [generateCSV]) *)
(* ================================================================== *)

Definition dquote : ascii := "034"%char.
Definition comma : ascii := ","%char.
Definition newline : ascii := "010"%char.
Definition creturn : ascii := "013"%char.

(** The loop of [parseCSVLine] on the characters that remain, with the
    fields [result] read so far, the field [current] being read and the
    flag [inQuotes].  A quote seen inside quotes and followed by a quote is
    one literal quote, and both characters are consumed. *)
Fixpoint parseCSVFrom (line : jsstring) (result : list jsstring)
         (current : jsstring) (inQuotes : bool) : list jsstring :=
  match line with
  | [] => result ++ [trim current]
  | char :: rest =>
      if Ascii.eqb char dquote then
        match rest with
        | next :: rest' =>
            if inQuotes && Ascii.eqb next dquote
            then parseCSVFrom rest' result (current ++ [dquote]) inQuotes
            else parseCSVFrom rest result current (negb inQuotes)
        | [] => parseCSVFrom rest result current (negb inQuotes)
        end
      else if Ascii.eqb char comma && negb inQuotes
      then parseCSVFrom rest (result ++ [trim current]) [] inQuotes
      else parseCSVFrom rest result (current ++ [char]) inQuotes
  end.

Definition parseCSVLine (line : jsstring) : list jsstring :=
  parseCSVFrom line [] [] false.

(** Every quote of the value is doubled. *)
Definition doubleQuotes (value : jsstring) : jsstring :=
  flat_map (fun c => if Ascii.eqb c dquote then [dquote; dquote] else [c])
           value.

Definition escapeCSV (value : jsstring) : jsstring :=
  if includes value [comma] || includes value [dquote]
     || includes value [newline]
  then dquote :: doubleQuotes value ++ [dquote]
  else value.

(** [row[header] || ''] *)
Definition cell (row : Row) (header : jsstring) : jsstring :=
  rawString (get row header).

(** The text of [generateCSV]. *)
Definition csvLine (headers : list jsstring) (row : Row) : jsstring :=
  join [comma] (map (fun header => escapeCSV (cell row header)) headers).

(** The text of the Blob; the code for headers that are not inherited
    names ([plainHeaders]), for which every exported cell is a string. *)
Definition generateCSV (data : list Row) (headers : list jsstring)
  : jsstring :=
  join [newline]
       (join [comma] (map escapeCSV headers)
        :: map (csvLine headers) (sanitizeData data headers)).

(** [s.split(/\r?\n/)]: the pieces between line feeds; a carriage return
    just before a line feed belongs to the separator. *)
Definition dropReturn (piece : jsstring) : jsstring :=
  match rev piece with
  | c :: t => if Ascii.eqb c creturn then rev t else piece
  | [] => piece
  end.

Fixpoint dropReturns (pieces : list jsstring) : list jsstring :=
  match pieces with
  | [] => []
  | [piece] => [piece]
  | piece :: rest => dropReturn piece :: dropReturns rest
  end.

Definition splitLines (text : jsstring) : list jsstring :=
  dropReturns (splitOn (Ascii.eqb newline) text).

(** [headers.forEach((header, index) => row[header] = values[index] || '')],
    for headers that are not inherited names ([plainHeaders]). *)
Fixpoint rowOfValues (headers : list jsstring) (index : nat)
         (values : list jsstring) (row : Row) : Row :=
  match headers with
  | [] => row
  | header :: rest =>
      rowOfValues rest (S index) values
                  (set row header (rawString (nth_error values index)))
  end.

(** The CSV branch of [parseFile], on the decoded text. *)
Definition parseCSV (text : jsstring) : list jsstring * list Row :=
  match filter (fun line => truthy (trim line)) (splitLines text) with
  | [] => ([], [])
  | first :: others =>
      let headers := parseCSVLine first in
      (headers,
       map (fun line => rowOfValues headers 0 (parseCSVLine line) []) others)
  end.

(* ================================================================== *)
(** ** Address components *)
(* ================================================================== *)

Module Address.

Inductive Role := street1 | address | street2 | city | state | zip | country.

Record AddressComponent := {
  sourceHeader : jsstring;
  role : Role;
  order : nat
}.

(** [[\s_]] *)
Definition isGap (c : ascii) : bool := isSpace c || Ascii.eqb c "_".

Definition gap : re := Cls isGap.
Definition word (s : string) : re := litI (str s).

Record Pattern := {
  patternRole : Role;
  regex : re;
  patternOrder : nat
}.

Definition patterns : list Pattern :=
  [ {| patternRole := street1;
       regex := alts [ word "street";
                       cats [word "addr"; opt (word "ess"); opt gap; word "1"];
                       cats [word "street"; opt gap; word "1"];
                       cats [word "line"; opt gap; word "1"];
                       cats [word "address"; gap; word "line"; opt gap;
                             word "1"] ];
       patternOrder := 0 |};
    {| patternRole := address; regex := word "address"; patternOrder := 1 |};
    {| patternRole := street2;
       regex := alts [ cats [word "addr"; opt (word "ess"); opt gap; word "2"];
                       cats [word "street"; opt gap; word "2"];
                       cats [word "line"; opt gap; word "2"];
                       word "apt"; word "suite"; word "unit"; word "apartment";
                       cats [word "address"; gap; word "line"; opt gap;
                             word "2"] ];
       patternOrder := 2 |};
    {| patternRole := city;
       regex := alts [word "city"; word "town"; word "municipality";
                      word "locality"];
       patternOrder := 3 |};
    {| patternRole := state;
       regex := alts [word "state"; word "province"; word "region";
                      word "st"; word "prov"];
       patternOrder := 4 |};
    {| patternRole := zip;
       regex := alts [ word "zip"; word "postal"; word "postcode";
                       cats [word "zip"; opt gap; word "code"];
                       cats [word "postal"; opt gap; word "code"] ];
       patternOrder := 5 |};
    {| patternRole := country;
       regex := alts [word "country"; word "nation"; word "ctry"];
       patternOrder := 6 |} ].

(** The component of one header: the first pattern that its trimmed form
    matches, if any. *)
Definition componentOf (header : jsstring) : option AddressComponent :=
  match find (fun p => matches (regex p) (trim header)) patterns with
  | Some p => Some {| sourceHeader := header; role := patternRole p;
                      order := patternOrder p |}
  | None => None
  end.

(** [components.sort((a, b) => a.order - b.order)]; the sort of an array
    is stable. *)
Fixpoint insertByOrder (c : AddressComponent) (sorted : list AddressComponent)
  : list AddressComponent :=
  match sorted with
  | [] => [c]
  | d :: rest =>
      if Nat.leb (order c) (order d) then c :: sorted
      else d :: insertByOrder c rest
  end.

Definition sortByOrder (components : list AddressComponent)
  : list AddressComponent :=
  fold_right insertByOrder [] components.

Definition detectAddressComponentColumns (headers : list jsstring)
  : list AddressComponent :=
  sortByOrder
    (flat_map (fun header => match componentOf header with
                             | Some c => [c]
                             | None => []
                             end) headers).

(** The pattern [,\s*,] at the head of the string: what follows the
    match. *)
Definition commaRun (s : jsstring) : option jsstring :=
  match s with
  | c :: t =>
      if Ascii.eqb c ","
      then match trimStart t with
           | d :: rest => if Ascii.eqb d "," then Some rest else None
           | [] => None
           end
      else None
  | [] => None
  end.

(** [s.replace(/,\s*,/g, ',')]: the matches are taken from left to right
    and do not overlap.  [fuel] bounds the number of steps; the length of
    the string, plus one, is enough. *)
Fixpoint collapseCommasFuel (fuel : nat) (s : jsstring) : jsstring :=
  match fuel with
  | 0 => s
  | S fuel' =>
      match s with
      | [] => []
      | c :: t =>
          match commaRun s with
          | Some rest => "," %char :: collapseCommasFuel fuel' rest
          | None => c :: collapseCommasFuel fuel' t
          end
      end
  end.

Definition collapseCommas (s : jsstring) : jsstring :=
  collapseCommasFuel (S (List.length s)) s.





End Address.


(* ================================================================== *)
(** ** Sample values ([getSampleValues]) *)
(* ================================================================== *)

(** [strValue.length > 30 ? strValue.substring(0, 27) + '...' : strValue] *)
Definition shorten (strValue : jsstring) : jsstring :=
  if Nat.ltb 30 (List.length strValue)
  then firstn 27 strValue ++ str "..."
  else strValue.

(** The loop of [getSampleValues] over the rows that remain, with the
    samples collected so far; the code for a header that is not an
    inherited name ([inheritedName]). *)
Fixpoint sampleFrom (rows : list Row) (header : jsstring) (maxSamples : nat)
         (samples : list jsstring) : list jsstring :=
  match rows with
  | [] => samples
  | row :: rest =>
      if Nat.leb maxSamples (List.length samples) then samples
      else
        let value := get row header in
        if rawTruthy value && negb (isEmptyValue value) then
          let strValue := trim (rawString value) in
          if truthy strValue && negb (includesStr samples strValue)
          then sampleFrom rest header maxSamples (samples ++ [shorten strValue])
          else sampleFrom rest header maxSamples samples
        else sampleFrom rest header maxSamples samples
  end.

Definition getSampleValues (rows : list Row) (header : jsstring)
           (maxSamples : nat) : list jsstring :=
  sampleFrom rows header maxSamples [].

(** [s] is the sample of a value of the column that is not empty. *)
Definition isSample (rows : list Row) (header s : jsstring) : Prop :=
  exists row v, In row rows /\ get row header = Some v /\
                isEmptyValue (Some v) = false /\ s = shorten (trim v).

(* ================================================================== *)
(** ** Header recognition ([detectFullNameColumn], [fallbackMapping]) *)
(* ================================================================== *)

(** [h.toLowerCase().replace(/[_\-\s]+/g, '')] *)
Definition isJoiner (c : ascii) : bool :=
  Ascii.eqb c "_" || Ascii.eqb c "-" || isSpace c.

Definition normalizeHeader (h : jsstring) : jsstring :=
  removeAll isJoiner (toLowerCase h).

Definition namesFirst (h : jsstring) : bool :=
  includes h (str "firstname") || eqs h (str "fname") || eqs h (str "first").

Definition namesLast (h : jsstring) : bool :=
  includes h (str "lastname") || eqs h (str "lname") || eqs h (str "last").

Module NameSplit.

Inductive NameType := full_name | combined_name.

Record NameSplitDetection := {
  sourceHeader : jsstring;
  type : NameType
}.

Record NamePattern := {
  pattern : re;
  patternType : NameType
}.

(** [[\s_-]?] *)
Definition joiner : re := opt (Cls isJoiner).

Definition combinedNamePatterns : list NamePattern :=
  [ {| pattern := litI (str "fullname"); patternType := full_name |};
    {| pattern := cats [litI (str "full"); joiner; litI (str "name")];
       patternType := full_name |};
    {| pattern := litI (str "name"); patternType := combined_name |};
    {| pattern := cats [litI (str "client"); joiner; litI (str "name")];
       patternType := combined_name |};
    {| pattern := cats [litI (str "customer"); joiner; litI (str "name")];
       patternType := combined_name |};
    {| pattern := cats [litI (str "contact"); joiner; litI (str "name")];
       patternType := combined_name |};
    {| pattern := litI (str "client"); patternType := combined_name |};
    {| pattern := litI (str "contact"); patternType := combined_name |} ].

(** The first pattern the trimmed header matches. *)
Definition combinedName (header : jsstring) : option NameType :=
  match find (fun p => matches (pattern p) (trim header)) combinedNamePatterns
  with
  | Some p => Some (patternType p)
  | None => None
  end.

(** The two nested loops: the first header, in the order of the list,
    that matches a pattern. *)
Fixpoint firstCombinedName (headers : list jsstring)
  : option NameSplitDetection :=
  match headers with
  | [] => None
  | header :: rest =>
      match combinedName header with
      | Some t => Some {| sourceHeader := header; type := t |}
      | None => firstCombinedName rest
      end
  end.

Definition detectFullNameColumn (headers : list jsstring)
  : option NameSplitDetection :=
  let lowerHeaders := map normalizeHeader headers in
  let hasFirstName := existsb namesFirst lowerHeaders in
  let hasLastName := existsb namesLast lowerHeaders in
  if hasFirstName && hasLastName then None
  else firstCombinedName headers.

End NameSplit.

Module Fallback.

(** A mapping proposed by the keyword matching; the confidence is kept
    as the number of tenths. *)
Record Proposal := {
  sourceHeader : jsstring;
  targetHeader : option jsstring;
  confidenceTenths : nat
}.

(** [normalized.includes(k)], [normalized === k] *)
Definition hasWord (normalized : jsstring) (k : string) : bool :=
  includes normalized (str k).
Definition isWord (normalized : jsstring) (k : string) : bool :=
  eqs normalized (str k).

Definition keywordTarget (normalized : jsstring) : option jsstring * nat :=
  let has := hasWord normalized in
  let equals := isWord normalized in
  (if has "firstname" || equals "first" || equals "fname"
  then (Some (str "First Name"), 8)
  else if has "lastname" || equals "last" || equals "lname"
  then (Some (str "Last Name"), 8)
  else if has "email" || has "mail" then (Some (str "Email"), 9)
  else if has "phone" || has "cell" || equals "ph" || has "mobile"
  then (Some (str "Phone"), 8)
  else if has "address" || has "street" then (Some (str "Address"), 7)
  else if has "birthday" || has "dob" || has "birthdate"
  then (Some (str "Birthday"), 8)
  else if has "timezone" || has "tz" then (Some (str "Time Zone"), 8)
  else if has "status" || has "type" || has "category"
  then (Some (str "Status"), 6)
  else if has "tag" || has "source" || has "lead" then (Some (str "Tags"), 6)
  else if has "note" || has "comment" || has "info"
  then (Some (str "Notes"), 6)
  else (None, 0))%string.

Definition fallbackMapping (sourceHeaders : list jsstring) : list Proposal :=
  map (fun sourceHeader =>
         let normalized := normalizeHeader sourceHeader in
         {| sourceHeader := sourceHeader;
            targetHeader := fst (keywordTarget normalized);
            confidenceTenths := snd (keywordTarget normalized) |})
      sourceHeaders.

End Fallback.

(** The character classes of the expression do not tell a letter from its
    lower-case form. *)
Fixpoint caseBlind (r : re) : Prop :=
  match r with
  | Cls p => forall c, p (lowerChar c) = p c
  | Cat a b | Alt a b => caseBlind a /\ caseBlind b
  | Star a => caseBlind a
  | Void | Eps => True
  end.

(* ================================================================== *)
(** ** Duplicate phones ([detectPhoneDuplicates]) *)
(* ================================================================== *)

(** The digits of the trimmed Phone of a row; empty when the row has no
    Phone or a blank one. *)
Definition phoneKey (row : Row) : jsstring :=
  match get row (str "Phone") with
  | Some p =>
      let phone := trim p in
      if truthy phone && Nat.ltb 0 (List.length phone)
      then removeAll isNonDigit phone
      else []
  | None => []
  end.

(** [data.forEach((row, index) => ...)] from position [index] on. *)
Fixpoint collectPhones (rows : list Row) (index : nat) (m : EmailMap)
  : EmailMap :=
  match rows with
  | [] => m
  | row :: rest =>
      let normalized := phoneKey row in
      collectPhones rest (S index)
        (if Nat.ltb 0 (List.length normalized)
         then pushIndex m normalized index else m)
  end.

(** The map returned: the entries with more than one index, in the order
    in which their phones were first seen. *)
Definition detectPhoneDuplicates (rows : list Row) : EmailMap :=
  filter (fun entry => Nat.ltb 1 (List.length (snd entry)))
         (collectPhones rows 0 []).

(** Proper case read character by character: a character at the start of
    the string or just after a space is put in upper case, any other in
    lower case. *)
Fixpoint properFrom (start : bool) (s : jsstring) : jsstring :=
  match s with
  | [] => []
  | c :: t =>
      (if start then upperChar (lowerChar c) else lowerChar c)
        :: properFrom (Ascii.eqb c " ") t
  end.

(** All the characters. *)
Definition allChars : list ascii := map ascii_of_nat (seq 0 256).

(** A list of strings without its repetitions. *)
Fixpoint distinct (l : list jsstring) : list jsstring :=
  match l with
  | [] => []
  | x :: t => if includesStr t x then distinct t else x :: distinct t
  end.

(** The normalised forms ([normalizeHeader]) of the strings that an
    expression without repetition denotes. *)
Fixpoint normalForms (r : re) : list jsstring :=
  match r with
  | Void => []
  | Eps => [[]]
  | Cls p => distinct (map (fun c => normalizeHeader [c]) (filter p allChars))
  | Cat a b => flat_map (fun x => map (app x) (normalForms b)) (normalForms a)
  | Alt a b => normalForms a ++ normalForms b
  | Star _ => []
  end.

Fixpoint starFree (r : re) : bool :=
  match r with
  | Cat a b | Alt a b => starFree a && starFree b
  | Star _ => false
  | Void | Eps | Cls _ => true
  end.

(* ================================================================== *)
(** ** The inputs on which the definitions are the code *)
(* ================================================================== *)

(** [obj[k]] answers with a member inherited from [Object.prototype] when
    [k] is not an own key of [obj] and is one of the names below, whereas
    [lookup] and [get] read own keys only.  On these names the code leaves
    the definitions above:
    - [cleanTimeZone("constructor")] finds the function [Object] under
      [TIMEZONE_ALIASES[lowerNormalized]] and returns it (and
      [Object.prototype] for "__proto__"); the value is not a string;
    - [parseBirthday("constructor 6 1975")] finds the same function under
      [MONTH_NAMES[...]] and succeeds with it as the month;
    - [cleanCell] hands such a time zone on, and [processData] then fails
      with a TypeError at [value.trim()];
    - [row[header]] is an inherited function for a header such as
      "toString" that the row does not hold, and the assignment
      [row["__proto__"] = value] creates no key: this concerns
      [processData], [sanitizeData], [generateCSV], the CSV reader and
      [getSampleValues].
    The predicates of this section say that an input stays clear of these
    names.  Every statement below about one of these functions that would
    otherwise not hold of the code is made under the predicate that fits
    it. *)
Definition OBJECT_PROTOTYPE_NAMES : list jsstring :=
  map str
  [ "constructor"; "__proto__"; "hasOwnProperty"; "isPrototypeOf";
    "propertyIsEnumerable"; "toLocaleString"; "toString"; "valueOf";
    "__defineGetter__"; "__defineSetter__"; "__lookupGetter__";
    "__lookupSetter__" ]%string.

(** [k in Object.prototype] *)
Definition inheritedName (k : jsstring) : bool :=
  includesStr OBJECT_PROTOTYPE_NAMES k.

(** The key under which [cleanTimeZone] reads [TIMEZONE_ALIASES] is not
    inherited. *)
Definition plainTimeZone (timeZone : jsstring) : bool :=
  negb (inheritedName (toLowerCase (trim timeZone))).

(** The month words that the two textual patterns of [parseBirthday] find
    in the trimmed input. *)
Definition monthWords (trimmed : jsstring) : list jsstring :=
  match textMatch1 trimmed with
  | Some (monthText, _, _) => [monthText]
  | None => []
  end ++
  match textMatch2 trimmed with
  | Some (_, monthText, _) => [monthText]
  | None => []
  end.

(** No key under which [parseBirthday] reads [MONTH_NAMES] is inherited. *)
Definition plainBirthday (birthday : jsstring) : bool :=
  forallb (fun monthText => negb (inheritedName (toLowerCase monthText)))
          (monthWords (trim birthday)).

(** A cell that [cleanCell] cleans as a time zone or as a birthday has a
    plain value; the other cleaners index no object. *)
Definition plainCell (value : RawValue) (targetHeader : option jsstring)
  : bool :=
  match targetHeader with
  | Some target =>
      if eqs target (str "Time Zone") then plainTimeZone (rawString value)
      else if eqs target (str "Birthday") then plainBirthday (rawString value)
      else true
  | None => true
  end.

(** Neither header of a mapping is an inherited name: [row[sourceHeader]]
    reads an own key or is [undefined], and
    [cleanedRow[targetHeader] = ...] creates the key. *)
Definition plainMapping (mapping : HeaderMapping) : bool :=
  negb (inheritedName (sourceHeader mapping)) &&
  match targetHeader mapping with
  | Some target => negb (inheritedName target)
  | None => true
  end.

(** A table and its mappings on which [processData] indexes no object by
    an inherited name. *)
Definition plainTable (rows : list Row) (mappings : list HeaderMapping)
  : bool :=
  forallb plainMapping mappings &&
  forallb (fun cell => plainCell (fst cell) (Some (snd cell)))
          (mappedCells rows mappings).

(** Headers under which a row is read or written: none is an inherited
    name. *)
Definition plainHeaders (headers : list jsstring) : bool :=
  forallb (fun header => negb (inheritedName header)) headers.

(** Inputs on which the code finds an inherited member, as recalled at
    the head of this section; each is turned down by the predicate that
    fits it. *)
Definition inheritedTimeZones : list jsstring :=
  [str "constructor"; str " Constructor "; str "__proto__"].

Definition inheritedBirthdays : list jsstring :=
  [str "constructor 6 1975"; str "6 Constructor, 1975"].

Definition inheritedCells : list (RawValue * option jsstring) :=
  map (fun zone => (Some zone, Some (str "Time Zone"))) inheritedTimeZones ++
  map (fun born => (Some born, Some (str "Birthday"))) inheritedBirthdays.

Definition inheritedTables : list (list Row * list HeaderMapping) :=
  map (fun cell =>
         ([ [(str "column", rawString (fst cell))] ],
          [ {| sourceHeader := str "column"; targetHeader := snd cell;
               isCustom := false |} ]))
      inheritedCells ++
  [ ([], [ {| sourceHeader := str "toString";
              targetHeader := Some (str "Notes"); isCustom := false |} ]);
    ([], [ {| sourceHeader := str "nick";
              targetHeader := Some (str "__proto__"); isCustom := true |} ]) ].

Definition inheritedHeaders : list (list jsstring) :=
  [ [str "Email"; str "constructor"]; [str "toString"; str "Email"];
    [str "__proto__"] ].

(** Strings of ASCII characters.  Outside ASCII the case mappings of
    JavaScript can change the length of a string ([toUpperCase] turns the
    sharp s into "SS"), which [toLowerCase] and [toUpperCase] above do not
    follow. *)
Definition isAscii (c : ascii) : bool := N.ltb (code c) 128.

Definition asciiOnly (s : jsstring) : bool := forallb isAscii s.

(* ================================================================== *)
(** * Properties *)
(* ================================================================== *)

(** ** Characters *)

Ltac all_chars c :=
  destruct c as [[] [] [] [] [] [] [] []]; try reflexivity; try discriminate.

Lemma lowerChar_idem c : lowerChar (lowerChar c) = lowerChar c.
Proof. all_chars c. Qed.

Lemma isSpace_lowerChar c : isSpace (lowerChar c) = isSpace c.
Proof. all_chars c. Qed.

Lemma lower_upper_lower c :
  lowerChar (upperChar (lowerChar c)) = lowerChar c.
Proof. all_chars c. Qed.

Lemma blank_upperChar c :
  Ascii.eqb (upperChar c) " " = Ascii.eqb c " ".
Proof. all_chars c. Qed.

Lemma blank_lowerChar c :
  Ascii.eqb (lowerChar c) " " = Ascii.eqb c " ".
Proof. all_chars c. Qed.

Lemma digit_not_space c : isDigit c = true -> isSpace c = false.
Proof. all_chars c. Qed.

Lemma digit_not_sep c : isDigit c = true -> isDateSep c = false.
Proof. all_chars c. Qed.

Lemma sep_not_digit c : isDateSep c = true -> isDigit c = false.
Proof. all_chars c. Qed.

(** ** Strings *)

Lemma eqs_refl a : eqs a a = true.
Proof.
  induction a as [|c a IH]; simpl; [reflexivity|].
  now rewrite Ascii.eqb_refl.
Qed.

Lemma eqs_eq a b : eqs a b = true <-> a = b.
Proof.
  split.
  - revert b; induction a as [|c a IH]; intros [|d b] H; simpl in H;
      try discriminate; [reflexivity|].
    apply andb_true_iff in H as [Hc Hr].
    apply Ascii.eqb_eq in Hc. f_equal; auto.
  - intros ->. apply eqs_refl.
Qed.

Lemma eqs_neq a b : eqs a b = false <-> a <> b.
Proof.
  split.
  - intros H E. apply eqs_eq in E. congruence.
  - intros H. destruct (eqs a b) eqn:E; [|reflexivity].
    apply eqs_eq in E. contradiction.
Qed.

Lemma truthy_nonempty s : truthy s = true <-> s <> [].
Proof. destruct s; simpl; split; congruence. Qed.

Lemma toLowerCase_idem s : toLowerCase (toLowerCase s) = toLowerCase s.
Proof.
  unfold toLowerCase. rewrite map_map. apply map_ext, lowerChar_idem.
Qed.

(** *** [trim] *)

Lemma trimStart_headOk s : headOk (trimStart s) = true.
Proof.
  induction s as [|c s IH]; simpl; [reflexivity|].
  destruct (isSpace c) eqn:E; [assumption|]. simpl. now rewrite E.
Qed.

Lemma trimStart_fix s : headOk s = true -> trimStart s = s.
Proof.
  destruct s as [|c s]; simpl; [reflexivity|].
  destruct (isSpace c); [discriminate|reflexivity].
Qed.

Lemma trimStart_split s :
  exists ws, s = ws ++ trimStart s /\ forallb isSpace ws = true.
Proof.
  induction s as [|c s (ws & E & F)]; simpl.
  - exists []. split; reflexivity.
  - destruct (isSpace c) eqn:Hc.
    + exists (c :: ws). simpl. rewrite Hc, F. split; [now f_equal|reflexivity].
    + exists []. split; reflexivity.
Qed.

Lemma headOk_prefix p q : p <> [] -> headOk (p ++ q) = true -> headOk p = true.
Proof. destruct p; simpl; [congruence|auto]. Qed.

Lemma trim_fix s : headOk s = true -> headOk (rev s) = true -> trim s = s.
Proof.
  intros H1 H2. unfold trim, trimEnd.
  rewrite (trimStart_fix _ H1), (trimStart_fix _ H2). apply rev_involutive.
Qed.

Lemma trim_ends s : headOk (trim s) = true /\ headOk (rev (trim s)) = true.
Proof.
  unfold trim, trimEnd. rewrite rev_involutive. split.
  2: apply trimStart_headOk.
  pose proof (trimStart_headOk s) as Ht.
  set (t := trimStart s) in *.
  destruct (trimStart_split (rev t)) as (ws & E & _).
  set (u := trimStart (rev t)) in *.
  destruct u as [|c u'] eqn:Eu; [reflexivity|].
  assert (Et : t = rev (c :: u') ++ rev ws).
  { rewrite <- rev_app_distr, <- E. symmetry. apply rev_involutive. }
  rewrite Et in Ht. apply headOk_prefix in Ht; [assumption|].
  simpl. intros C. apply app_eq_nil in C as [_ C]. discriminate.
Qed.

Lemma trim_idem s : trim (trim s) = trim s.
Proof. destruct (trim_ends s). now apply trim_fix. Qed.

Lemma trimStart_lower s :
  trimStart (toLowerCase s) = toLowerCase (trimStart s).
Proof.
  induction s as [|c s IH]; simpl; [reflexivity|].
  rewrite isSpace_lowerChar. destruct (isSpace c); [assumption|reflexivity].
Qed.

Lemma trim_lower s : trim (toLowerCase s) = toLowerCase (trim s).
Proof.
  unfold trim, trimEnd. rewrite trimStart_lower.
  unfold toLowerCase at 1. rewrite <- map_rev.
  fold (toLowerCase (rev (trimStart s))). rewrite trimStart_lower.
  unfold toLowerCase. now rewrite map_rev.
Qed.

Lemma trimStart_incl s c : In c (trimStart s) -> In c s.
Proof.
  induction s as [|d s IH]; simpl; [auto|].
  destruct (isSpace d); simpl; auto.
Qed.

Lemma trim_incl s c : In c (trim s) -> In c s.
Proof.
  unfold trim, trimEnd. intros H.
  apply in_rev, trimStart_incl, in_rev in H. now apply trimStart_incl.
Qed.

(** *** [split] and [join] *)

Lemma splitOn_nonempty p s : splitOn p s <> [].
Proof.
  destruct s as [|c s]; simpl; [discriminate|].
  destruct (p c); [discriminate|]. destruct (splitOn p s); discriminate.
Qed.

Lemma splitOn_chars p s w c :
  In w (splitOn p s) -> In c w -> In c s /\ p c = false.
Proof.
  revert w; induction s as [|d s IH]; simpl; intros w Hw Hc.
  - destruct Hw as [<-|[]]. destruct Hc.
  - destruct (p d) eqn:Hd.
    + destruct Hw as [<-|Hw]; [destruct Hc|].
      destruct (IH _ Hw Hc); auto.
    + pose proof (splitOn_nonempty p s) as Hne.
      destruct (splitOn p s) as [|w0 ws]; [congruence|].
      destruct Hw as [<-|Hw].
      * destruct Hc as [<-|Hc]; [auto|].
        destruct (IH w0 (or_introl eq_refl) Hc); auto.
      * destruct (IH w (or_intror Hw) Hc); auto.
Qed.

Lemma splitOn_app_clean p w s :
  (forall c, In c w -> p c = false) ->
  splitOn p (w ++ s) =
  match splitOn p s with
  | w0 :: ws => (w ++ w0) :: ws
  | [] => [w]
  end.
Proof.
  induction w as [|c w IH]; intros H; simpl.
  - destruct (splitOn p s) eqn:E; [now apply splitOn_nonempty in E|reflexivity].
  - rewrite (H c (or_introl eq_refl)), IH by (intros; apply H; now right).
    destruct (splitOn p s) eqn:E; [now apply splitOn_nonempty in E|reflexivity].
Qed.

Lemma splitOn_join p sep ws :
  p sep = true -> ws <> [] ->
  (forall w c, In w ws -> In c w -> p c = false) ->
  splitOn p (join [sep] ws) = ws.
Proof.
  intros Hsep. induction ws as [|w ws IH]; intros Hne H; [congruence|].
  destruct ws as [|w' ws].
  - simpl. rewrite <- (app_nil_r w) at 1.
    rewrite splitOn_app_clean by (intros; eapply H; [now left|assumption]).
    simpl. now rewrite app_nil_r.
  - change (join [sep] (w :: w' :: ws))
      with (w ++ sep :: join [sep] (w' :: ws)).
    rewrite splitOn_app_clean by (intros; eapply H; [now left|assumption]).
    simpl. rewrite Hsep. rewrite app_nil_r. f_equal.
    apply IH; [discriminate|]. intros; eapply H; [right; eassumption|assumption].
Qed.

Lemma toLowerCase_join sep ws :
  toLowerCase (join sep ws) = join (toLowerCase sep) (map toLowerCase ws).
Proof.
  induction ws as [|w ws IH]; [reflexivity|].
  destruct ws as [|w' ws]; [reflexivity|].
  change (join sep (w :: w' :: ws)) with (w ++ sep ++ join sep (w' :: ws)).
  unfold toLowerCase at 1. rewrite !map_app.
  fold (toLowerCase (join sep (w' :: ws))). rewrite IH. reflexivity.
Qed.

(** ** Idempotence of the string cleaners *)

(** The guard [if (!x) return ''] in front of a cleaner's body. *)
Lemma falsy_guard (r body : jsstring) :
  (truthy r = true -> body = r) ->
  (if negb (truthy r) then [] else body) = r.
Proof. destruct r; simpl; auto. Qed.

Lemma guard_cases (x body : jsstring) (P : jsstring -> Prop) :
  P [] -> P body -> P (if negb (truthy x) then [] else body).
Proof. destruct x; simpl; auto. Qed.

Lemma removeAll_idem p s : removeAll p (removeAll p s) = removeAll p s.
Proof.
  unfold removeAll. induction s as [|c s IH]; simpl; [reflexivity|].
  destruct (p c) eqn:E; simpl; [assumption|]. now rewrite E, IH.
Qed.

Lemma cleanPhone_idem x : cleanPhone (cleanPhone x) = cleanPhone x.
Proof.
  unfold cleanPhone at 2 3. apply guard_cases; [reflexivity|].
  unfold cleanPhone. apply falsy_guard. intros _. apply removeAll_idem.
Qed.

Lemma removeSpace_lower_idem s :
  removeAll isSpace (toLowerCase (removeAll isSpace (toLowerCase s)))
  = removeAll isSpace (toLowerCase s).
Proof.
  unfold removeAll, toLowerCase.
  induction s as [|c s IH]; simpl; [reflexivity|].
  destruct (isSpace (lowerChar c)) eqn:E; simpl; [assumption|].
  rewrite lowerChar_idem, E. simpl. now rewrite IH.
Qed.

Lemma cleanEmail_idem x : cleanEmail (cleanEmail x) = cleanEmail x.
Proof.
  unfold cleanEmail at 2 3. apply guard_cases; [reflexivity|].
  unfold cleanEmail. apply falsy_guard. intros _. apply removeSpace_lower_idem.
Qed.

Lemma capitalize_lower w :
  toLowerCase w = w -> toLowerCase (capitalize w) = w.
Proof.
  destruct w as [|c w]; [reflexivity|].
  unfold capitalize, toLowerCase. simpl. intros H.
  injection H as Hc Hw. rewrite Hw. f_equal.
  rewrite <- Hc at 1. rewrite lower_upper_lower. exact Hc.
Qed.

Lemma toProperCase_words x :
  toProperCase x =
  if negb (truthy x) then []
  else join [" "%char] (map capitalize (splitOn isBlank (toLowerCase x))).
Proof. reflexivity. Qed.

Lemma toProperCase_idem x : toProperCase (toProperCase x) = toProperCase x.
Proof.
  rewrite (toProperCase_words x). apply guard_cases; [reflexivity|].
  set (ws := splitOn isBlank (toLowerCase x)).
  assert (Hlow : forall w, In w ws -> toLowerCase w = w).
  { intros w Hw. unfold toLowerCase. rewrite <- (map_id w) at 2.
    apply map_ext_in. intros c Hc.
    destruct (splitOn_chars _ _ _ _ Hw Hc) as [Hin _].
    unfold toLowerCase in Hin. apply in_map_iff in Hin as (c0 & <- & _).
    apply lowerChar_idem. }
  assert (Hnb : forall w c, In w ws -> In c w -> isBlank c = false).
  { intros w c Hw Hc. now destruct (splitOn_chars _ _ _ _ Hw Hc). }
  rewrite toProperCase_words. apply falsy_guard. intros _.
  rewrite toLowerCase_join, map_map.
  rewrite (map_ext_in (fun w => toLowerCase (capitalize w)) (fun w => w) ws)
    by (intros w Hw; apply capitalize_lower; auto).
  rewrite map_id.
  change (toLowerCase [" "%char]) with [" "%char].
  rewrite splitOn_join; [reflexivity|reflexivity|apply splitOn_nonempty|exact Hnb].
Qed.

Lemma cleanStatus_idem x : cleanStatus (cleanStatus x) = cleanStatus x.
Proof.
  unfold cleanStatus at 2 3. apply guard_cases; [reflexivity|]. cbv zeta.
  destruct (find _ VALID_STATUSES) as [v|] eqn:F.
  - apply find_some in F as [Hin _].
    repeat (destruct Hin as [<-|Hin]; [reflexivity|]). destruct Hin.
  - unfold cleanStatus. apply falsy_guard. intros _. cbv zeta.
    rewrite trim_idem, F. reflexivity.
Qed.

Lemma filter_idem {A} (f : A -> bool) l : filter f (filter f l) = filter f l.
Proof.
  induction l as [|a l IH]; simpl; [reflexivity|].
  destruct (f a) eqn:E; simpl; [now rewrite E, IH|assumption].
Qed.

Lemma cleanTags_pieces x :
  cleanTags x =
  if negb (truthy x) then []
  else join ["|"%char] (filter keepTag (map trim (splitOn isTagSeparator x))).
Proof. reflexivity. Qed.

Lemma cleanTags_idem x : cleanTags (cleanTags x) = cleanTags x.
Proof.
  rewrite (cleanTags_pieces x). apply guard_cases; [reflexivity|].
  set (ps := filter keepTag (map trim (splitOn isTagSeparator x))).
  assert (Hps : forall w, In w ps ->
            trim w = w /\ forall c, In c w -> isTagSeparator c = false).
  { intros w Hw. apply filter_In in Hw as [Hw _].
    apply in_map_iff in Hw as (w0 & <- & Hw0). split; [apply trim_idem|].
    intros c Hc. apply trim_incl in Hc.
    now destruct (splitOn_chars _ _ _ _ Hw0 Hc). }
  rewrite cleanTags_pieces. apply falsy_guard. intros T.
  assert (Hne : ps <> []) by (intros C; rewrite C in T; discriminate).
  rewrite splitOn_join;
    [|reflexivity|exact Hne|intros w c Hw Hc; now apply (proj2 (Hps w Hw))].
  rewrite (map_ext_in trim (fun w => w) ps) by (intros w Hw; apply Hps, Hw).
  rewrite map_id. unfold ps at 1. now rewrite filter_idem.
Qed.

Lemma lookup_In tbl k v : lookup tbl k = Some v -> In (k, v) tbl.
Proof.
  induction tbl as [|[k' v'] tbl IH]; simpl; [discriminate|].
  destruct (eqs k' k) eqn:E.
  - intros [= <-]. apply eqs_eq in E as ->. now left.
  - auto.
Qed.

(** Every zone label that [cleanTimeZone] can produce from the tables is
    returned unchanged when cleaned again. *)
Lemma zone_labels_fixed :
  forallb (fun v => eqs (cleanTimeZone v) v)
          (VALID_TIME_ZONES ++ map snd TIMEZONE_ALIASES) = true.
Proof. vm_compute. reflexivity. Qed.

Lemma zone_label_fixed v :
  In v (VALID_TIME_ZONES ++ map snd TIMEZONE_ALIASES) -> cleanTimeZone v = v.
Proof.
  intros H. apply eqs_eq.
  exact (proj1 (forallb_forall _ _) zone_labels_fixed v H).
Qed.

Lemma cleanTimeZone_idem x : cleanTimeZone (cleanTimeZone x) = cleanTimeZone x.
Proof.
  unfold cleanTimeZone at 2 3. apply guard_cases; [reflexivity|]. cbv zeta.
  destruct (matchValidTimeZone _) as [v|] eqn:F1.
  { apply zone_label_fixed, in_or_app. left.
    unfold matchValidTimeZone in F1. now apply find_some in F1. }
  destruct (lookup TIMEZONE_ALIASES _) as [v|] eqn:F2.
  { apply zone_label_fixed, in_or_app. right.
    apply lookup_In in F2. now apply (in_map snd) in F2. }
  destruct (matchAliasPartial _) as [[a v]|] eqn:F3.
  { apply zone_label_fixed, in_or_app. right.
    unfold matchAliasPartial in F3. apply find_some in F3 as [F3 _].
    now apply (in_map snd) in F3. }
  unfold cleanTimeZone. apply falsy_guard. intros _. cbv zeta.
  rewrite trim_idem, F1, F2, F3. reflexivity.
Qed.

(** ** Birthday parsing *)

Lemma takeWhile_all p s : forallb p (takeWhile p s) = true.
Proof.
  induction s as [|c s IH]; simpl; [reflexivity|].
  destruct (p c) eqn:E; simpl; [now rewrite E|reflexivity].
Qed.

Lemma takeWhile_stop p g c rest :
  forallb p g = true -> p c = false -> takeWhile p (g ++ c :: rest) = g.
Proof.
  intros Hg Hc. induction g as [|d g IH]; simpl in *; [now rewrite Hc|].
  apply andb_true_iff in Hg as [Hd Hg]. now rewrite Hd, IH.
Qed.

Lemma dropWhile_stop p g c rest :
  forallb p g = true -> p c = false -> dropWhile p (g ++ c :: rest) = c :: rest.
Proof.
  intros Hg Hc. induction g as [|d g IH]; simpl in *; [now rewrite Hc|].
  apply andb_true_iff in Hg as [Hd Hg]. now rewrite Hd, IH.
Qed.

Lemma takeWhile_end p g : forallb p g = true -> takeWhile p g = g.
Proof.
  induction g as [|d g IH]; simpl; [reflexivity|]. intros Hg.
  apply andb_true_iff in Hg as [Hd Hg]. now rewrite Hd, IH.
Qed.

Lemma dropWhile_end p g : forallb p g = true -> dropWhile p g = [].
Proof.
  induction g as [|d g IH]; simpl; [reflexivity|]. intros Hg.
  apply andb_true_iff in Hg as [Hd Hg]. now rewrite Hd, IH.
Qed.

Lemma run_inv p lo hi s g rest :
  run p lo hi s = Some (g, rest) ->
  forallb p g = true /\ lo <= List.length g <= hi.
Proof.
  unfold run. destruct (_ && _) eqn:E; [|discriminate].
  intros [= <- <-]. apply andb_true_iff in E as [E1 E2].
  apply Nat.leb_le in E1, E2. split; [apply takeWhile_all|lia].
Qed.

Lemma run_stop p lo hi g c rest :
  forallb p g = true -> p c = false ->
  run p lo hi (g ++ c :: rest) =
  if Nat.leb lo (List.length g) && Nat.leb (List.length g) hi
  then Some (g, c :: rest) else None.
Proof.
  intros Hg Hc. unfold run.
  now rewrite takeWhile_stop, dropWhile_stop.
Qed.

Lemma run_end p lo hi g :
  forallb p g = true ->
  run p lo hi g =
  if Nat.leb lo (List.length g) && Nat.leb (List.length g) hi
  then Some (g, []) else None.
Proof.
  intros Hg. unfold run. now rewrite takeWhile_end, dropWhile_end.
Qed.

Lemma padStart2_digits g :
  forallb isDigit g = true -> 1 <= List.length g <= 2 -> digits 2 (padStart2 g).
Proof.
  intros Hg Hl. destruct g as [|a [|b [|c g]]]; simpl in *; try lia.
  - split; [reflexivity|]. simpl. apply andb_true_iff in Hg as [-> _]. reflexivity.
  - split; [reflexivity|exact Hg].
Qed.

Lemma padStart2_two g : List.length g = 2 -> padStart2 g = g.
Proof. destruct g as [|a [|b [|c g]]]; simpl; intros; try lia; reflexivity. Qed.

Lemma isoMatch_inv s g1 g2 g3 :
  isoMatch s = Some (g1, g2, g3) ->
  digits 4 g1 /\
  (forallb isDigit g2 = true /\ 1 <= List.length g2 <= 2) /\
  (forallb isDigit g3 = true /\ 1 <= List.length g3 <= 2).
Proof.
  unfold isoMatch.
  destruct (run isDigit 4 4 s) as [[a s1]|] eqn:R1; [|discriminate].
  destruct (one isDateSep s1) as [s2|]; [|discriminate].
  destruct (run isDigit 1 2 s2) as [[b s3]|] eqn:R2; [|discriminate].
  destruct (one isDateSep s3) as [s4|]; [|discriminate].
  destruct (run isDigit 1 2 s4) as [[c [|]]|] eqn:R3; try discriminate.
  intros [= <- <- <-].
  apply run_inv in R1, R2, R3. unfold digits. intuition lia.
Qed.

Lemma slashMatch_inv s g1 g2 g3 :
  slashMatch s = Some (g1, g2, g3) ->
  (forallb isDigit g1 = true /\ 1 <= List.length g1 <= 2) /\
  (forallb isDigit g2 = true /\ 1 <= List.length g2 <= 2) /\
  digits 4 g3.
Proof.
  unfold slashMatch.
  destruct (run isDigit 1 2 s) as [[a s1]|] eqn:R1; [|discriminate].
  destruct (one isDateSep s1) as [s2|]; [|discriminate].
  destruct (run isDigit 1 2 s2) as [[b s3]|] eqn:R2; [|discriminate].
  destruct (one isDateSep s3) as [s4|]; [|discriminate].
  destruct (run isDigit 4 4 s4) as [[c [|]]|] eqn:R3; try discriminate.
  intros [= <- <- <-].
  apply run_inv in R1, R2, R3. unfold digits. intuition lia.
Qed.

Lemma yearTail_inv s g : yearTail s = Some g -> digits 4 g.
Proof.
  unfold yearTail.
  destruct (run1 isSpace (optComma s)) as [[w s1]|]; [|discriminate].
  destruct (run isDigit 4 4 s1) as [[c [|]]|] eqn:R; try discriminate.
  intros [= <-]. apply run_inv in R. unfold digits. intuition lia.
Qed.

Lemma textMatch1_inv s g1 g2 g3 :
  textMatch1 s = Some (g1, g2, g3) ->
  (forallb isDigit g2 = true /\ 1 <= List.length g2 <= 2) /\ digits 4 g3.
Proof.
  unfold textMatch1.
  destruct (run1 isAlpha s) as [[a s1]|]; [|discriminate].
  destruct (run1 isSpace s1) as [[w s2]|]; [|discriminate].
  destruct (run isDigit 1 2 s2) as [[b s3]|] eqn:R; [|discriminate].
  destruct (yearTail s3) as [y|] eqn:Y; [|discriminate].
  intros [= <- <- <-]. apply run_inv in R. apply yearTail_inv in Y. auto.
Qed.

Lemma textMatch2_inv s g1 g2 g3 :
  textMatch2 s = Some (g1, g2, g3) ->
  (forallb isDigit g1 = true /\ 1 <= List.length g1 <= 2) /\ digits 4 g3.
Proof.
  unfold textMatch2.
  destruct (run isDigit 1 2 s) as [[b s1]|] eqn:R; [|discriminate].
  destruct (run1 isSpace s1) as [[w s2]|]; [|discriminate].
  destruct (run1 isAlpha s2) as [[a s3]|]; [|discriminate].
  destruct (yearTail s3) as [y|] eqn:Y; [|discriminate].
  intros [= <- <- <-]. apply run_inv in R. apply yearTail_inv in Y. auto.
Qed.

Lemma month_names_two_digits :
  forallb (fun kv => Nat.eqb (List.length (snd kv)) 2 && forallb isDigit (snd kv))
          MONTH_NAMES = true.
Proof. vm_compute. reflexivity. Qed.

Lemma month_name_digits k m : lookup MONTH_NAMES k = Some m -> digits 2 m.
Proof.
  intros H. apply lookup_In in H.
  pose proof (proj1 (forallb_forall _ _) month_names_two_digits _ H) as E.
  simpl in E. apply andb_true_iff in E as [E1 E2].
  apply Nat.eqb_eq in E1. split; assumption.
Qed.

Lemma parseTextual_wf s c : parseTextual s = Some c -> wellFormed c.
Proof.
  unfold parseTextual.
  assert (H2 : forall c,
    match textMatch2 s with
    | Some (d, monthText, y) =>
        match lookup MONTH_NAMES (toLowerCase monthText) with
        | Some m => Some {| month := m; day := padStart2 d; year := y |}
        | None => None
        end
    | None => None
    end = Some c -> wellFormed c).
  { clear c. intros c.
    destruct (textMatch2 s) as [[[d mt] y]|] eqn:T; [|discriminate].
    destruct (lookup MONTH_NAMES _) as [m|] eqn:L; [|discriminate].
    intros [= <-]. apply textMatch2_inv in T as [[Hd Hl] Hy].
    apply month_name_digits in L.
    repeat split; simpl; try apply L; try apply Hy;
      now apply padStart2_digits. }
  destruct (textMatch1 s) as [[[mt d] y]|] eqn:T; [|apply H2].
  destruct (lookup MONTH_NAMES (toLowerCase mt)) as [m|] eqn:L; [|apply H2].
  intros [= <-]. apply textMatch1_inv in T as [[Hd Hl] Hy].
  apply month_name_digits in L.
  repeat split; simpl; try apply L; try apply Hy; now apply padStart2_digits.
Qed.

Lemma parseBirthday_wf x c : parseBirthday x = Some c -> wellFormed c.
Proof.
  unfold parseBirthday. destruct (negb (truthy x)); [discriminate|]. cbv zeta.
  destruct (isoMatch (trim x)) as [[[y m] d]|] eqn:I.
  { intros [= <-]. apply isoMatch_inv in I as (Hy & [Hm Hml] & [Hd Hdl]).
    repeat split; simpl; try apply Hy; now apply padStart2_digits. }
  destruct (slashMatch (trim x)) as [[[a b] y]|] eqn:S; [|apply parseTextual_wf].
  apply slashMatch_inv in S as ([Ha Hal] & [Hb Hbl] & Hy).
  pose proof (padStart2_digits _ Ha Hal). pose proof (padStart2_digits _ Hb Hbl).
  destruct (_ && _); [|destruct (_ && _)]; intros [= <-];
    repeat split; simpl; try apply Hy; try apply H; try apply H0.
Qed.

(** *** Parsing a rendered date again *)

Lemma run_stop_ok p lo hi g c rest :
  forallb p g = true -> p c = false -> lo <= List.length g <= hi ->
  run p lo hi (g ++ c :: rest) = Some (g, c :: rest).
Proof.
  intros Hg Hc [L1 L2]. rewrite run_stop by assumption.
  apply Nat.leb_le in L1, L2. now rewrite L1, L2.
Qed.

Lemma run_stop_short p lo hi g c rest :
  forallb p g = true -> p c = false -> List.length g < lo ->
  run p lo hi (g ++ c :: rest) = None.
Proof.
  intros Hg Hc L. rewrite run_stop by assumption.
  apply Nat.leb_gt in L. now rewrite L.
Qed.

Lemma run_end_ok p lo hi g :
  forallb p g = true -> lo <= List.length g <= hi ->
  run p lo hi g = Some (g, []).
Proof.
  intros Hg [L1 L2]. rewrite run_end by assumption.
  apply Nat.leb_le in L1, L2. now rewrite L1, L2.
Qed.

Lemma headOk_digits g rest :
  forallb isDigit g = true -> 1 <= List.length g -> headOk (g ++ rest) = true.
Proof.
  destruct g as [|c g]; simpl; [lia|]. intros H _.
  apply andb_true_iff in H as [H _]. now rewrite (digit_not_space _ H).
Qed.

Lemma forallb_rev {A} (p : A -> bool) l :
  forallb p l = true -> forallb p (rev l) = true.
Proof.
  intros H. apply forallb_forall. intros x Hx. apply in_rev in Hx.
  exact (proj1 (forallb_forall _ _) H x Hx).
Qed.

Lemma trim_digit_ends g mid h :
  forallb isDigit g = true -> 1 <= List.length g ->
  forallb isDigit h = true -> 1 <= List.length h ->
  trim (g ++ mid ++ h) = g ++ mid ++ h.
Proof.
  intros Hg Lg Hh Lh. apply trim_fix.
  - now apply headOk_digits.
  - rewrite !rev_app_distr, <- app_assoc. apply headOk_digits.
    + now apply forallb_rev.
    + now rewrite length_rev.
Qed.

Section Rendered.

Variables (a b y : jsstring) (s1 s2 : ascii).
Hypothesis Ha : forallb isDigit a = true.
Hypothesis La : 1 <= List.length a <= 2.
Hypothesis Hb : forallb isDigit b = true.
Hypothesis Lb : 1 <= List.length b <= 2.
Hypothesis Hy : digits 4 y.
Hypothesis Hs1 : isDateSep s1 = true.
Hypothesis Hs2 : isDateSep s2 = true.

Lemma numeric_truthy : truthy (a ++ s1 :: b ++ s2 :: y) = true.
Proof. destruct a; simpl in *; [lia|reflexivity]. Qed.

Lemma numeric_trim : trim (a ++ s1 :: b ++ s2 :: y) = a ++ s1 :: b ++ s2 :: y.
Proof.
  destruct Hy as [Ly Dy].
  replace (a ++ s1 :: b ++ s2 :: y) with (a ++ (s1 :: b ++ [s2]) ++ y)
    by (simpl; now rewrite <- app_assoc).
  apply trim_digit_ends; auto; lia.
Qed.

Lemma numeric_not_iso : isoMatch (a ++ s1 :: b ++ s2 :: y) = None.
Proof.
  unfold isoMatch. rewrite run_stop_short; auto; [now apply sep_not_digit|lia].
Qed.

Lemma numeric_slash : slashMatch (a ++ s1 :: b ++ s2 :: y) = Some (a, b, y).
Proof.
  destruct Hy as [Ly Dy]. unfold slashMatch.
  rewrite run_stop_ok by (auto using sep_not_digit). simpl one. rewrite Hs1.
  rewrite run_stop_ok by (auto using sep_not_digit). simpl one. rewrite Hs2.
  rewrite run_end_ok by (auto; lia). reflexivity.
Qed.

(** A year, a month and a day: the ISO-like pattern. *)
Lemma iso_truthy : truthy (y ++ s1 :: a ++ s2 :: b) = true.
Proof. destruct Hy as [Ly _]. destruct y; simpl in *; [lia|reflexivity]. Qed.

Lemma iso_trim : trim (y ++ s1 :: a ++ s2 :: b) = y ++ s1 :: a ++ s2 :: b.
Proof.
  destruct Hy as [Ly Dy].
  replace (y ++ s1 :: a ++ s2 :: b) with (y ++ (s1 :: a ++ [s2]) ++ b)
    by (simpl; now rewrite <- app_assoc).
  apply trim_digit_ends; auto; lia.
Qed.

Lemma iso_form : isoMatch (y ++ s1 :: a ++ s2 :: b) = Some (y, a, b).
Proof.
  destruct Hy as [Ly Dy]. unfold isoMatch.
  rewrite run_stop_ok by (auto using sep_not_digit; lia). simpl one. rewrite Hs1.
  rewrite run_stop_ok by (auto using sep_not_digit). simpl one. rewrite Hs2.
  rewrite run_end_ok by auto. reflexivity.
Qed.

End Rendered.

Lemma parse_numeric a b y s1 s2 :
  forallb isDigit a = true -> 1 <= List.length a <= 2 ->
  forallb isDigit b = true -> 1 <= List.length b <= 2 ->
  digits 4 y -> isDateSep s1 = true -> isDateSep s2 = true ->
  parseBirthday (a ++ s1 :: b ++ s2 :: y) = Some (slashDecision a b y).
Proof.
  intros Ha La Hb Lb Hy Hs1 Hs2. unfold parseBirthday.
  rewrite numeric_truthy by assumption. cbv zeta. simpl negb. cbv iota.
  rewrite numeric_trim, numeric_not_iso, numeric_slash by assumption.
  unfold slashDecision.
  destruct (Nat.ltb 12 (parseInt a) && Nat.leb (parseInt b) 12);
    [reflexivity|].
  destruct (_ && _); reflexivity.
Qed.

Lemma parse_iso y m d s1 s2 :
  digits 4 y ->
  forallb isDigit m = true -> 1 <= List.length m <= 2 ->
  forallb isDigit d = true -> 1 <= List.length d <= 2 ->
  isDateSep s1 = true -> isDateSep s2 = true ->
  parseBirthday (y ++ s1 :: m ++ s2 :: d)
  = Some {| month := padStart2 m; day := padStart2 d; year := y |}.
Proof.
  intros Hy Hm Lm Hd Ld Hs1 Hs2. unfold parseBirthday.
  rewrite iso_truthy by assumption. cbv zeta. simpl negb. cbv iota.
  rewrite iso_trim, iso_form by assumption. reflexivity.
Qed.

Lemma reparse_MM c :
  wellFormed c ->
  parseBirthday (formatBirthdayToTarget c MM_DD_YYYY)
  = Some (if Nat.ltb 12 (parseInt (month c)) && Nat.leb (parseInt (day c)) 12
          then swapped c else c).
Proof.
  intros ([Lm Hm] & [Ld Hd] & Hy). destruct c as [m d y]; simpl in *.
  rewrite parse_numeric by (auto; lia). unfold slashDecision.
  rewrite !padStart2_two by assumption. reflexivity.
Qed.

Lemma reparse_DD c :
  wellFormed c ->
  parseBirthday (formatBirthdayToTarget c DD_MM_YYYY)
  = Some (if Nat.ltb 12 (parseInt (day c)) && Nat.leb (parseInt (month c)) 12
          then c else swapped c).
Proof.
  intros ([Lm Hm] & [Ld Hd] & Hy). destruct c as [m d y]; simpl in *.
  rewrite parse_numeric by (auto; lia). unfold slashDecision.
  rewrite !padStart2_two by assumption. reflexivity.
Qed.

Lemma reparse_YYYY c :
  wellFormed c ->
  parseBirthday (formatBirthdayToTarget c YYYY_MM_DD) = Some c.
Proof.
  intros ([Lm Hm] & [Ld Hd] & Hy). destruct c as [m d y]; simpl in *.
  rewrite parse_iso by (auto; lia).
  rewrite !padStart2_two by assumption. reflexivity.
Qed.

Lemma rerender_stable format c :
  wellFormed c -> stableUnder format c ->
  exists c', parseBirthday (formatBirthdayToTarget c format) = Some c' /\
             formatBirthdayToTarget c' format = formatBirthdayToTarget c format.
Proof.
  intros W S. destruct format; simpl in S.
  - rewrite reparse_MM by assumption.
    destruct (Nat.ltb 12 _ && Nat.leb _ 12) eqn:E.
    + apply andb_true_iff in E as [E1 E2].
      apply Nat.ltb_lt in E1. apply Nat.leb_le in E2. tauto.
    + eauto.
  - rewrite reparse_DD by assumption.
    destruct (Nat.ltb 12 _ && Nat.leb _ 12) eqn:E; [eauto|].
    destruct S as [[S1 S2]|S].
    + apply Nat.ltb_lt in S1. apply Nat.leb_le in S2.
      rewrite S1, S2 in E. discriminate.
    + exists (swapped c). split; [reflexivity|].
      destruct c as [m d y]; simpl in *. now subst.
  - rewrite reparse_YYYY by assumption. eauto.
Qed.

Lemma format_truthy c format :
  wellFormed c -> truthy (formatBirthdayToTarget c format) = true.
Proof.
  intros ([Lm _] & [Ld _] & [Ly _]). destruct c as [m d y]; simpl in *.
  destruct format; simpl;
    [destruct m|destruct d|destruct y]; simpl in *; try lia; reflexivity.
Qed.

Lemma parseBirthday_trim x : parseBirthday (trim x) = parseBirthday x \/ trim x = [].
Proof.
  destruct (trim x) as [|c t] eqn:E; [now right|left].
  unfold parseBirthday. rewrite <- E, trim_idem.
  destruct x as [|d x]; [discriminate|]. rewrite E. reflexivity.
Qed.

Lemma cleanBirthday_idem_when x :
  (forall c, parseBirthday x = Some c -> stableUnder MM_DD_YYYY c) ->
  cleanBirthday (cleanBirthday x) = cleanBirthday x.
Proof.
  intros H. unfold cleanBirthday at 2 3.
  destruct (parseBirthday x) as [c|] eqn:P.
  - pose proof (parseBirthday_wf _ _ P) as W.
    destruct (@rerender_stable MM_DD_YYYY c W (H c eq_refl))
      as (c' & P' & F').
    unfold cleanBirthday. now rewrite P'.
  - unfold cleanBirthday.
    destruct (parseBirthday_trim x) as [E|E].
    + rewrite E, P. apply trim_idem.
    + rewrite E. reflexivity.
Qed.

(** ** Rows *)

Lemma get_set_same row k v : get (set row k v) k = Some v.
Proof.
  unfold get. induction row as [|[k' v'] row IH]; simpl.
  - now rewrite eqs_refl.
  - destruct (eqs k' k) eqn:E; simpl; now rewrite E.
Qed.

Lemma set_set row k v v' : set (set row k v) k v' = set row k v'.
Proof.
  induction row as [|[k' w] row IH]; simpl.
  - now rewrite eqs_refl.
  - destruct (eqs k' k) eqn:E; simpl; rewrite E; [reflexivity|now rewrite IH].
Qed.

Lemma digitVal_le c : isDigit c = true -> Nat.leb (digitVal c) 9 = true.
Proof. all_chars c. Qed.

Lemma parseInt_two a :
  forallb isDigit a = true -> 1 <= List.length a <= 2 -> 12 < parseInt a ->
  List.length a = 2.
Proof.
  intros Ha La Hn. destruct a as [|c [|d a]]; simpl in *; try lia.
  apply andb_true_iff in Ha as [Hc _]. apply digitVal_le, Nat.leb_le in Hc.
  unfold parseInt in Hn. simpl in Hn. lia.
Qed.

Lemma find_first {A} (f : A -> bool) pre x post :
  (forall y, In y pre -> f y = false) -> f x = true ->
  find f (pre ++ x :: post) = Some x.
Proof.
  intros Hpre Hx. induction pre as [|y pre IH]; simpl.
  - now rewrite Hx.
  - rewrite (Hpre y (or_introl eq_refl)). apply IH.
    intros; apply Hpre; now right.
Qed.

Lemma find_none_iff {A} (f : A -> bool) l :
  (forall y, In y l -> f y = false) -> find f l = None.
Proof.
  induction l as [|y l IH]; simpl; [reflexivity|]. intros H.
  rewrite (H y (or_introl eq_refl)). apply IH. intros; apply H; now right.
Qed.

Lemma lookup_none tbl k :
  (forall a v, In (a, v) tbl -> a <> k) -> lookup tbl k = None.
Proof.
  induction tbl as [|[a v] tbl IH]; simpl; [reflexivity|]. intros H.
  rewrite (proj2 (eqs_neq a k)) by (eapply H; now left).
  apply IH. intros; eapply H; right; eassumption.
Qed.

(** No two canonical zone labels agree up to case, and no alias key is
    listed twice: a label or an alias is found under its own name. *)
Lemma valid_zones_distinct :
  forallb (fun v => match matchValidTimeZone (toLowerCase v) with
                    | Some v' => eqs v' v
                    | None => false
                    end) VALID_TIME_ZONES = true.
Proof. vm_compute. reflexivity. Qed.

Lemma alias_keys_distinct :
  forallb (fun kv => match lookup TIMEZONE_ALIASES (fst kv) with
                     | Some v' => eqs v' (snd kv)
                     | None => false
                     end) TIMEZONE_ALIASES = true.
Proof. vm_compute. reflexivity. Qed.

Lemma matchValid_own v :
  In v VALID_TIME_ZONES -> matchValidTimeZone (toLowerCase v) = Some v.
Proof.
  intros H. pose proof (proj1 (forallb_forall _ _) valid_zones_distinct v H) as E.
  cbv beta in E. destruct (matchValidTimeZone (toLowerCase v)); [|discriminate].
  apply eqs_eq in E. now subst.
Qed.

Lemma lookup_alias_own a v :
  In (a, v) TIMEZONE_ALIASES -> lookup TIMEZONE_ALIASES a = Some v.
Proof.
  intros H. pose proof (proj1 (forallb_forall _ _) alias_keys_distinct _ H) as E.
  cbv beta in E. unfold fst, snd in E.
  destruct (lookup TIMEZONE_ALIASES a); [|discriminate].
  apply eqs_eq in E. now subst.
Qed.

Lemma cleanTimeZone_unfold x :
  x <> [] ->
  cleanTimeZone x =
  match matchValidTimeZone (toLowerCase (trim x)) with
  | Some validTz => validTz
  | None =>
      match lookup TIMEZONE_ALIASES (toLowerCase (trim x)) with
      | Some validTz => validTz
      | None =>
          match matchAliasPartial (toLowerCase (trim x)) with
          | Some (_, validTz) => validTz
          | None => trim x
          end
      end
  end.
Proof. destruct x; [congruence|reflexivity]. Qed.

(** ** Inherited names *)

(** A lower-case string that is the name of a member of [Object.prototype]
    is "constructor" or "__proto__": the other names hold a capital. *)
Lemma inheritedName_lower s :
  inheritedName (toLowerCase s) = true <->
  toLowerCase s = str "constructor" \/ toLowerCase s = str "__proto__".
Proof.
  split.
  - intros H. apply existsb_exists in H as (n & Hin & E).
    apply eqs_eq in E.
    assert (L : toLowerCase n = n) by (rewrite E; apply toLowerCase_idem).
    simpl in Hin.
    repeat (destruct Hin as [Hn|Hin];
            [subst n; try (vm_compute in L; discriminate L); auto|]).
    destruct Hin.
  - intros [-> | ->]; reflexivity.
Qed.

(** The time zones that are left out are those that read "constructor" or
    "__proto__" once trimmed and put in lower case. *)
Lemma plainTimeZone_spec x :
  plainTimeZone x = false <->
  toLowerCase (trim x) = str "constructor" \/
  toLowerCase (trim x) = str "__proto__".
Proof.
  unfold plainTimeZone. rewrite negb_false_iff. apply inheritedName_lower.
Qed.

Lemma plainTimeZone_trim x : plainTimeZone (trim x) = plainTimeZone x.
Proof. unfold plainTimeZone. now rewrite trim_idem. Qed.

Lemma labels_plain :
  forallb plainTimeZone VALID_TIME_ZONES = true /\
  forallb (fun kv => plainTimeZone (snd kv)) TIMEZONE_ALIASES = true.
Proof. split; vm_compute; reflexivity. Qed.

(** A cleaned plain time zone is plain: a second cleaning stays within
    the inputs on which [cleanTimeZone] is the code. *)
Lemma plainTimeZone_cleaned x :
  plainTimeZone x = true -> plainTimeZone (cleanTimeZone x) = true.
Proof.
  intros P. destruct x as [|c x]; [reflexivity|].
  rewrite cleanTimeZone_unfold by discriminate.
  destruct (matchValidTimeZone _) as [v|] eqn:F1.
  { apply find_some in F1 as [H _].
    exact (proj1 (forallb_forall _ _) (proj1 labels_plain) v H). }
  destruct (lookup TIMEZONE_ALIASES _) as [v|] eqn:F2.
  { apply lookup_In in F2.
    exact (proj1 (forallb_forall _ _) (proj2 labels_plain) _ F2). }
  destruct (matchAliasPartial _) as [[a v]|] eqn:F3.
  { apply find_some in F3 as [H _].
    exact (proj1 (forallb_forall _ _) (proj2 labels_plain) _ H). }
  now rewrite plainTimeZone_trim.
Qed.

Lemma digit_not_alpha c : isDigit c = true -> isAlpha c = false.
Proof. all_chars c. Qed.

(** A rendered date holds no month word. *)
Lemma rendered_no_month c :
  wellFormed c -> monthWords (formatBirthdayToTarget c MM_DD_YYYY) = [].
Proof.
  intros ([Lm Hm] & _). destruct c as [m d y]; simpl in *.
  destruct m as [|m1 [|m2 [|]]]; simpl in Lm; try lia.
  simpl in Hm. apply andb_true_iff in Hm as [H1 H2].
  apply andb_true_iff in H2 as [H2 _].
  unfold monthWords, textMatch1, textMatch2, run1, run.
  cbn [app takeWhile dropWhile].
  rewrite (digit_not_alpha _ H1), H1, H2.
  cbn [takeWhile dropWhile]. reflexivity.
Qed.

Lemma rendered_trimmed c :
  wellFormed c ->
  trim (formatBirthdayToTarget c MM_DD_YYYY) = formatBirthdayToTarget c MM_DD_YYYY.
Proof.
  intros ([Lm Hm] & [Ld Hd] & [Ly Hy]). destruct c as [m d y]; simpl in *.
  replace (m ++ "/"%char :: d ++ "/"%char :: y)
    with (m ++ ("/"%char :: d ++ ["/"%char]) ++ y)
    by (simpl; now rewrite <- app_assoc).
  apply trim_digit_ends; auto; lia.
Qed.

(** A cleaned plain birthday is plain. *)
Lemma plainBirthday_cleaned x :
  plainBirthday x = true -> plainBirthday (cleanBirthday x) = true.
Proof.
  intros P. unfold cleanBirthday.
  destruct (parseBirthday x) as [c|] eqn:E.
  - apply parseBirthday_wf in E. unfold plainBirthday.
    now rewrite rendered_trimmed, rendered_no_month.
  - unfold plainBirthday. rewrite trim_idem. exact P.
Qed.

(* ================================================================== *)
(** * The claims *)
(* ================================================================== *)

(** ** C1 *)

(** C1, as stated, fails for the birthday cleaner: an ISO-like date whose
    month field exceeds 12 and whose day field does not is rendered as
    [15/01/1990], which the next cleaning reads as day 15 of month 01 and
    renders as [01/15/1990]. *)
Lemma cleanBirthday_not_idempotent :
  cleanBirthday (str "1990-15-01") = str "15/01/1990" /\
  cleanBirthday (cleanBirthday (str "1990-15-01")) = str "01/15/1990" /\
  cleanBirthday (cleanBirthday (str "1990-15-01"))
    <> cleanBirthday (str "1990-15-01").
Proof. repeat split. vm_compute. discriminate. Qed.

(** C1 (amended): on a string of ASCII characters the email, phone,
    proper-case, status and tags cleaners are idempotent.  So is the
    time-zone cleaner, on every such string but those that read
    "constructor" or "__proto__" once trimmed and put in lower case (for
    these the code returns a member inherited from [Object.prototype],
    and the empty string on a second pass); its result is again a string
    it is idempotent on.  The birthday cleaner, on every such string
    whose month word is not an inherited name, is idempotent when the
    string does not parse to a month above 12 together with a day of at
    most 12, and on the strings that do it is not. *)
Theorem cleaners_idempotent (x : jsstring) :
  asciiOnly x = true ->
  cleanEmail (cleanEmail x) = cleanEmail x /\
  cleanPhone (cleanPhone x) = cleanPhone x /\
  toProperCase (toProperCase x) = toProperCase x /\
  cleanStatus (cleanStatus x) = cleanStatus x /\
  cleanTags (cleanTags x) = cleanTags x /\
  (plainTimeZone x = true ->
   plainTimeZone (cleanTimeZone x) = true /\
   cleanTimeZone (cleanTimeZone x) = cleanTimeZone x) /\
  (plainBirthday x = true ->
   plainBirthday (cleanBirthday x) = true /\
   ((forall c, parseBirthday x = Some c ->
               ~ (12 < parseInt (month c) /\ parseInt (day c) <= 12)) ->
    cleanBirthday (cleanBirthday x) = cleanBirthday x) /\
   (forall c, parseBirthday x = Some c ->
              12 < parseInt (month c) /\ parseInt (day c) <= 12 ->
              cleanBirthday (cleanBirthday x) <> cleanBirthday x)).
Proof.
  intros _. split; [|split; [|split; [|split; [|split; [|split]]]]].
  - apply cleanEmail_idem.
  - apply cleanPhone_idem.
  - apply toProperCase_idem.
  - apply cleanStatus_idem.
  - apply cleanTags_idem.
  - intros P. split; [now apply plainTimeZone_cleaned|apply cleanTimeZone_idem].
  - intros B. split; [now apply plainBirthday_cleaned|]. split.
    + intros H. apply cleanBirthday_idem_when. exact H.
    + intros c P [H1 H2]. pose proof (parseBirthday_wf _ _ P) as W.
      unfold cleanBirthday at 2 3. rewrite P. unfold cleanBirthday.
      rewrite reparse_MM by assumption.
      apply Nat.ltb_lt in H1 as B1. apply Nat.leb_le in H2 as B2.
      rewrite B1, B2. simpl andb. cbv iota.
      destruct W as ([Lm _] & [Ld _] & _). destruct c as [m d y]; simpl in *.
      destruct m as [|m1 [|m2 [|]]]; simpl in Lm; try lia.
      destruct d as [|d1 [|d2 [|]]]; simpl in Ld; try lia.
      simpl. intros [= -> ->]. lia.
Qed.

Lemma cleaners_idempotent_witness :
  (asciiOnly (str " PST ") = true /\ plainTimeZone (str " PST ") = true /\
   cleanTimeZone (cleanTimeZone (str " PST ")) = cleanTimeZone (str " PST ")) /\
  (asciiOnly (str "15/01/1990") = true /\
   plainBirthday (str "15/01/1990") = true /\
   cleanBirthday (cleanBirthday (str "15/01/1990"))
   = cleanBirthday (str "15/01/1990")) /\
  (asciiOnly (str "1990-15-01") = true /\
   plainBirthday (str "1990-15-01") = true /\
   cleanBirthday (cleanBirthday (str "1990-15-01"))
   <> cleanBirthday (str "1990-15-01")) /\
  (asciiOnly ["223"%char] = false /\
   existsb plainTimeZone inheritedTimeZones = false /\
   existsb plainBirthday inheritedBirthdays = false).
Proof.
  split; [|split; [|split; [|repeat split]]].
  - split; [reflexivity|]. split; [reflexivity|].
    apply (proj1 (proj2 (proj2 (proj2 (proj2 (proj2
             (cleaners_idempotent (str " PST ") eq_refl))))))).
    reflexivity.
  - split; [reflexivity|]. split; [reflexivity|].
    apply (proj2 (proj2 (proj2 (proj2 (proj2 (proj2
             (cleaners_idempotent (str "15/01/1990") eq_refl))))))
             eq_refl).
    intros c E. vm_compute in E. injection E as <-. vm_compute. lia.
  - split; [reflexivity|]. split; [reflexivity|].
    apply (proj2 (proj2 (proj2 (proj2 (proj2 (proj2 (proj2
             (cleaners_idempotent (str "1990-15-01") eq_refl))))))
             eq_refl))
      with (c := {| month := str "15"; day := str "01"; year := str "1990" |}).
    + reflexivity.
    + vm_compute. lia.
Defined.

(** Through [cleanCell] the empty-value rule runs before the field
    cleaner, so a cleaned value that happens to read "n/a" is cleared by the
    next pass: composing [cleanCell] with itself is not idempotent on the
    Email and Tags fields either. *)
Remark cleanCell_twice_differs :
  cleanCell (Some (str "n / a")) (Some (str "Email")) = (str "n/a", true) /\
  cleanCell (Some (str "n/a")) (Some (str "Email")) = ([], true) /\
  cleanCell (Some (str "null,")) (Some (str "Tags")) = (str "null", true) /\
  cleanCell (Some (str "null")) (Some (str "Tags")) = ([], true).
Proof. split; [|split; [|split]]; reflexivity. Qed.

(** ** C2 *)

(** C2, as stated, fails on its own example: "Central Park" matches no
    canonical label and no alias exactly, but it contains the alias
    "central", so the substring stage resolves it. *)
Lemma central_park_is_resolved :
  cleanTimeZone (str "Central Park") = str "Central Time (US & Canada)" /\
  cleanTimeZone (str "Central Park") <> str "Central Park".
Proof. split; vm_compute; [reflexivity|discriminate]. Qed.

(** C2 (amended): [cleanTimeZone] resolves a non-empty input, trimmed and
    lower-cased to [l], in this order: a canonical label equal to [l] up to
    case; else the alias whose key is [l]; else the first alias, in table
    order, whose key contains [l] or is contained in [l]; else the trimmed
    input.  This holds for every [l] but "constructor" and "__proto__",
    for which the alias stage of the code finds a member inherited from
    [Object.prototype] and returns it.  The empty input gives the empty
    string.  The order does not keep "Central Park" from resolving: no
    exact stage applies to it and the substring stage maps it to
    "Central Time (US & Canada)" through the alias "central". *)
Theorem cleanTimeZone_resolution_order :
  (forall x, x <> [] -> plainTimeZone x = true ->
     let l := toLowerCase (trim x) in
     (forall v, In v VALID_TIME_ZONES -> toLowerCase v = l ->
                cleanTimeZone x = v) /\
     ((forall v, In v VALID_TIME_ZONES -> toLowerCase v <> l) ->
      (forall a v, In (a, v) TIMEZONE_ALIASES -> a = l ->
                   cleanTimeZone x = v) /\
      ((forall a v, In (a, v) TIMEZONE_ALIASES -> a <> l) ->
       (forall pre a v post,
          TIMEZONE_ALIASES = pre ++ (a, v) :: post ->
          (forall a' v', In (a', v') pre ->
                         includes l a' = false /\ includes a' l = false) ->
          includes l a = true \/ includes a l = true ->
          cleanTimeZone x = v) /\
       ((forall a v, In (a, v) TIMEZONE_ALIASES ->
                     includes l a = false /\ includes a l = false) ->
        cleanTimeZone x = trim x)))) /\
  cleanTimeZone [] = [] /\
  matchValidTimeZone (str "central park") = None /\
  lookup TIMEZONE_ALIASES (str "central park") = None /\
  includes (str "central park") (str "central") = true /\
  cleanTimeZone (str "Central Park") = str "Central Time (US & Canada)".
Proof.
  split; [|repeat split].
  intros x Hx _ l. split.
  { intros v Hv E. rewrite cleanTimeZone_unfold by assumption. fold l.
    rewrite <- E, matchValid_own by assumption. reflexivity. }
  intros N1.
  assert (M1 : matchValidTimeZone l = None).
  { apply find_none_iff. intros v Hv. apply eqs_neq. now apply N1. }
  split.
  { intros a v Hin E. rewrite cleanTimeZone_unfold by assumption. fold l.
    rewrite M1, <- E, (lookup_alias_own _ _ Hin). reflexivity. }
  intros N2. pose proof (lookup_none _ _ N2) as M2. split.
  { intros pre a v post E Hpre Ha.
    rewrite cleanTimeZone_unfold by assumption. fold l. rewrite M1, M2.
    unfold matchAliasPartial. rewrite E, find_first; [reflexivity| |].
    - intros [a' v'] Hin. simpl. destruct (Hpre _ _ Hin) as [-> ->]. reflexivity.
    - simpl. destruct Ha as [-> | ->]; [reflexivity|apply orb_true_r]. }
  intros N3. rewrite cleanTimeZone_unfold by assumption. fold l.
  rewrite M1, M2. unfold matchAliasPartial. rewrite find_none_iff; [reflexivity|].
  intros [a v] Hin. simpl. destruct (N3 _ _ Hin) as [-> ->]. reflexivity.
Qed.

Lemma cleanTimeZone_resolution_order_witness :
  existsb plainTimeZone inheritedTimeZones = false /\
  forallb plainTimeZone [str "Pacific time (us & canada) "; str " PST";
                         str "Central Park"; str " Mars Standard Time "]
  = true /\
  cleanTimeZone (str "Pacific time (us & canada) ") = str "Pacific Time (US & Canada)" /\
  cleanTimeZone (str " PST") = str "Pacific Time (US & Canada)" /\
  cleanTimeZone (str "Central Park") = str "Central Time (US & Canada)" /\
  cleanTimeZone (str " Mars Standard Time ") = trim (str " Mars Standard Time ").
Proof.
  pose proof (proj1 cleanTimeZone_resolution_order) as R.
  assert (NV : forall l,
             forallb (fun v => negb (eqs (toLowerCase v) l)) VALID_TIME_ZONES = true ->
             forall v, In v VALID_TIME_ZONES -> toLowerCase v <> l).
  { intros l H v Hv. apply eqs_neq, negb_true_iff.
    exact (proj1 (forallb_forall _ _) H v Hv). }
  assert (NA : forall l,
             forallb (fun kv => negb (eqs (fst kv) l)) TIMEZONE_ALIASES = true ->
             forall a v, In (a, v) TIMEZONE_ALIASES -> a <> l).
  { intros l H a v Hin. apply eqs_neq, negb_true_iff.
    exact (proj1 (forallb_forall _ _) H _ Hin). }
  assert (NP : forall l (tbl : list (jsstring * jsstring)),
             forallb (fun kv => negb (includes l (fst kv))
                                && negb (includes (fst kv) l)) tbl = true ->
             forall a v, In (a, v) tbl ->
                         includes l a = false /\ includes a l = false).
  { intros l tbl H a v Hin.
    pose proof (proj1 (forallb_forall _ _) H _ Hin) as E. simpl in E.
    apply andb_true_iff in E as [E1 E2].
    now apply negb_true_iff in E1, E2. }
  split; [reflexivity|]. split; [reflexivity|]. split; [|split; [|split]].
  - apply (R (str "Pacific time (us & canada) "));
      [discriminate|reflexivity| |reflexivity].
    vm_compute. tauto.
  - refine (proj1 (proj2 (R (str " PST") _ eq_refl) _) (str "pst") _ _ _);
      [discriminate|apply NV; vm_compute; reflexivity| |reflexivity].
    vm_compute. tauto.
  - refine (proj1 (proj2 (proj2 (R (str "Central Park") _ eq_refl) _) _)
                  (firstn 12 TIMEZONE_ALIASES) (str "central") _
                  (skipn 13 TIMEZONE_ALIASES) _ _ _);
      [discriminate|apply NV; vm_compute; reflexivity
      |apply NA; vm_compute; reflexivity|reflexivity
      |apply NP; vm_compute; reflexivity|left; vm_compute; reflexivity].
  - refine (proj2 (proj2 (proj2 (R (str " Mars Standard Time ") _ eq_refl) _) _) _);
      [discriminate|apply NV; vm_compute; reflexivity
      |apply NA; vm_compute; reflexivity|apply NP; vm_compute; reflexivity].
Defined.

(** ** C4 *)

(** C4, as stated, fails: after the title and the generational suffix are
    removed three tokens remain, the middle one is not an initial, and the
    three-token rule gives the first token alone as the first name. *)
Lemma splitFullName_claimed_result_differs :
  splitFullName (str "Dr. John Michael Smith Jr.") <>
  {| firstName := str "John Michael"; lastName := str "Smith";
     removedPrefix := Some (str "Dr."); removedSuffix := Some (str "Jr.") |}
  /\ firstName (splitFullName (str "Dr. John Michael Smith Jr."))
     <> str "John Michael".
Proof. split; vm_compute; discriminate. Qed.

(** C4 (amended): [splitFullName "Dr. John Michael Smith Jr."] returns
    firstName "John", lastName "Michael Smith", removedPrefix "Dr." and
    removedSuffix "Jr.". *)
Theorem splitFullName_example :
  splitFullName (str "Dr. John Michael Smith Jr.") =
  {| firstName := str "John"; lastName := str "Michael Smith";
     removedPrefix := Some (str "Dr."); removedSuffix := Some (str "Jr.") |}.
Proof. vm_compute. reflexivity. Qed.

(** ** C3 *)

Lemma reformatBirthdays_rows rows format :
  reformatBirthdays rows format = map (reformatRow format) rows.
Proof. reflexivity. Qed.

Lemma reformatRow_idem format row :
  (forall b c, get row (str "Birthday") = Some b ->
               parseBirthday b = Some c -> stableUnder format c) ->
  reformatRow format (reformatRow format row) = reformatRow format row.
Proof.
  intros H. unfold reformatRow at 2 3.
  destruct (get row (str "Birthday")) as [b|] eqn:G.
  2: { unfold reformatRow. now rewrite G. }
  destruct (negb (truthy b)) eqn:T.
  { unfold reformatRow. now rewrite G, T. }
  destruct (parseBirthday b) as [c|] eqn:P.
  2: { unfold reformatRow. now rewrite G, T, P. }
  pose proof (parseBirthday_wf _ _ P) as W.
  destruct (@rerender_stable format c W (H b c eq_refl P)) as (c' & P' & F').
  unfold reformatRow. rewrite get_set_same, (format_truthy _ format W).
  simpl negb. cbv iota. rewrite P', F'. apply set_set.
Qed.

(** C3, as stated, fails: with the fixed target DD/MM/YYYY the row whose
    Birthday is "03/04/1990" parses (month 03, day 04) and is rendered
    "04/03/1990"; the second application parses that as month 04, day 03
    and renders "03/04/1990". *)
Lemma reformatBirthdays_not_idempotent :
  let rows := [[(str "Birthday", str "03/04/1990")]] in
  parseBirthday (str "03/04/1990")
    = Some {| month := str "03"; day := str "04"; year := str "1990" |} /\
  reformatBirthdays rows DD_MM_YYYY = [[(str "Birthday", str "04/03/1990")]] /\
  reformatBirthdays (reformatBirthdays rows DD_MM_YYYY) DD_MM_YYYY
    = [[(str "Birthday", str "03/04/1990")]] /\
  reformatBirthdays (reformatBirthdays rows DD_MM_YYYY) DD_MM_YYYY
    <> reformatBirthdays rows DD_MM_YYYY.
Proof. repeat split. vm_compute. discriminate. Qed.

(** C3 (amended): for a fixed target format, [reformatBirthdays] applied
    twice equals [reformatBirthdays] applied once whenever every Birthday
    that parses is stable under the format: always for YYYY/MM/DD; for
    MM/DD/YYYY unless the parsed month exceeds 12 while the day does not;
    for DD/MM/YYYY when the parsed day exceeds 12 and the month does not,
    or month and day are equal.  A row whose Birthday is missing, empty or
    fails to parse is passed through unchanged, at its position. *)
Theorem reformatBirthdays_idempotent_when_stable
  (rows : list Row) (format : BirthdayFormat) :
  ((forall row b c, In row rows -> get row (str "Birthday") = Some b ->
                    parseBirthday b = Some c ->
                    match format with
                    | YYYY_MM_DD => True
                    | MM_DD_YYYY =>
                        ~ (12 < parseInt (month c) /\ parseInt (day c) <= 12)
                    | DD_MM_YYYY =>
                        (12 < parseInt (day c) /\ parseInt (month c) <= 12)
                        \/ month c = day c
                    end) ->
   reformatBirthdays (reformatBirthdays rows format) format
   = reformatBirthdays rows format) /\
  (forall i row, nth_error rows i = Some row ->
     (forall b, get row (str "Birthday") = Some b -> parseBirthday b = None) ->
     nth_error (reformatBirthdays rows format) i = Some row).
Proof.
  split.
  - intros H. rewrite !reformatBirthdays_rows, map_map.
    apply map_ext_in. intros row Hrow. apply reformatRow_idem.
    intros b c G P. exact (H row b c Hrow G P).
  - intros i row Hi H. rewrite reformatBirthdays_rows, nth_error_map, Hi.
    simpl. f_equal. unfold reformatRow.
    destruct (get row (str "Birthday")) as [b|]; [|reflexivity].
    rewrite (H b eq_refl). now destruct (negb (truthy b)).
Qed.

Lemma reformatBirthdays_idempotent_when_stable_witness :
  let rows := [ [(str "Birthday", str "15/01/1990")];
                [(str "Birthday", str "next spring")] ] in
  reformatBirthdays (reformatBirthdays rows DD_MM_YYYY) DD_MM_YYYY
  = reformatBirthdays rows DD_MM_YYYY /\
  nth_error (reformatBirthdays rows DD_MM_YYYY) 1
  = Some [(str "Birthday", str "next spring")].
Proof.
  intros rows.
  destruct (reformatBirthdays_idempotent_when_stable rows DD_MM_YYYY)
    as [Idem Pass].
  split.
  - apply Idem. intros row b c Hrow G P.
    destruct Hrow as [<-|[<-|[]]]; vm_compute in G; injection G as <-;
      vm_compute in P; [injection P as <-|discriminate].
    left. vm_compute. lia.
  - apply Pass; [reflexivity|].
    intros b G. vm_compute in G. injection G as <-. reflexivity.
Defined.

(** ** C7 *)

(** C7, as stated, fails: there is no digit-only input on which the export
    formatter and the cleaning-time normaliser differ. *)
Lemma formatPhoneNumber_never_differs :
  ~ exists x, forallb isDigit x = true /\ formatPhoneNumber x <> cleanPhone x.
Proof. intros (x & _ & H). apply H. reflexivity. Qed.

Lemma removeAll_digits s :
  forallb isDigit s = true -> removeAll isNonDigit s = s.
Proof.
  unfold removeAll, isNonDigit. induction s as [|c s IH]; simpl; [reflexivity|].
  intros H. apply andb_true_iff in H as [Hc Hs]. rewrite Hc. simpl.
  now rewrite IH.
Qed.

Lemma removeAll_only_digits s : forallb isDigit (removeAll isNonDigit s) = true.
Proof.
  unfold removeAll, isNonDigit. induction s as [|c s IH]; simpl; [reflexivity|].
  destruct (isDigit c) eqn:E; simpl; [now rewrite E|assumption].
Qed.

Lemma get_set row h v k :
  get (set row h v) k = if eqs h k then Some v else get row k.
Proof.
  unfold get. induction row as [|[k' v'] row IH]; simpl; [reflexivity|].
  destruct (eqs k' h) eqn:E; simpl.
  - apply eqs_eq in E as ->. now destruct (eqs h k).
  - destruct (eqs k' k) eqn:E'; [|exact IH].
    apply eqs_eq in E' as ->. destruct (eqs h k) eqn:E2; [|reflexivity].
    apply eqs_eq in E2 as ->. rewrite eqs_refl in E. discriminate.
Qed.

Lemma get_fold_set (f : jsstring -> jsstring) headers r0 k :
  get (fold_left (fun r h => set r h (f h)) headers r0) k =
  if includesStr headers k then Some (f k) else get r0 k.
Proof.
  revert r0. induction headers as [|h hs IH]; intros r0; simpl; [reflexivity|].
  rewrite IH, get_set. destruct (includesStr hs k) eqn:E.
  - now rewrite orb_true_r.
  - rewrite orb_false_r. destruct (eqs h k) eqn:E'; [|reflexivity].
    apply eqs_eq in E' as ->. reflexivity.
Qed.

Lemma includesStr_In l x : includesStr l x = true <-> In x l.
Proof.
  unfold includesStr. rewrite existsb_exists. split.
  - intros (y & Hy & E). apply eqs_eq in E as <-. exact Hy.
  - intros H. exists x. split; [exact H|apply eqs_refl].
Qed.

Lemma digit_head_not_formula c v :
  isDigit c = true ->
  existsb (fun ch => startsWith (c :: v) ch) formulaCharacters = false.
Proof. all_chars c. Qed.

Lemma sanitize_digits v : forallb isDigit v = true -> sanitizeForExport v = v.
Proof.
  destruct v as [|c v]; [reflexivity|]. simpl. intros H.
  apply andb_true_iff in H as [Hc _]. unfold sanitizeForExport.
  rewrite (@digit_head_not_formula c v Hc). reflexivity.
Qed.

(** C7 (amended): [formatPhoneNumber], which [sanitizeData] applies to the
    Phone column at export time, strips the non-digit characters exactly as
    the cleaning-time normaliser does: the two agree on every input, the
    result is always a digit string, and a digit-only phone value is
    returned, and exported, unchanged, without any grouping. *)
Theorem formatPhoneNumber_is_cleanPhone :
  (forall x, formatPhoneNumber x = cleanPhone x) /\
  (forall x, forallb isDigit (formatPhoneNumber x) = true) /\
  (forall x, forallb isDigit x = true -> formatPhoneNumber x = x) /\
  (forall rows headers i row v,
     nth_error rows i = Some row -> In (str "Phone") headers ->
     get row (str "Phone") = Some v -> forallb isDigit v = true ->
     exists exported,
       nth_error (sanitizeData rows headers) i = Some exported /\
       get exported (str "Phone") = Some v).
Proof.
  assert (D : forall x, forallb isDigit x = true -> formatPhoneNumber x = x).
  { intros x H. unfold formatPhoneNumber. apply falsy_guard. intros _.
    now apply removeAll_digits. }
  split; [reflexivity|]. split; [|split; [exact D|]].
  - intros x. unfold formatPhoneNumber. apply guard_cases; [reflexivity|].
    apply removeAll_only_digits.
  - intros rows headers i row v Hi Hin G Hv.
    exists (sanitizeRow headers row). split.
    + unfold sanitizeData. now rewrite nth_error_map, Hi.
    + unfold sanitizeRow.
      rewrite (get_fold_set
                 (fun header =>
                    sanitizeForExport
                      (if eqs header (str "Phone")
                          && truthy match get row header with
                                    | Some v0 => v0
                                    | None => []
                                    end
                       then formatPhoneNumber
                              match get row header with
                              | Some v0 => v0
                              | None => []
                              end
                       else match get row header with
                            | Some v0 => v0
                            | None => []
                            end))).
      rewrite (proj2 (includesStr_In headers (str "Phone")) Hin), G.
      f_equal. destruct (_ && _); [rewrite D by assumption|];
        now apply sanitize_digits.
Qed.

Lemma formatPhoneNumber_is_cleanPhone_witness :
  formatPhoneNumber (str "5551234567") = str "5551234567" /\
  exists exported,
    nth_error (sanitizeData [[(str "Phone", str "5551234567")]]
                            [str "Email"; str "Phone"]) 0 = Some exported /\
    get exported (str "Phone") = Some (str "5551234567").
Proof.
  destruct formatPhoneNumber_is_cleanPhone as (_ & _ & D & X). split.
  - apply D. reflexivity.
  - apply X with (row := [(str "Phone", str "5551234567")]).
    + reflexivity.
    + simpl. right. left. reflexivity.
    + reflexivity.
    + reflexivity.
Defined.

(** ** C10 *)

(** C10: [parseBirthday] checks no range.  On an input A/B/YYYY (each
    separator a slash or a dash) with A > 12 and B > 12 it returns month A
    and day B, both already two digits wide, and [cleanBirthday] renders
    A/B/YYYY, whose month exceeds 12. *)
Theorem parseBirthday_no_range_check (a b y : jsstring) (s1 s2 : ascii) :
  forallb isDigit a = true -> 1 <= List.length a <= 2 ->
  forallb isDigit b = true -> 1 <= List.length b <= 2 ->
  forallb isDigit y = true -> List.length y = 4 ->
  isDateSep s1 = true -> isDateSep s2 = true ->
  12 < parseInt a -> 12 < parseInt b ->
  parseBirthday (a ++ s1 :: b ++ s2 :: y)
    = Some {| month := a; day := b; year := y |} /\
  padStart2 a = a /\ padStart2 b = b /\
  cleanBirthday (a ++ s1 :: b ++ s2 :: y) = a ++ str "/" ++ b ++ str "/" ++ y.
Proof.
  intros Ha La Hb Lb Hy Ly Hs1 Hs2 Na Nb.
  pose proof (parseInt_two _ Ha La Na) as La2.
  pose proof (parseInt_two _ Hb Lb Nb) as Lb2.
  assert (P : parseBirthday (a ++ s1 :: b ++ s2 :: y)
              = Some {| month := a; day := b; year := y |}).
  { rewrite parse_numeric by (auto; split; assumption).
    unfold slashDecision.
    apply Nat.leb_gt in Nb. rewrite Nb, andb_false_r.
    now rewrite !padStart2_two. }
  split; [exact P|]. split; [now apply padStart2_two|].
  split; [now apply padStart2_two|].
  unfold cleanBirthday. rewrite P. reflexivity.
Qed.

Lemma parseBirthday_no_range_check_witness :
  parseBirthday (str "13/13/1990")
    = Some {| month := str "13"; day := str "13"; year := str "1990" |} /\
  cleanBirthday (str "13/13/1990") = str "13/13/1990" /\
  cleanBirthday (str "31-45-2001") = str "31/45/2001".
Proof.
  split; [|split].
  - apply (parseBirthday_no_range_check (str "13") (str "13") (str "1990")
             "/"%char "/"%char); try reflexivity; vm_compute; lia.
  - apply (parseBirthday_no_range_check (str "13") (str "13") (str "1990")
             "/"%char "/"%char); try reflexivity; vm_compute; lia.
  - apply (parseBirthday_no_range_check (str "31") (str "45") (str "2001")
             "-"%char "-"%char); try reflexivity; vm_compute; lia.
Defined.

(** ** Duplicate detection *)

Lemma indicesOf_spec v rows start i :
  In i (indicesOf v rows start) <->
  exists j row, i = start + j /\ nth_error rows j = Some row /\ emailKey row = v.
Proof.
  revert start i. induction rows as [|r rows IH]; intros start i; simpl.
  - split; [intros []|]. intros (j & row & _ & H & _). destruct j; discriminate.
  - destruct (eqs (emailKey r) v) eqn:E; simpl; rewrite ?IH; split.
    + intros [<-|(j & row & -> & Hn & Hk)].
      * exists 0, r. apply eqs_eq in E. split; [lia|split; [reflexivity|exact E]].
      * exists (S j), row. split; [lia|split; assumption].
    + intros ([|j] & row & -> & Hn & Hk).
      * left. lia.
      * right. exists j, row. split; [lia|split; assumption].
    + intros (j & row & -> & Hn & Hk). exists (S j), row.
      split; [lia|split; assumption].
    + intros ([|j] & row & -> & Hn & Hk).
      * simpl in Hn. injection Hn as <-. apply eqs_neq in E. contradiction.
      * exists j, row. split; [lia|split; assumption].
Qed.

Lemma indicesAt_push m k i k' :
  indicesAt (pushIndex m k i) k' =
  if eqs k k' then indicesAt m k ++ [i] else indicesAt m k'.
Proof.
  induction m as [|[k0 l] m IH]; simpl.
  - destruct (eqs k k'); reflexivity.
  - destruct (eqs k0 k) eqn:E0; simpl.
    + apply eqs_eq in E0 as ->. now destruct (eqs k k').
    + rewrite IH. destruct (eqs k0 k') eqn:E1; [|reflexivity].
      apply eqs_eq in E1 as ->.
      destruct (eqs k k') eqn:E2; [|reflexivity].
      apply eqs_eq in E2 as ->. rewrite eqs_refl in E0. discriminate.
Qed.

Lemma keys_push m k i :
  map fst (pushIndex m k i) = addKey (map fst m) k.
Proof.
  unfold addKey, includesStr. induction m as [|[k0 l] m IH]; simpl; [reflexivity|].
  destruct (eqs k0 k); simpl; [reflexivity|].
  rewrite IH. now destruct (existsb _ (map fst m)).
Qed.

Lemma addKey_NoDup keys k : NoDup keys -> NoDup (addKey keys k).
Proof.
  intros H. unfold addKey. destruct (includesStr keys k) eqn:E; [assumption|].
  apply NoDup_app; [assumption|repeat constructor; intros []|].
  intros x Hx [<-|[]]. apply includesStr_In in Hx. congruence.
Qed.

Lemma addKey_In keys k x : In x (addKey keys k) <-> In x keys \/ x = k.
Proof.
  unfold addKey. destruct (includesStr keys k) eqn:E.
  - apply includesStr_In in E. split; [auto|]. intros [H| ->]; assumption.
  - rewrite in_app_iff. simpl. intuition.
Qed.

Lemma indicesAt_entry m k l :
  NoDup (map fst m) -> In (k, l) m -> indicesAt m k = l.
Proof.
  induction m as [|[k0 l0] m IH]; simpl; [intros _ []|].
  intros ND [[= -> ->]|Hin].
  - now rewrite eqs_refl.
  - inversion ND as [|? ? Hnot ND']; subst.
    destruct (eqs k0 k) eqn:E; [|now apply IH].
    apply eqs_eq in E as ->. exfalso. apply Hnot.
    now apply (in_map fst) in Hin.
Qed.

Lemma indicesAt_In m k :
  indicesAt m k <> [] -> In (k, indicesAt m k) m.
Proof.
  induction m as [|[k0 l0] m IH]; simpl; [congruence|].
  destruct (eqs k0 k) eqn:E.
  - apply eqs_eq in E as ->. now left.
  - intros H. right. now apply IH.
Qed.

Lemma collectEmails_indices rows index m v :
  indicesAt (collectEmails rows index m) v =
  indicesAt m v ++ (if truthy v then indicesOf v rows index else []).
Proof.
  revert index m. induction rows as [|row rows IH]; intros index m; simpl.
  - destruct (truthy v); now rewrite app_nil_r.
  - rewrite IH. destruct (truthy (emailKey row)) eqn:T.
    + rewrite indicesAt_push. destruct (eqs (emailKey row) v) eqn:E.
      * apply eqs_eq in E. subst v. rewrite T, <- app_assoc. reflexivity.
      * reflexivity.
    + destruct (eqs (emailKey row) v) eqn:E; [|reflexivity].
      apply eqs_eq in E. subst v. rewrite T. reflexivity.
Qed.

Lemma collectEmails_keys rows index m :
  NoDup (map fst m) -> (forall k, In k (map fst m) -> k <> []) ->
  NoDup (map fst (collectEmails rows index m)) /\
  (forall k, In k (map fst (collectEmails rows index m)) -> k <> []).
Proof.
  revert index m. induction rows as [|row rows IH]; intros index m ND NE; simpl.
  - auto.
  - apply IH; destruct (truthy (emailKey row)) eqn:T; auto.
    + rewrite keys_push. now apply addKey_NoDup.
    + intros k. rewrite keys_push, addKey_In. intros [H| ->]; [auto|].
      now apply truthy_nonempty.
Qed.

Lemma detectDuplicates_In rows g :
  In g (detectDuplicates rows) <->
  field g = Email /\
  In (value g, rowIndices g) (collectEmails rows 0 []) /\
  2 <= List.length (rowIndices g).
Proof.
  unfold detectDuplicates. rewrite in_map_iff. split.
  - intros ([k l] & <- & H). apply filter_In in H as [H L]. simpl in *.
    apply Nat.ltb_lt in L. auto.
  - intros (F & H & L). exists (value g, rowIndices g). split.
    + destruct g; simpl in *. now subst.
    + apply filter_In. split; [assumption|]. simpl. apply Nat.ltb_lt. lia.
Qed.

Lemma indicesOf_length v rows start :
  List.length (indicesOf v rows start)
  = List.length (filter (fun row => eqs (emailKey row) v) rows).
Proof.
  revert start. induction rows as [|row rows IH]; intros start; simpl;
    [reflexivity|].
  destruct (eqs (emailKey row) v); simpl; now rewrite IH.
Qed.

Lemma NoDup_keys_filter {B} (f : jsstring * B -> bool) (m : list (jsstring * B)) :
  NoDup (map fst m) -> NoDup (map fst (filter f m)).
Proof.
  induction m as [|e m IH]; simpl; [auto|]. intros ND.
  inversion ND as [|? ? Hnot ND']; subst.
  destruct (f e); simpl; [|auto]. constructor; [|auto].
  intros Hin. apply Hnot. apply in_map_iff in Hin as (e' & E & He').
  apply filter_In in He' as [He' _]. rewrite <- E. now apply in_map.
Qed.

Lemma collectEmails_all_empty rows index m :
  Forall (fun row => emailKey row = []) rows ->
  collectEmails rows index m = m.
Proof.
  revert index m. induction rows as [|row rows IH]; intros index m H; simpl;
    [reflexivity|].
  inversion H as [|? ? E H']; subst. rewrite E. simpl. now apply IH.
Qed.

(** ** C8 *)

(** C8: [detectDuplicates] groups the row indices by the lower-cased,
    trimmed Email value.  Every emitted group has field Email, at least two
    indices, and its indices are exactly the positions, in ascending order,
    of the rows with that Email key; every non-empty key carried by at least
    two rows has a group, and no key has two.  Rows with Emails "A@B.com"
    and "a@b.com" form one group with two indices. *)
Theorem detectDuplicates_groups_by_email :
  (forall rows g, In g (detectDuplicates rows) ->
     field g = Email /\
     2 <= List.length (rowIndices g) /\
     rowIndices g = indicesOf (value g) rows 0 /\
     List.length (rowIndices g)
     = List.length (filter (fun row => eqs (emailKey row) (value g)) rows) /\
     (forall i, In i (rowIndices g) <->
                exists row, nth_error rows i = Some row /\
                            emailKey row = value g)) /\
  (forall rows v, v <> [] ->
     2 <= List.length (filter (fun row => eqs (emailKey row) v) rows) ->
     exists g, In g (detectDuplicates rows) /\ value g = v) /\
  (forall rows, NoDup (map value (detectDuplicates rows))) /\
  detectDuplicates [ [(str "Email", str "A@B.com")];
                     [(str "Email", str "a@b.com")] ]
  = [ {| field := Email; value := str "a@b.com"; rowIndices := [0; 1] |} ].
Proof.
  split; [|split; [|split; [|reflexivity]]].
  - intros rows g Hg. apply detectDuplicates_In in Hg as (F & Hin & L).
    destruct (collectEmails_keys rows 0 [] (NoDup_nil _)
                (fun k (H : In k []) => match H with end)) as [ND NE].
    assert (Hv : truthy (value g) = true).
    { apply truthy_nonempty, NE. now apply (in_map fst) in Hin. }
    pose proof (indicesAt_entry _ _ _ ND Hin) as E.
    rewrite collectEmails_indices, Hv in E. simpl in E.
    split; [assumption|]. split; [assumption|]. split; [now symmetry|].
    split; [rewrite <- E; apply indicesOf_length|].
    intros i. rewrite <- E, indicesOf_spec. split.
    + intros (j & row & -> & H1 & H2). now exists row.
    + intros (row & H1 & H2). now exists i, row.
  - intros rows v Hv L. rewrite <- (indicesOf_length v rows 0) in L.
    assert (E : indicesAt (collectEmails rows 0 []) v = indicesOf v rows 0).
    { rewrite collectEmails_indices.
      now rewrite (proj2 (truthy_nonempty v) Hv). }
    exists {| field := Email; value := v; rowIndices := indicesOf v rows 0 |}.
    split; [|reflexivity]. apply detectDuplicates_In. simpl.
    split; [reflexivity|]. split; [|assumption].
    rewrite <- E. apply indicesAt_In. rewrite E.
    destruct (indicesOf v rows 0); [simpl in L; lia|discriminate].
  - intros rows. unfold detectDuplicates. rewrite map_map. simpl.
    apply NoDup_keys_filter.
    now apply (collectEmails_keys rows 0 [] (NoDup_nil _)
                 (fun k (H : In k []) => match H with end)).
Qed.

Lemma detectDuplicates_groups_by_email_witness :
  let rows := [ [(str "Email", str " Ann@X.org")];
                [(str "Email", str "bob@x.org")];
                [(str "Email", str "ann@x.ORG ")] ] in
  let g := {| field := Email; value := str "ann@x.org"; rowIndices := [0; 2] |} in
  (field g = Email /\ 2 <= List.length (rowIndices g) /\
   rowIndices g = indicesOf (value g) rows 0) /\
  exists g', In g' (detectDuplicates rows) /\ value g' = str "ann@x.org".
Proof.
  intros rows g.
  destruct detectDuplicates_groups_by_email as (Sound & Complete & _).
  split.
  - destruct (Sound rows g) as (F & L & E & _); [left; reflexivity|].
    split; [exact F|split; [exact L|exact E]].
  - apply (Complete rows (str "ann@x.org")); [discriminate|].
    vm_compute. lia.
Defined.

(** ** C9 *)

(** C9: rows whose Email is empty or missing are never reported: no group
    returned by [detectDuplicates] has an empty value, and a table whose
    rows all have an empty (or blank, or missing) Email yields no group at
    all, however many such rows there are. *)
Theorem detectDuplicates_ignores_empty_email :
  (forall rows, Forall (fun g => value g <> []) (detectDuplicates rows)) /\
  (forall rows, Forall (fun row => emailKey row = []) rows ->
                detectDuplicates rows = []) /\
  detectDuplicates [ [(str "Email", str "")]; [(str "Name", str "x")];
                     [(str "Email", str "")]; [(str "Email", str "  ")] ]
  = [].
Proof.
  split; [|split; [|reflexivity]].
  - intros rows. apply Forall_forall. intros g Hg.
    apply detectDuplicates_In in Hg as (_ & Hin & _).
    destruct (collectEmails_keys rows 0 [] (NoDup_nil _)
                (fun k (H : In k []) => match H with end)) as [_ NE].
    apply NE. now apply (in_map fst) in Hin.
  - intros rows H. unfold detectDuplicates.
    now rewrite collectEmails_all_empty.
Qed.

Lemma detectDuplicates_ignores_empty_email_witness :
  detectDuplicates [ [(str "Email", str "")]; [(str "Phone", str "1")];
                     [(str "Email", str " ")] ] = [].
Proof.
  apply (proj1 (proj2 detectDuplicates_ignores_empty_email)).
  repeat constructor.
Defined.

(** ** The row processor: statistics of the mapped cells *)

Lemma eqs_sym a b : eqs a b = eqs b a.
Proof.
  destruct (eqs a b) eqn:E.
  - apply eqs_eq in E as ->. symmetry. apply eqs_refl.
  - destruct (eqs b a) eqn:E'; [|reflexivity].
    apply eqs_eq in E' as ->. rewrite eqs_refl in E. discriminate.
Qed.

Lemma cleanCell_modified raw target :
  truthy target = true ->
  snd (cleanCell raw (Some target)) = modified (raw, target).
Proof.
  intros T. unfold modified, cleanedOf, originalOf, cleanCell. simpl.
  destruct (isEmptyValue raw); simpl; [now rewrite eqs_sym|].
  rewrite T. reflexivity.
Qed.

Lemma cleared_implies_truthy raw target :
  modified (raw, target) = true -> cleanedOf (raw, target) = [] ->
  rawTruthy raw = true.
Proof.
  unfold modified, originalOf. simpl. intros M E. rewrite E in M.
  destruct raw as [[|c s]|]; simpl in *; try discriminate; reflexivity.
Qed.

Lemma bumpField_counter c target s :
  readCounter c (bumpField target s)
  = readCounter c s + (if includesStr (counterOf c) target then 1 else 0).
Proof.
  unfold bumpField.
  destruct (eqs target (str "Email")) eqn:E1;
    [apply eqs_eq in E1 as ->; destruct c; simpl; lia|].
  destruct (eqs target (str "Phone")) eqn:E2;
    [apply eqs_eq in E2 as ->; destruct c; simpl; lia|].
  destruct (eqs target (str "First Name")) eqn:E3;
    [apply eqs_eq in E3 as ->; destruct c; simpl; lia|].
  destruct (eqs target (str "Last Name")) eqn:E4;
    [apply eqs_eq in E4 as ->; destruct c; simpl; lia|].
  destruct (eqs target (str "Status")) eqn:E5;
    [apply eqs_eq in E5 as ->; destruct c; simpl; lia|].
  destruct (eqs target (str "Time Zone")) eqn:E6;
    [apply eqs_eq in E6 as ->; destruct c; simpl; lia|].
  destruct (eqs target (str "Tags")) eqn:E7;
    [apply eqs_eq in E7 as ->; destruct c; simpl; lia|].
  destruct (eqs target (str "Birthday")) eqn:E8;
    [apply eqs_eq in E8 as ->; destruct c; simpl; lia|].
  assert (N : includesStr (counterOf c) target = false).
  { destruct c; unfold includesStr; cbn [existsb counterOf];
      rewrite ?(eqs_sym _ target), ?E1, ?E2, ?E3, ?E4, ?E5, ?E6, ?E7, ?E8;
      reflexivity. }
  rewrite N. cbn [orb]. cbv iota.
  destruct (includesStr TARGET_HEADERS target); lia.
Qed.

Lemma bumpField_frame target s :
  totalCellsModified (bumpField target s) = totalCellsModified s /\
  emptyValuesCleared (bumpField target s) = emptyValuesCleared s /\
  emptyRowsRemoved (bumpField target s) = emptyRowsRemoved s.
Proof.
  unfold bumpField.
  destruct (includesStr TARGET_HEADERS target); [|auto].
  repeat match goal with
         | |- context [if ?b then _ else _] => destruct b
         end; auto.
Qed.

Lemma cellStats_meter k raw target s :
  truthy target = true ->
  readMeter k (cellStats raw target s)
  = readMeter k s + (if counted k (raw, target) then 1 else 0).
Proof.
  intros T. unfold cellStats.
  pose proof (cleanCell_modified raw target T) as M.
  pose proof (cleared_implies_truthy raw target) as CT.
  unfold cleanedOf in *. simpl fst in *. simpl snd in *.
  destruct (cleanCell raw (Some target)) as [cleaned was] eqn:CC.
  simpl in M. subst was.
  destruct (modified (raw, target)) eqn:Md.
  2: { destruct k; simpl; rewrite ?Md; simpl; lia. }
  destruct (bumpField_frame target (incr_totalCellsModified s)) as (F1 & F2 & F3).
  pose proof (bumpField_counter) as BC.
  destruct (eqs cleaned []) eqn:Ec.
  - apply eqs_eq in Ec. subst cleaned. rewrite (CT eq_refl eq_refl).
    simpl andb. cbv iota.
    destruct k; simpl; unfold cleanedOf; simpl; rewrite ?Md, ?CC; simpl;
      rewrite ?F1, ?F2, ?F3; simpl; try lia.
    simpl in BC. replace (readCounter c (incr_emptyValuesCleared
                           (bumpField target (incr_totalCellsModified s))))
      with (readCounter c (bumpField target (incr_totalCellsModified s)))
      by (now destruct c).
    rewrite BC. replace (readCounter c (incr_totalCellsModified s))
      with (readCounter c s) by (now destruct c).
    reflexivity.
  - simpl andb. cbv iota.
    destruct k; simpl; unfold cleanedOf; simpl; rewrite ?Md, ?CC; simpl;
      rewrite ?Ec, ?F1, ?F2, ?F3; simpl; try lia.
    rewrite BC. replace (readCounter c (incr_totalCellsModified s))
      with (readCounter c s) by (now destruct c).
    reflexivity.
Qed.

Lemma activeTarget_truthy m target :
  activeTarget m = Some target -> truthy target = true.
Proof.
  unfold activeTarget. destruct (targetHeader m) as [t|]; [|discriminate].
  destruct (truthy t) eqn:T; simpl; [|discriminate].
  destruct (truthy (sourceHeader m)); [|discriminate]. now intros [= <-].
Qed.

Lemma mappedCells_truthy rows mappings cell :
  In cell (mappedCells rows mappings) -> truthy (snd cell) = true.
Proof.
  unfold mappedCells. rewrite in_flat_map. intros (row & _ & H).
  apply in_flat_map in H as (m & _ & H).
  destruct (activeTarget m) as [t|] eqn:A; [|destruct H].
  destruct H as [<-|[]]. simpl. eapply activeTarget_truthy; eassumption.
Qed.

Lemma processRow_stats row mappings st :
  snd (fold_left (processCell row) mappings st)
  = fold_left cellStep (rowCells mappings row) (snd st).
Proof.
  revert st. induction mappings as [|m ms IH]; intros st; simpl; [reflexivity|].
  rewrite IH. unfold rowCells at 2. simpl. rewrite fold_left_app.
  fold (rowCells ms row). f_equal. unfold processCell.
  destruct (activeTarget m); reflexivity.
Qed.

Lemma cleanRows_stats mappings headers rows s :
  snd (cleanRows mappings headers rows s)
  = fold_left cellStep (mappedCells rows mappings) s.
Proof.
  revert s. induction rows as [|row rows IH]; intros s; simpl; [reflexivity|].
  destruct (processRow mappings headers s row) as [r s1] eqn:PR.
  specialize (IH s1). destruct (cleanRows mappings headers rows s1) as [rs s2].
  simpl in *. rewrite fold_left_app, IH. f_equal.
  fold (rowCells mappings row).
  unfold processRow in PR. rewrite <- processRow_stats with (st := (blankRow headers, s)).
  now rewrite PR.
Qed.

Lemma cleanRows_length mappings headers rows s :
  List.length (fst (cleanRows mappings headers rows s)) = List.length rows.
Proof.
  revert s. induction rows as [|row rows IH]; intros s; simpl; [reflexivity|].
  destruct (processRow mappings headers s row) as [r s1].
  specialize (IH s1). destruct (cleanRows mappings headers rows s1) as [rs s2].
  simpl in *. now rewrite IH.
Qed.

Lemma fold_meter k cells s :
  (forall cell, In cell cells -> truthy (snd cell) = true) ->
  readMeter k (fold_left cellStep cells s)
  = readMeter k s + List.length (filter (counted k) cells).
Proof.
  revert s. induction cells as [|[raw t] cells IH]; intros s H; simpl; [lia|].
  rewrite IH by (intros; apply H; now right).
  unfold cellStep. cbn [fst snd].
  rewrite cellStats_meter by (apply (H (raw, t)); now left).
  destruct (counted k (raw, t)); simpl; lia.
Qed.

Lemma dropEmptyRows_fst rows s :
  fst (dropEmptyRows rows s) = filter hasData rows.
Proof.
  revert s. induction rows as [|row rows IH]; intros s; simpl; [reflexivity|].
  destruct (hasData row); [|apply IH].
  specialize (IH s). destruct (dropEmptyRows rows s). simpl in *. now f_equal.
Qed.

Lemma dropEmptyRows_meter k rows s :
  readMeter k (snd (dropEmptyRows rows s))
  = readMeter k s +
    match k with
    | MRowsRemoved =>
        List.length (filter (fun row => negb (hasData row)) rows)
    | _ => 0
    end.
Proof.
  revert s. induction rows as [|row rows IH]; intros s; simpl.
  - destruct k; lia.
  - destruct (hasData row); simpl.
    + specialize (IH s). destruct (dropEmptyRows rows s). exact IH.
    + rewrite IH. destruct k as [| |c|]; simpl; try lia. destruct c; simpl; lia.
Qed.

Lemma processData_data rows mappings :
  data (processData rows mappings)
  = let filteredData := filter hasData (fst (builtRows rows mappings)) in
    map (pruneColumns (columnsWithData filteredData)) filteredData.
Proof.
  unfold processData. destruct (builtRows rows mappings) as [built s1].
  pose proof (dropEmptyRows_fst built s1) as E.
  destruct (dropEmptyRows built s1) as [fd s2]. simpl in *. now subst.
Qed.

Lemma processData_stats rows mappings :
  stats (processData rows mappings)
  = let built := builtRows rows mappings in
    let filteredData := filter hasData (fst built) in
    set_totalRows (List.length filteredData)
      (set_emptyColumnsRemoved (List.length (emptyColumns filteredData))
         (snd (dropEmptyRows (fst built) (snd built)))).
Proof.
  unfold processData. destruct (builtRows rows mappings) as [built s1].
  cbn [fst snd]. pose proof (dropEmptyRows_fst built s1) as E.
  destruct (dropEmptyRows built s1) as [fd s2]. simpl in *. subst.
  now rewrite length_map.
Qed.

Lemma processData_meter k rows mappings :
  readMeter k (stats (processData rows mappings))
  = match k with
    | MRowsRemoved =>
        List.length (filter (fun row => negb (hasData row))
                            (fst (builtRows rows mappings)))
    | _ => List.length (filter (counted k) (mappedCells rows mappings))
    end.
Proof.
  rewrite processData_stats. cbv zeta.
  set (built := builtRows rows mappings).
  transitivity (readMeter k (snd (dropEmptyRows (fst built) (snd built)))).
  { destruct k as [| |[]|]; reflexivity. }
  rewrite dropEmptyRows_meter. unfold built, builtRows.
  rewrite cleanRows_stats, fold_meter by apply mappedCells_truthy.
  assert (Z : readMeter k (initialStats (List.length rows)) = 0)
    by (destruct k as [| |[]|]; reflexivity).
  rewrite Z. destruct k as [| |c|]; try lia.
  assert (F : forall cells, filter (counted MRowsRemoved) cells = []).
  { induction cells; simpl; auto. }
  rewrite F. simpl. lia.
Qed.

(** ** C6 *)

(** C6, as stated, fails for whitespace-only cells: the raw value is truthy
    and the cleaned result is empty, but the cell does not differ from its
    trimmed original, so nothing is counted and [emptyValuesCleared]
    stays at 0. *)
Lemma blank_cell_not_counted :
  let rows := [ [(str "mail", str "   ")] ] in
  let mappings := [ {| sourceHeader := str "mail";
                       targetHeader := Some (str "Email");
                       isCustom := false |} ] in
  rawTruthy (Some (str "   ")) = true /\
  cleanCell (Some (str "   ")) (Some (str "Email")) = ([], false) /\
  emptyValuesCleared (stats (processData rows mappings)) = 0.
Proof. repeat split. Qed.

(** C6 (amended): for every mapped cell of [processData], if the cleaned
    value differs from the trimmed original then [totalCellsModified] and
    the counter of the target field are incremented, and, in that case
    only, [emptyValuesCleared] is incremented when the cleaned value is
    empty; a cell equal to its trimmed original changes no counter.  Over a
    whole table each counter is the number of such cells.  A whitespace-only
    raw value is truthy and is cleaned to the empty string, but it equals
    its trimmed original and is not counted; "N/A" is counted.  The cells
    and the tables are those on which no object is indexed by a name
    inherited from [Object.prototype] ([plainCell], [plainTable]): on a
    time zone "constructor" the code fails with a TypeError and returns
    no statistics. *)
Theorem processData_cell_statistics :
  (forall raw target s, truthy target = true ->
     plainCell raw (Some target) = true ->
     let cleaned := fst (cleanCell raw (Some target)) in
     let original := trim (rawString raw) in
     let s' := cellStats raw target s in
     (cleaned <> original ->
        totalCellsModified s' = S (totalCellsModified s) /\
        (forall c, In target (counterOf c) ->
                   readCounter c s' = S (readCounter c s)) /\
        emptyValuesCleared s'
        = emptyValuesCleared s + (if eqs cleaned [] then 1 else 0)) /\
     (cleaned = original -> s' = s)) /\
  (forall rows mappings, plainTable rows mappings = true ->
     let cells := mappedCells rows mappings in
     let s := stats (processData rows mappings) in
     totalCellsModified s = List.length (filter modified cells) /\
     (forall c, readCounter c s
                = List.length
                    (filter (fun cell => modified cell
                                         && includesStr (counterOf c) (snd cell))
                            cells)) /\
     emptyValuesCleared s
     = List.length (filter (fun cell => modified cell
                                        && eqs (cleanedOf cell) []) cells)) /\
  (forall raw target s, truthy target = true ->
     rawTruthy raw = true -> trim (rawString raw) = [] ->
     fst (cleanCell raw (Some target)) = [] /\ cellStats raw target s = s) /\
  (forall target s, truthy target = true ->
     fst (cleanCell (Some (str "N/A")) (Some target)) = [] /\
     emptyValuesCleared (cellStats (Some (str "N/A")) target s)
     = S (emptyValuesCleared s)).
Proof.
  split; [|split; [|split]].
  - intros raw target s T _ cleaned original s'. split.
    + intros D.
      assert (M : modified (raw, target) = true).
      { unfold modified, cleanedOf, originalOf. simpl.
        apply negb_true_iff, eqs_neq. exact D. }
      split; [|split].
      * pose proof (cellStats_meter MTotal raw target s T) as E.
        simpl in E. rewrite M in E. unfold s'. lia.
      * intros c Hin.
        pose proof (cellStats_meter (MField c) raw target s T) as E.
        simpl in E. rewrite M in E.
        rewrite (proj2 (includesStr_In _ _) Hin) in E. simpl in E.
        unfold s'. lia.
      * pose proof (cellStats_meter MCleared raw target s T) as E.
        simpl in E. rewrite M in E. exact E.
    + intros E. unfold s', cellStats.
      pose proof (cleanCell_modified raw target T) as M.
      unfold modified, cleanedOf, originalOf in M. simpl in M.
      fold cleaned original in M. rewrite E, eqs_refl in M. simpl in M.
      destruct (cleanCell raw (Some target)) as [cl was]. simpl in M.
      now subst was.
  - intros rows mappings _ cells s. split; [|split].
    + apply (processData_meter MTotal).
    + intros c. apply (processData_meter (MField c)).
    + apply (processData_meter MCleared).
  - intros raw target s T RT E. destruct raw as [r|]; [|discriminate].
    simpl in E. unfold cellStats, cleanCell. simpl rawString.
    unfold isEmptyValue. rewrite E. simpl. auto.
  - intros target s T. split; [reflexivity|].
    unfold cellStats.
    change (cleanCell (Some (str "N/A")) (Some target)) with
      (@nil ascii, true).
    cbv iota beta. rewrite eqs_refl. simpl andb. cbv iota.
    destruct (bumpField_frame target (incr_totalCellsModified s))
      as (_ & F & _).
    simpl. rewrite F. reflexivity.
Qed.

Lemma processData_cell_statistics_witness :
  let s0 := initialStats 1 in
  let rows := [ [(str "mail", str "A@B.com "); (str "zone", str " pst")];
                [(str "mail", str "   "); (str "zone", str "N/A")] ] in
  let mappings := [ {| sourceHeader := str "mail";
                       targetHeader := Some (str "Email");
                       isCustom := false |};
                    {| sourceHeader := str "zone";
                       targetHeader := Some (str "Time Zone");
                       isCustom := false |} ] in
  (emailsCleaned (cellStats (Some (str "A@B.com ")) (str "Email") s0) = 1 /\
   totalCellsModified (cellStats (Some (str "A@B.com ")) (str "Email") s0) = 1) /\
  cellStats (Some (str "a@b.com")) (str "Email") s0 = s0 /\
  cellStats (Some (str "   ")) (str "Phone") s0 = s0 /\
  emptyValuesCleared (cellStats (Some (str "N/A")) (str "Phone") s0) = 1 /\
  plainTable rows mappings = true /\
  totalCellsModified (stats (processData rows mappings)) = 3 /\
  timeZoneValidated (stats (processData rows mappings)) = 2 /\
  emptyValuesCleared (stats (processData rows mappings)) = 1 /\
  existsb (fun cell => plainCell (fst cell) (snd cell)) inheritedCells
  = false /\
  existsb (fun t => plainTable (fst t) (snd t)) inheritedTables = false.
Proof.
  intros s0 rows mappings.
  destruct processData_cell_statistics as (Cell & Table & Blank & NA).
  destruct (Table rows mappings eq_refl) as (Total & Field & Cleared).
  split; [|split; [|split; [|split; [|split; [|split; [|split; [|split;
    [|repeat split]]]]]]]].
  - destruct (Cell (Some (str "A@B.com ")) (str "Email") s0 eq_refl eq_refl)
      as [Mod _].
    destruct Mod as (T & F & _); [vm_compute; discriminate|].
    split; [|exact T].
    apply (F CEmails). left. reflexivity.
  - apply (Cell (Some (str "a@b.com")) (str "Email") s0 eq_refl eq_refl).
    reflexivity.
  - apply (Blank (Some (str "   ")) (str "Phone") s0); reflexivity.
  - apply (NA (str "Phone") s0). reflexivity.
  - reflexivity.
  - rewrite Total. reflexivity.
  - etransitivity; [exact (Field CTimeZone)|reflexivity].
  - rewrite Cleared. reflexivity.
Defined.

(** ** The row processor: pruning of rows and columns *)

Lemma nonBlank_false v : nonBlank v = false <-> trim v = [].
Proof.
  unfold nonBlank. split.
  - destruct v as [|c v]; [reflexivity|]. simpl.
    intros H. apply negb_false_iff, eqs_eq in H. exact H.
  - intros E. rewrite E. simpl. apply andb_false_r.
Qed.

Lemma hasData_false row :
  hasData row = false <-> (forall k v, In (k, v) row -> trim v = []).
Proof.
  unfold hasData. split.
  - intros H k v Hin. apply nonBlank_false.
    destruct (nonBlank v) eqn:E; [|reflexivity].
    assert (X : existsb (fun kv => nonBlank (snd kv)) row = true)
      by (apply existsb_exists; exists (k, v); auto).
    congruence.
  - intros H. destruct (existsb _ row) eqn:E; [|reflexivity].
    apply existsb_exists in E as ([k v] & Hin & N). simpl in N.
    apply H, nonBlank_false in Hin. congruence.
Qed.

Lemma set_keys row k v : map fst (set row k v) = addKey (map fst row) k.
Proof.
  unfold addKey, includesStr. induction row as [|[k0 v0] row IH]; simpl;
    [reflexivity|].
  destruct (eqs k0 k); simpl; [reflexivity|].
  rewrite IH. now destruct (existsb _ (map fst row)).
Qed.

Lemma blankRow_keys headers :
  map fst (blankRow headers) = fold_left addKey headers [].
Proof.
  unfold blankRow. change (@nil jsstring) with (map fst (@nil (jsstring * jsstring))).
  generalize (@nil (jsstring * jsstring)) as acc.
  induction headers as [|h hs IH]; intros acc; simpl; [reflexivity|].
  now rewrite IH, set_keys.
Qed.

Lemma processRow_keys mappings headers s row :
  map fst (fst (processRow mappings headers s row)) = commonKeys mappings headers.
Proof.
  unfold processRow, commonKeys. rewrite <- blankRow_keys.
  assert (G : forall st,
    map fst (fst (fold_left (processCell row) mappings st)) =
    fold_left (fun keys m => match activeTarget m with
                             | Some target => addKey keys target
                             | None => keys
                             end) mappings (map fst (fst st))).
  { induction mappings as [|m ms IH]; intros st; simpl; [reflexivity|].
    rewrite IH. f_equal. unfold processCell.
    destruct (activeTarget m); [|reflexivity]. simpl. apply set_keys. }
  rewrite G. reflexivity.
Qed.

Lemma commonKeys_NoDup mappings headers : NoDup (commonKeys mappings headers).
Proof.
  unfold commonKeys.
  assert (B : NoDup (fold_left addKey headers [])).
  { generalize (NoDup_nil jsstring). generalize (@nil jsstring) as acc.
    induction headers as [|h hs IH]; intros acc ND; simpl; [assumption|].
    apply IH. now apply addKey_NoDup. }
  revert B. generalize (fold_left addKey headers []) as keys.
  induction mappings as [|m ms IH]; intros keys ND; simpl; [assumption|].
  apply IH. destruct (activeTarget m); [now apply addKey_NoDup|assumption].
Qed.

Lemma cleanRows_keys mappings headers rows s row :
  In row (fst (cleanRows mappings headers rows s)) ->
  map fst row = commonKeys mappings headers.
Proof.
  revert s. induction rows as [|r rows IH]; intros s; simpl; [intros []|].
  pose proof (processRow_keys mappings headers s r) as K.
  destruct (processRow mappings headers s r) as [cr s1].
  specialize (IH s1). destruct (cleanRows mappings headers rows s1) as [rs s2].
  simpl in *. intros [<-|H]; auto.
Qed.

Lemma columnsWithData_row row cols k :
  In k (fold_left (fun cols kv => if nonBlank (snd kv)
                                  then addKey cols (fst kv) else cols) row cols)
  <-> In k cols \/
      existsb (fun kv => eqs (fst kv) k && nonBlank (snd kv)) row = true.
Proof.
  revert cols. induction row as [|[k0 v0] row IH]; intros cols; simpl.
  - split; [auto|]. intros [H|H]; [assumption|discriminate].
  - rewrite IH. destruct (nonBlank v0) eqn:N; simpl.
    + rewrite addKey_In, andb_true_r. destruct (eqs k0 k) eqn:E; simpl.
      * apply eqs_eq in E. subst. tauto.
      * apply eqs_neq in E. intuition congruence.
    + rewrite andb_false_r. simpl. tauto.
Qed.

Lemma columnsWithData_spec rows k :
  includesStr (columnsWithData rows) k = columnHasData rows k.
Proof.
  unfold columnsWithData, columnHasData.
  assert (G : forall cols,
    In k (fold_left
            (fun cols row =>
               fold_left (fun cols kv => if nonBlank (snd kv)
                                         then addKey cols (fst kv) else cols)
                         row cols) rows cols)
    <-> In k cols \/
        existsb (fun row =>
                   existsb (fun kv => eqs (fst kv) k && nonBlank (snd kv)) row)
                rows = true).
  { induction rows as [|row rows IH]; intros cols; simpl.
    - split; [auto|]. intros [H|H]; [assumption|discriminate].
    - rewrite IH, columnsWithData_row, orb_true_iff. tauto. }
  specialize (G []). simpl in G.
  match goal with |- _ = ?b => destruct b eqn:E end.
  - apply includesStr_In, G. right. reflexivity.
  - destruct (includesStr _ k) eqn:I; [|reflexivity].
    apply includesStr_In, G in I. destruct I as [[]|I]. discriminate.
Qed.

Lemma set_fresh row k v :
  ~ In k (map fst row) -> set row k v = row ++ [(k, v)].
Proof.
  induction row as [|[k0 v0] row IH]; simpl; [reflexivity|]. intros H.
  destruct (eqs k0 k) eqn:E.
  - apply eqs_eq in E. subst. tauto.
  - rewrite IH by tauto. reflexivity.
Qed.

Lemma pruneColumns_filter cols row :
  NoDup (map fst row) ->
  pruneColumns cols row = filter (fun kv => includesStr cols (fst kv)) row.
Proof.
  unfold pruneColumns. intros ND.
  assert (G : forall acc,
    NoDup (map fst acc ++ map fst row) ->
    fold_left (fun cleanedRow kv =>
                 if includesStr cols (fst kv)
                 then set cleanedRow (fst kv) (snd kv) else cleanedRow) row acc
    = acc ++ filter (fun kv => includesStr cols (fst kv)) row).
  { clear ND. induction row as [|[k v] row IH]; intros acc ND; simpl.
    - now rewrite app_nil_r.
    - simpl in ND. pose proof (NoDup_remove_2 _ _ _ ND) as Hk.
      pose proof (NoDup_remove_1 _ _ _ ND) as ND'.
      destruct (includesStr cols k).
      + rewrite IH.
        * rewrite set_fresh by (intros C; apply Hk, in_or_app; now left).
          now rewrite <- app_assoc.
        * rewrite set_fresh by (intros C; apply Hk, in_or_app; now left).
          rewrite map_app. simpl. rewrite <- app_assoc. exact ND.
      + apply IH. exact ND'. }
  apply (G []). exact ND.
Qed.

Lemma get_filter_keys (g : jsstring -> bool) row k :
  get (filter (fun kv => g (fst kv)) row) k = if g k then get row k else None.
Proof.
  unfold get. induction row as [|[k0 v0] row IH]; simpl.
  - now destruct (g k).
  - destruct (g k0) eqn:G0; simpl; destruct (eqs k0 k) eqn:E.
    + apply eqs_eq in E. subst. now rewrite G0.
    + exact IH.
    + apply eqs_eq in E. subst. rewrite G0 in *. exact IH.
    + exact IH.
Qed.

Lemma get_key_In row k v : get row k = Some v -> In k (map fst row).
Proof. intros H. apply lookup_In in H. now apply (in_map fst) in H. Qed.

Lemma filter_split_length {A} (f : A -> bool) l :
  List.length (filter f l) + List.length (filter (fun x => negb (f x)) l)
  = List.length l.
Proof.
  induction l as [|a l IH]; simpl; [reflexivity|].
  destruct (f a); simpl; lia.
Qed.

Lemma builtRows_keys rows mappings row :
  In row (fst (builtRows rows mappings)) ->
  map fst row = commonKeys mappings (allTargetHeaders mappings).
Proof. apply cleanRows_keys. Qed.

Lemma emptyColumns_spec rows mappings k :
  let survivors := filter hasData (fst (builtRows rows mappings)) in
  In k (emptyColumns survivors) <->
  (exists row, In row survivors /\ In k (map fst row)) /\
  columnHasData survivors k = false.
Proof.
  intros survivors. unfold emptyColumns. rewrite filter_In, columnsWithData_spec.
  rewrite negb_true_iff.
  assert (K : forall row, In row survivors ->
                map fst row = commonKeys mappings (allTargetHeaders mappings)).
  { intros row H. apply filter_In in H as [H _]. now apply builtRows_keys in H. }
  split; intros [H1 H2]; split; auto.
  - destruct survivors as [|r rs]; [destruct H1|]. exists r. split; [now left|exact H1].
  - destruct H1 as (row & Hrow & Hk).
    destruct survivors as [|r rs]; [destruct Hrow|]. simpl.
    rewrite (K r (or_introl eq_refl)), <- (K row Hrow). exact Hk.
Qed.

Lemma fold_addKey_In headers acc h :
  In h (fold_left addKey headers acc) <-> In h acc \/ In h headers.
Proof.
  revert acc. induction headers as [|x xs IH]; intros acc; simpl; [tauto|].
  rewrite IH, addKey_In. intuition.
Qed.

Lemma commonKeys_headers mappings headers h :
  In h headers -> In h (commonKeys mappings headers).
Proof.
  intros H. unfold commonKeys.
  assert (B : In h (fold_left addKey headers [])) by (apply fold_addKey_In; auto).
  revert B. generalize (fold_left addKey headers []) as keys.
  induction mappings as [|m ms IH]; intros keys B; simpl; [assumption|].
  apply IH. destruct (activeTarget m); [apply addKey_In; auto|assumption].
Qed.

Lemma keys_filter (g : jsstring -> bool) (row : Row) :
  map fst (filter (fun kv => g (fst kv)) row) = filter g (map fst row).
Proof.
  induction row as [|[k v] row IH]; simpl; [reflexivity|].
  destruct (g k); simpl; now rewrite IH.
Qed.

Lemma activeTarget_Some m k :
  activeTarget m = Some k <->
  targetHeader m = Some k /\ truthy k = true /\
  truthy (sourceHeader m) = true.
Proof.
  unfold activeTarget. split.
  - destruct (targetHeader m) as [t|]; [|discriminate].
    destruct (truthy t) eqn:T; [|discriminate].
    destruct (truthy (sourceHeader m)) eqn:S; [|discriminate].
    simpl. intros [= <-]. auto.
  - intros (-> & T & S). now rewrite T, S.
Qed.

Lemma commonKeys_In mappings headers k :
  In k (commonKeys mappings headers) <->
  In k headers \/ exists m, In m mappings /\ activeTarget m = Some k.
Proof.
  unfold commonKeys.
  assert (G : forall keys,
    In k (fold_left (fun keys m => match activeTarget m with
                                   | Some target => addKey keys target
                                   | None => keys
                                   end) mappings keys)
    <-> In k keys \/ exists m, In m mappings /\ activeTarget m = Some k).
  { induction mappings as [|m ms IH]; intros keys; simpl.
    - split; [auto|]. intros [H|(m & [] & _)]; exact H.
    - rewrite IH. destruct (activeTarget m) as [t|] eqn:A.
      + rewrite addKey_In. split.
        * intros [[H| ->]|(m' & Hin & E)];
            [now left|right; exists m; auto|right; exists m'; auto].
        * intros [H|(m' & [<-|Hin] & E)];
            [left; now left| |right; exists m'; auto].
          rewrite A in E. injection E as ->. left. now right.
      + split.
        * intros [H|(m' & Hin & E)]; [now left|right; exists m'; auto].
        * intros [H|(m' & [<-|Hin] & E)];
            [now left|congruence|right; exists m'; auto]. }
  rewrite G, fold_addKey_In. simpl. tauto.
Qed.

Lemma allTargetHeaders_In mappings k :
  In k (allTargetHeaders mappings) <->
  In k TARGET_HEADERS \/
  exists m, In m mappings /\ targetHeader m = Some k /\
            truthy k = true /\ isCustom m = true.
Proof.
  unfold allTargetHeaders. generalize TARGET_HEADERS as acc.
  induction mappings as [|m ms IH]; intros acc; simpl.
  - split; [auto|]. intros [H|(m & [] & _)]; exact H.
  - rewrite IH. destruct (targetHeader m) as [t|] eqn:T.
    + destruct (truthy t && isCustom m && negb (includesStr acc t)) eqn:C.
      * apply andb_true_iff in C as [C N]. apply andb_true_iff in C as [Tr Cu].
        rewrite in_app_iff. simpl. split.
        -- intros [[H|[<-|[]]]|(m' & Hin & E)];
             [now left|right; exists m; auto|right; exists m'; tauto].
        -- intros [H|(m' & [<-|Hin] & E & R)];
             [left; now left| |right; exists m'; auto].
           rewrite T in E. injection E as ->. left. right. now left.
      * split.
        -- intros [H|(m' & Hin & E)]; [now left|right; exists m'; tauto].
        -- intros [H|(m' & [<-|Hin] & E & Tr & Cu)];
             [now left| |right; exists m'; auto].
           rewrite T in E. injection E as ->. rewrite Tr, Cu in C. simpl in C.
           apply negb_false_iff, includesStr_In in C. now left.
    + split.
      * intros [H|(m' & Hin & E)]; [now left|right; exists m'; tauto].
      * intros [H|(m' & [<-|Hin] & E & R)];
          [now left|congruence|right; exists m'; auto].
Qed.

(** The columns of a cleaned row: the standard target headers, the
    targets of the custom mappings, and the targets of the mappings that
    have a source. *)
Lemma cleaned_columns mappings k :
  In k (commonKeys mappings (allTargetHeaders mappings)) <->
  In k TARGET_HEADERS \/
  exists m, In m mappings /\ targetHeader m = Some k /\ truthy k = true /\
            (isCustom m = true \/ truthy (sourceHeader m) = true).
Proof.
  rewrite commonKeys_In, allTargetHeaders_In. split.
  - intros [[H|(m & Hin & E & T & C)]|(m & Hin & A)].
    + now left.
    + right. exists m. auto.
    + apply activeTarget_Some in A as (E & T & S). right. exists m. auto.
  - intros [H|(m & Hin & E & T & [C|S])].
    + left. now left.
    + left. right. exists m. auto.
    + right. exists m. split; [exact Hin|]. now apply activeTarget_Some.
Qed.

(** ** C5 *)

(** C5, as stated, fails when no row survives.  Every target column then
    has no non-empty value in any surviving row, yet no column is counted:
    the columns are read off the first surviving row, and
    [emptyColumnsRemoved] stays at 0.  With one more row that holds an
    e-mail, the nine other standard columns are counted. *)
Lemma no_survivor_no_column_counted :
  let mappings := [ {| sourceHeader := str "mail";
                       targetHeader := Some (str "Email");
                       isCustom := false |} ] in
  let blank := [ [(str "mail", str "  ")] ] in
  let some := [ [(str "mail", str "  ")]; [(str "mail", str "a@b.co")] ] in
  plainTable blank mappings = true /\
  data (processData blank mappings) = [] /\
  emptyRowsRemoved (stats (processData blank mappings)) = 1 /\
  (forall h, In h TARGET_HEADERS ->
             columnHasData (data (processData blank mappings)) h = false) /\
  emptyColumnsRemoved (stats (processData blank mappings)) = 0 /\
  emptyColumnsRemoved (stats (processData some mappings)) = 9.
Proof. repeat split. Qed.

(** C5 (amended): on a table that indexes no object by a name inherited
    from [Object.prototype], [processData] cleans one row per input row,
    drops exactly the cleaned rows in which every value is empty or
    whitespace, counting each in [emptyRowsRemoved], and keeps the others
    in order.  Every cleaned row has the same columns, each once: the
    standard target headers, the targets of the custom mappings and the
    targets of the mappings that have a source.  When a row survives, the
    columns with no non-empty value in any surviving row are removed: the
    keys of every output row are the other columns, which keep their
    values, and [emptyColumnsRemoved] is the number of removed columns.
    When no row survives the output is empty and [emptyColumnsRemoved]
    is 0.  [totalRows] is the number of output rows. *)
Theorem processData_pruning (rows : list Row) (mappings : list HeaderMapping) :
  plainTable rows mappings = true ->
  let built := fst (builtRows rows mappings) in
  let survivors := filter hasData built in
  let out := data (processData rows mappings) in
  let s := stats (processData rows mappings) in
  List.length built = List.length rows /\
  (forall row, hasData row = false <->
               (forall k v, In (k, v) row -> trim v = [])) /\
  emptyRowsRemoved s
  = List.length (filter (fun row => negb (hasData row)) built) /\
  List.length out + emptyRowsRemoved s = List.length rows /\
  List.length out = List.length survivors /\
  (forall i row, nth_error survivors i = Some row ->
     exists row', nth_error out i = Some row' /\
       forall k, get row' k
                 = if columnHasData survivors k then get row k else None) /\
  (exists columns,
     NoDup columns /\
     (forall k, In k columns <->
        In k TARGET_HEADERS \/
        exists m, In m mappings /\ targetHeader m = Some k /\
                  truthy k = true /\
                  (isCustom m = true \/ truthy (sourceHeader m) = true)) /\
     (forall row, In row built -> map fst row = columns) /\
     (forall row', In row' out ->
        map fst row' = filter (columnHasData survivors) columns) /\
     (forall k row', In k columns -> columnHasData survivors k = false ->
                     In row' out -> get row' k = None) /\
     (survivors <> [] ->
      emptyColumnsRemoved s
      = List.length (filter (fun k => negb (columnHasData survivors k))
                            columns))) /\
  (survivors = [] -> out = [] /\ emptyColumnsRemoved s = 0) /\
  totalRows s = List.length out.
Proof.
  intros _ built survivors out s.
  assert (Eout : out = map (pruneColumns (columnsWithData survivors)) survivors)
    by apply processData_data.
  assert (Erem : emptyRowsRemoved s
                 = List.length (filter (fun row => negb (hasData row)) built))
    by apply (processData_meter MRowsRemoved).
  assert (Ecol : emptyColumnsRemoved s = List.length (emptyColumns survivors)).
  { unfold s. rewrite processData_stats. reflexivity. }
  assert (Lb : List.length built = List.length rows) by apply cleanRows_length.
  assert (Lo : List.length out = List.length survivors)
    by (rewrite Eout; apply length_map).
  assert (Kb : forall row, In row built ->
                map fst row = commonKeys mappings (allTargetHeaders mappings))
    by (intros row H; now apply builtRows_keys in H).
  assert (K : forall row, In row survivors ->
                map fst row = commonKeys mappings (allTargetHeaders mappings)).
  { intros row H. apply filter_In in H as [H _]. now apply Kb. }
  assert (G : forall row k, In row survivors ->
                get (pruneColumns (columnsWithData survivors) row) k
                = if columnHasData survivors k then get row k else None).
  { intros row k Hrow. rewrite pruneColumns_filter.
    - rewrite (get_filter_keys (includesStr (columnsWithData survivors))).
      now rewrite columnsWithData_spec.
    - rewrite (K row Hrow). apply commonKeys_NoDup. }
  split; [exact Lb|]. split; [apply hasData_false|]. split; [exact Erem|].
  split; [|split; [exact Lo|split; [|split; [|split]]]].
  - rewrite Lo, Erem, <- Lb. apply filter_split_length.
  - intros i row Hi. exists (pruneColumns (columnsWithData survivors) row).
    split; [rewrite Eout, nth_error_map, Hi; reflexivity|].
    intros k. apply G. exact (nth_error_In _ _ Hi).
  - exists (commonKeys mappings (allTargetHeaders mappings)).
    split; [apply commonKeys_NoDup|]. split; [apply cleaned_columns|].
    split; [exact Kb|]. split; [|split].
    + intros row' Hrow'. rewrite Eout in Hrow'.
      apply in_map_iff in Hrow' as (row & <- & Hrow).
      rewrite pruneColumns_filter
        by (rewrite (K row Hrow); apply commonKeys_NoDup).
      rewrite (keys_filter (includesStr (columnsWithData survivors))).
      rewrite (K row Hrow). apply filter_ext. intros k.
      apply columnsWithData_spec.
    + intros k row' _ E Hrow'. rewrite Eout in Hrow'.
      apply in_map_iff in Hrow' as (row & <- & Hrow).
      rewrite (G row k Hrow), E. reflexivity.
    + intros NE. rewrite Ecol. unfold emptyColumns.
      destruct survivors as [|r rs] eqn:Es; [congruence|].
      cbn [allColumns]. rewrite (K r (or_introl eq_refl)).
      f_equal. apply filter_ext. intros k.
      now rewrite columnsWithData_spec.
  - intros E. split; [rewrite Eout, E; reflexivity|].
    rewrite Ecol, E. reflexivity.
  - unfold s. rewrite processData_stats. cbv zeta. simpl. now rewrite Lo.
Qed.

Lemma processData_pruning_witness :
  let rows := [ [(str "mail", str " A@B.com"); (str "tel", str "n/a")];
                [(str "mail", str "  "); (str "tel", str "null")];
                [(str "mail", str "c@d.org"); (str "tel", str "-")] ] in
  let mappings := [ {| sourceHeader := str "mail";
                       targetHeader := Some (str "Email");
                       isCustom := false |};
                    {| sourceHeader := str "tel";
                       targetHeader := Some (str "Phone");
                       isCustom := false |};
                    {| sourceHeader := [];
                       targetHeader := Some (str "Nickname");
                       isCustom := true |} ] in
  let s := stats (processData rows mappings) in
  plainTable rows mappings = true /\
  emptyRowsRemoved s = 1 /\
  emptyColumnsRemoved s = 10 /\
  totalRows s = 2 /\
  (forall row', In row' (data (processData rows mappings)) ->
                map fst row' = [str "Email"]) /\
  existsb (fun t => plainTable (fst t) (snd t)) inheritedTables = false /\
  exists row',
    nth_error (data (processData rows mappings)) 1 = Some row' /\
    get row' (str "Email") = Some (str "c@d.org") /\
    get row' (str "Phone") = None /\
    get row' (str "Nickname") = None.
Proof.
  intros rows mappings s.
  destruct (processData_pruning rows mappings eq_refl)
    as (_ & _ & Removed & _ & Len & Cells & Columns & _ & Total).
  destruct Columns as (columns & _ & _ & Keys & OutKeys & _ & Count).
  pose proof (Keys (nth 0 (fst (builtRows rows mappings)) []))
    as E.
  assert (Ec : columns = TARGET_HEADERS ++ [str "Nickname"]).
  { rewrite <- E; [reflexivity|]. left. reflexivity. }
  subst columns.
  split; [reflexivity|].
  split; [|split; [|split; [|split; [|split; [reflexivity|]]]]].
  - etransitivity; [exact Removed|reflexivity].
  - etransitivity; [apply Count; discriminate|reflexivity].
  - etransitivity; [exact Total|]. etransitivity; [exact Len|reflexivity].
  - intros row' H. etransitivity; [exact (OutKeys row' H)|reflexivity].
  - destruct (Cells 1 (set (set (set (blankRow TARGET_HEADERS)
                                     (str "Nickname") [])
                                (str "Email") (str "c@d.org"))
                           (str "Phone") []))
      as (row' & Hn & Hg).
    + vm_compute. reflexivity.
    + exists row'. split; [exact Hn|].
      split; [|split]; rewrite Hg; vm_compute; reflexivity.
Defined.

(* ================================================================== *)
(** * Further properties of the engine *)
(* ================================================================== *)

(** ** Export sanitising *)

Lemma quote_not_formula v :
  existsb (fun ch => startsWith (str "'" ++ v) ch) formulaCharacters = false.
Proof. reflexivity. Qed.

Lemma formula_head c rest :
  In [c] formulaCharacters ->
  existsb (fun ch => startsWith (c :: rest) ch) formulaCharacters = true.
Proof.
  intros H. apply existsb_exists. exists [c]. split; [exact H|].
  simpl. rewrite Ascii.eqb_refl. now destruct rest.
Qed.

Lemma sanitizeForExport_head v c rest :
  sanitizeForExport v = c :: rest -> ~ In [c] formulaCharacters.
Proof.
  unfold sanitizeForExport. destruct v as [|d v]; [discriminate|]. simpl negb.
  cbv iota. destruct (existsb _ formulaCharacters) eqn:E.
  - intros [= <- _]. simpl. intuition discriminate.
  - intros [= <- <-] H. rewrite (formula_head _ _ H) in E. discriminate.
Qed.

(** X1: a sanitised value never starts with one of the formula characters
    [= + - @ tab CR]; sanitising either leaves the value as it is or puts one
    apostrophe in front of it, and sanitising twice changes nothing more. *)
Theorem sanitizeForExport_defuses (v : jsstring) :
  (forall c rest, sanitizeForExport v = c :: rest ->
                  ~ In [c] formulaCharacters) /\
  (sanitizeForExport v = v \/ sanitizeForExport v = str "'" ++ v) /\
  sanitizeForExport (sanitizeForExport v) = sanitizeForExport v.
Proof.
  split; [apply sanitizeForExport_head|]. split.
  - unfold sanitizeForExport. destruct (negb (truthy v)); [now left|].
    destruct (existsb _ formulaCharacters); [now right|now left].
  - destruct v as [|d v]; [reflexivity|].
    assert (E1 : sanitizeForExport (d :: v)
                 = if existsb (fun ch => startsWith (d :: v) ch)
                              formulaCharacters
                   then str "'" ++ d :: v else d :: v) by reflexivity.
    rewrite E1.
    destruct (existsb (fun ch => startsWith (d :: v) ch) formulaCharacters)
      eqn:E.
    + unfold sanitizeForExport. now rewrite quote_not_formula.
    + rewrite E1, ?E. reflexivity.
Qed.

Lemma sanitizeForExport_defuses_witness :
  ~ In ["'"%char] formulaCharacters /\
  sanitizeForExport (str "=SUM(A1)") = str "'=SUM(A1)".
Proof.
  split; [|reflexivity].
  apply (proj1 (sanitizeForExport_defuses (str "=SUM(A1)")) _ (str "=SUM(A1)")).
  reflexivity.
Defined.

Lemma sanitizeRow_get headers row h :
  get (sanitizeRow headers row) h =
  if includesStr headers h
  then Some (sanitizeForExport
               (if eqs h (str "Phone")
                   && truthy match get row h with Some v => v | None => [] end
                then formatPhoneNumber
                       match get row h with Some v => v | None => [] end
                else match get row h with Some v => v | None => [] end))
  else None.
Proof.
  unfold sanitizeRow.
  exact (get_fold_set
           (fun header =>
              sanitizeForExport
                (if eqs header (str "Phone")
                    && truthy match get row header with
                              | Some v0 => v0
                              | None => []
                              end
                 then formatPhoneNumber
                        match get row header with
                        | Some v0 => v0
                        | None => []
                        end
                 else match get row header with
                      | Some v0 => v0
                      | None => []
                      end)) headers [] h).
Qed.

(** X2: for requested headers none of which is a name inherited from
    [Object.prototype], [sanitizeData] exports one row per input row,
    holding exactly the requested headers: a requested header always has a
    cell (the empty string when the row lacks it), no cell starts with a
    formula character, every column but Phone holds the sanitised value of
    the row, and a header that was not requested is not a key of the
    exported row. *)
Theorem sanitizeData_cells (rows : list Row) (headers : list jsstring) :
  plainHeaders headers = true ->
  List.length (sanitizeData rows headers) = List.length rows /\
  forall i row, nth_error rows i = Some row ->
    exists exported,
      nth_error (sanitizeData rows headers) i = Some exported /\
      (forall h, In h headers ->
         exists v, get exported h = Some v /\
                   (forall c rest, v = c :: rest -> ~ In [c] formulaCharacters) /\
                   (h <> str "Phone" ->
                    v = sanitizeForExport
                          match get row h with Some x => x | None => [] end)) /\
      (forall h, ~ In h headers -> get exported h = None).
Proof.
  intros _. split; [apply length_map|].
  intros i row Hi. exists (sanitizeRow headers row). split.
  { unfold sanitizeData. now rewrite nth_error_map, Hi. }
  split.
  - intros h Hh. rewrite sanitizeRow_get.
    rewrite (proj2 (includesStr_In headers h) Hh).
    eexists. split; [reflexivity|]. split.
    + apply sanitizeForExport_head.
    + intros N. rewrite (proj2 (eqs_neq h (str "Phone")) N). reflexivity.
  - intros h Hh. rewrite sanitizeRow_get.
    destruct (includesStr headers h) eqn:E; [|reflexivity].
    apply includesStr_In in E. contradiction.
Qed.

Lemma sanitizeData_cells_witness :
  existsb plainHeaders inheritedHeaders = false /\
  plainHeaders [str "Notes"; str "Tags"] = true /\
  exists exported,
    nth_error (sanitizeData [[(str "Notes", str "-5 pts")]]
                            [str "Notes"; str "Tags"]) 0 = Some exported /\
    get exported (str "Notes") = Some (str "'-5 pts") /\
    get exported (str "Tags") = Some [] /\
    get exported (str "Email") = None.
Proof.
  split; [reflexivity|]. split; [reflexivity|].
  destruct (proj2 (sanitizeData_cells [[(str "Notes", str "-5 pts")]]
                     [str "Notes"; str "Tags"] eq_refl) 0
                  [(str "Notes", str "-5 pts")] eq_refl)
    as (exported & Hn & Hin & Hout).
  exists exported. split; [exact Hn|]. split; [|split].
  - destruct (Hin (str "Notes")) as (v & G & _ & E); [now left|].
    rewrite G, E by discriminate. reflexivity.
  - destruct (Hin (str "Tags")) as (v & G & _ & E); [right; now left|].
    rewrite G, E by discriminate. reflexivity.
  - apply Hout. intros [C|[C|[]]]; discriminate.
Defined.

(** ** Cleaning against validation *)

Lemma alias_targets_valid :
  forallb (fun kv => includesStr VALID_TIME_ZONES (snd kv)) TIMEZONE_ALIASES
  = true.
Proof. vm_compute. reflexivity. Qed.

Lemma alias_target_valid a v :
  In (a, v) TIMEZONE_ALIASES -> In v VALID_TIME_ZONES.
Proof.
  intros H. apply includesStr_In.
  exact (proj1 (forallb_forall _ _) alias_targets_valid _ H).
Qed.

Lemma cleanTimeZone_cases x :
  x <> [] ->
  In (cleanTimeZone x) VALID_TIME_ZONES \/
  (cleanTimeZone x = trim x /\ trim x <> [] /\
   matchValidTimeZone (toLowerCase (trim x)) = None).
Proof.
  intros Hx. rewrite cleanTimeZone_unfold by assumption.
  destruct (matchValidTimeZone _) as [v|] eqn:F1.
  { left. unfold matchValidTimeZone in F1. now apply find_some in F1. }
  destruct (lookup TIMEZONE_ALIASES _) as [v|] eqn:F2.
  { left. apply lookup_In in F2. now apply alias_target_valid in F2. }
  destruct (matchAliasPartial _) as [[a v]|] eqn:F3.
  { left. unfold matchAliasPartial in F3. apply find_some in F3 as [F3 _].
    now apply alias_target_valid in F3. }
  right. split; [reflexivity|]. split; [|reflexivity].
  intros E. rewrite E in F3. discriminate.
Qed.

Lemma validateTimeZone_member v :
  In v VALID_TIME_ZONES -> validateTimeZone v = true.
Proof.
  intros H. unfold validateTimeZone. destruct (negb (truthy v)); [reflexivity|].
  apply existsb_exists. exists v. split; [exact H|apply eqs_refl].
Qed.

Lemma matchValid_none_existsb l :
  matchValidTimeZone l = None ->
  existsb (fun tz => eqs (toLowerCase tz) l) VALID_TIME_ZONES = false.
Proof.
  unfold matchValidTimeZone. intros F.
  destruct (existsb _ VALID_TIME_ZONES) eqn:E; [|reflexivity].
  apply existsb_exists in E as (tz & Hin & Htz).
  now rewrite (find_none _ _ F tz Hin) in Htz.
Qed.

(** X3: for every input but those that read "constructor" or "__proto__"
    once trimmed and put in lower case, [cleanTimeZone] returns a
    canonical zone label or, failing every lookup, the trimmed input; and
    the cleaned time zone passes [validateTimeZone] exactly when it is
    empty or is, character for character, one of the canonical labels. *)
Theorem cleanTimeZone_then_validate (x : jsstring) :
  plainTimeZone x = true ->
  (cleanTimeZone x = [] \/ In (cleanTimeZone x) VALID_TIME_ZONES \/
   cleanTimeZone x = trim x) /\
  (validateTimeZone (cleanTimeZone x) = true <->
   cleanTimeZone x = [] \/ In (cleanTimeZone x) VALID_TIME_ZONES).
Proof.
  intros _.
  destruct x as [|c x]; [split; [now left|split; [now left|reflexivity]]|].
  destruct (cleanTimeZone_cases (c :: x)) as [H|(E & N & M)]; [discriminate| |].
  - split; [right; now left|]. split; [now right|].
    intros _. now apply validateTimeZone_member.
  - split; [right; now right|]. rewrite E. split.
    + unfold validateTimeZone. rewrite (proj2 (truthy_nonempty _) N).
      simpl negb. cbv iota. rewrite (matchValid_none_existsb _ M). discriminate.
    + intros [C|C]; [contradiction|]. now apply validateTimeZone_member.
Qed.

Lemma cleanTimeZone_then_validate_witness :
  existsb plainTimeZone inheritedTimeZones = false /\
  plainTimeZone (str " pst ") = true /\
  validateTimeZone (cleanTimeZone (str " pst ")) = true /\
  plainTimeZone (str "Mars") = true /\
  validateTimeZone (cleanTimeZone (str "Mars")) <> true.
Proof.
  split; [reflexivity|].
  split; [reflexivity|]. split; [|split; [reflexivity|]].
  - apply (proj2 (cleanTimeZone_then_validate (str " pst ") eq_refl)).
    right. vm_compute. tauto.
  - intros V.
    apply (proj2 (cleanTimeZone_then_validate (str "Mars") eq_refl)) in V.
    vm_compute in V. intuition discriminate.
Defined.

Lemma cleanStatus_cases x :
  x <> [] ->
  In (cleanStatus x) VALID_STATUSES \/
  (cleanStatus x = trim x /\
   existsb (fun s => eqs (toLowerCase s) (toLowerCase (trim x)))
           VALID_STATUSES = false).
Proof.
  intros Hx. unfold cleanStatus. destruct x as [|c x]; [contradiction|].
  simpl negb. cbv iota zeta.
  destruct (find _ VALID_STATUSES) as [v|] eqn:F.
  - left. now apply find_some in F.
  - right. split; [reflexivity|].
    destruct (existsb _ VALID_STATUSES) eqn:E; [|reflexivity].
    apply existsb_exists in E as (s & Hin & Hs).
    now rewrite (find_none _ _ F s Hin) in Hs.
Qed.

(** X4: [cleanStatus] returns one of Lead, Customer, VIP or the trimmed
    input; a cleaned status passes [validateStatus] exactly when it is
    empty or is literally one of the three canonical values. *)
Theorem cleanStatus_then_validate (x : jsstring) :
  (cleanStatus x = [] \/ In (cleanStatus x) VALID_STATUSES \/
   cleanStatus x = trim x) /\
  (validateStatus (cleanStatus x) = true <->
   cleanStatus x = [] \/ In (cleanStatus x) VALID_STATUSES).
Proof.
  destruct x as [|c x]; [split; [now left|split; [now left|reflexivity]]|].
  destruct (cleanStatus_cases (c :: x)) as [H|(E & M)]; [discriminate| |].
  - split; [right; now left|]. split; [now right|]. intros _.
    unfold validateStatus. destruct (negb (truthy _)); [reflexivity|].
    apply existsb_exists. exists (cleanStatus (c :: x)).
    split; [exact H|apply eqs_refl].
  - split; [right; now right|]. rewrite E. split.
    + destruct (trim (c :: x)) as [|a j] eqn:T; [now left|].
      unfold validateStatus. cbn [truthy negb]. rewrite M. discriminate.
    + intros [C|C]; [now rewrite C|].
      unfold validateStatus. destruct (negb (truthy _)); [reflexivity|].
      apply existsb_exists. exists (trim (c :: x)).
      split; [exact C|apply eqs_refl].
Qed.

(** ** Birthday components *)

(** X5: on an input whose month word, if it holds one, is not a name
    inherited from [Object.prototype] (such as "constructor"), a
    successful [parseBirthday] delivers a month and a day of exactly two
    decimal digits (zero-padded) and a year of exactly four. *)
Theorem parseBirthday_components_padded (x : jsstring) (c : BirthdayComponents) :
  plainBirthday x = true ->
  parseBirthday x = Some c ->
  (List.length (month c) = 2 /\ forallb isDigit (month c) = true) /\
  (List.length (day c) = 2 /\ forallb isDigit (day c) = true) /\
  (List.length (year c) = 4 /\ forallb isDigit (year c) = true).
Proof. intros _. apply parseBirthday_wf. Qed.

Lemma parseBirthday_components_padded_witness :
  existsb plainBirthday inheritedBirthdays = false /\
  plainBirthday (str " 7 march, 1984 ") = true /\
  List.length (month {| month := str "03"; day := str "07"; year := str "1984" |})
  = 2.
Proof.
  split; [reflexivity|]. split; [reflexivity|].
  apply (parseBirthday_components_padded (str " 7 march, 1984 "));
    reflexivity.
Defined.

(** X6: for the components parsed from an input whose month word, if it
    holds one, is not a name inherited from [Object.prototype], rendering
    them and parsing the text again is a round trip for the YYYY/MM/DD
    format; for MM/DD/YYYY it returns the same components unless the month
    exceeds 12 while the day does not, and for DD/MM/YYYY only when the
    day exceeds 12 while the month does not (otherwise month and day come
    back exchanged). *)
Theorem parse_render_round_trip (x : jsstring) (c : BirthdayComponents) :
  plainBirthday x = true ->
  parseBirthday x = Some c ->
  parseBirthday (formatBirthdayToTarget c YYYY_MM_DD) = Some c /\
  parseBirthday (formatBirthdayToTarget c MM_DD_YYYY)
  = Some (if Nat.ltb 12 (parseInt (month c)) && Nat.leb (parseInt (day c)) 12
          then {| month := day c; day := month c; year := year c |} else c) /\
  parseBirthday (formatBirthdayToTarget c DD_MM_YYYY)
  = Some (if Nat.ltb 12 (parseInt (day c)) && Nat.leb (parseInt (month c)) 12
          then c else {| month := day c; day := month c; year := year c |}).
Proof.
  intros _ P. apply parseBirthday_wf in P.
  split; [now apply reparse_YYYY|]. split; [now apply reparse_MM|].
  now apply reparse_DD.
Qed.

Lemma parse_render_round_trip_witness :
  existsb plainBirthday inheritedBirthdays = false /\
  plainBirthday (str "Jan 6 1975") = true /\
  parseBirthday (str "1975/01/06")
  = Some {| month := str "01"; day := str "06"; year := str "1975" |}.
Proof.
  split; [reflexivity|]. split; [reflexivity|].
  exact (proj1 (parse_render_round_trip (str "Jan 6 1975")
                  {| month := str "01"; day := str "06"; year := str "1975" |}
                  eq_refl eq_refl)).
Defined.

(** ** Cleaned cells carry no outer whitespace *)

Lemma join_cons_head sep c w ws :
  join sep ((c :: w) :: ws) = c :: join sep (w :: ws).
Proof. destruct ws; reflexivity. Qed.

Lemma join_splitOn p sep s :
  (forall c, p c = true -> c = sep) -> join [sep] (splitOn p s) = s.
Proof.
  intros H. induction s as [|c s IH]; [reflexivity|]. cbn [splitOn].
  destruct (p c) eqn:E.
  - destruct (splitOn p s) as [|w ws] eqn:S; [now apply splitOn_nonempty in S|].
    change (join [sep] ([] :: w :: ws)) with (sep :: join [sep] (w :: ws)).
    f_equal; [symmetry; now apply H|exact IH].
  - destruct (splitOn p s) as [|w ws] eqn:S; [now apply splitOn_nonempty in S|].
    rewrite join_cons_head. f_equal. exact IH.
Qed.

Lemma toLowerCase_toProperCase s :
  toLowerCase (toProperCase s) = toLowerCase s.
Proof.
  rewrite toProperCase_words. destruct s as [|c s]; [reflexivity|].
  simpl negb. cbv iota.
  set (ws := splitOn isBlank (toLowerCase (c :: s))).
  rewrite toLowerCase_join, map_map.
  rewrite (map_ext_in (fun w => toLowerCase (capitalize w)) (fun w => w) ws).
  - rewrite map_id. change (toLowerCase [" "%char]) with [" "%char].
    apply join_splitOn. intros d Hd. unfold isBlank in Hd.
    now apply Ascii.eqb_eq in Hd.
  - intros w Hw. apply capitalize_lower. unfold toLowerCase.
    rewrite <- (map_id w) at 2. apply map_ext_in. intros d Hd.
    destruct (splitOn_chars _ _ _ _ Hw Hd) as [Hin _].
    unfold toLowerCase in Hin. apply in_map_iff in Hin as (d0 & <- & _).
    apply lowerChar_idem.
Qed.

Lemma headOk_spaces a b :
  map isSpace a = map isSpace b -> headOk a = headOk b.
Proof.
  destruct a, b; simpl; try discriminate; [reflexivity|].
  now intros [= -> _].
Qed.

Lemma trim_fixed_iff s :
  trim s = s <-> headOk s = true /\ headOk (rev s) = true.
Proof.
  split.
  - intros E. rewrite <- E. apply trim_ends.
  - intros [H1 H2]. now apply trim_fix.
Qed.

Lemma trim_same_spaces a b :
  map isSpace a = map isSpace b -> trim b = b -> trim a = a.
Proof.
  intros E T. apply trim_fixed_iff in T as [T1 T2]. apply trim_fixed_iff.
  split.
  - now rewrite (headOk_spaces a b E).
  - rewrite (headOk_spaces (rev a) (rev b)); [assumption|].
    now rewrite !map_rev, E.
Qed.

Lemma spaces_toLowerCase s : map isSpace (toLowerCase s) = map isSpace s.
Proof.
  unfold toLowerCase. rewrite map_map. apply map_ext, isSpace_lowerChar.
Qed.

Lemma toProperCase_trimmed o : trim o = o -> trim (toProperCase o) = toProperCase o.
Proof.
  apply trim_same_spaces.
  now rewrite <- (spaces_toLowerCase (toProperCase o)), toLowerCase_toProperCase,
    spaces_toLowerCase.
Qed.

Lemma no_space_trimmed s :
  forallb (fun c => negb (isSpace c)) s = true -> trim s = s.
Proof.
  intros H. apply trim_fix.
  - destruct s as [|c s]; [reflexivity|]. simpl in *.
    now apply andb_true_iff in H as [-> _].
  - apply forallb_rev in H. destruct (rev s) as [|c r]; [reflexivity|].
    simpl in *. now apply andb_true_iff in H as [-> _].
Qed.

Lemma removeAll_none_left p s :
  forallb (fun c => negb (p c)) (removeAll p s) = true.
Proof.
  unfold removeAll. induction s as [|c s IH]; simpl; [reflexivity|].
  destruct (p c) eqn:E; simpl; [assumption|]. now rewrite E.
Qed.

Lemma digits_no_space s :
  forallb isDigit s = true -> forallb (fun c => negb (isSpace c)) s = true.
Proof.
  intros H. apply forallb_forall. intros c Hc.
  rewrite (digit_not_space c); [reflexivity|].
  exact (proj1 (forallb_forall _ _) H c Hc).
Qed.

Lemma headOk_app a b : a <> [] -> headOk (a ++ b) = headOk a.
Proof. destruct a; [congruence|reflexivity]. Qed.

Lemma join_ends sep ps :
  ps <> [] ->
  (forall p, In p ps -> p <> [] /\ headOk p = true /\ headOk (rev p) = true) ->
  join sep ps <> [] /\ headOk (join sep ps) = true /\
  headOk (rev (join sep ps)) = true.
Proof.
  induction ps as [|p ps IH]; [congruence|]. intros _ H.
  destruct (H p (or_introl eq_refl)) as (Np & Hp & Rp).
  destruct ps as [|q ps]; [simpl; auto|].
  destruct IH as (Nj & Hj & Rj); [discriminate|intros; apply H; now right|].
  change (join sep (p :: q :: ps)) with (p ++ sep ++ join sep (q :: ps)).
  split; [|split].
  - destruct p; [congruence|discriminate].
  - now rewrite headOk_app.
  - rewrite !rev_app_distr, <- app_assoc, headOk_app; [assumption|].
    intros C. apply (f_equal (@rev ascii)) in C.
    rewrite rev_involutive in C. contradiction.
Qed.

Lemma cleanTags_trimmed x : trim (cleanTags x) = cleanTags x.
Proof.
  rewrite cleanTags_pieces. apply guard_cases; [reflexivity|].
  set (ps := filter keepTag (map trim (splitOn isTagSeparator x))).
  destruct ps as [|p ps'] eqn:E; [reflexivity|]. rewrite <- E.
  destruct (join_ends ["|"%char] ps) as (_ & H1 & H2).
  - rewrite E. discriminate.
  - intros q Hq. apply filter_In in Hq as [Hq K].
    apply in_map_iff in Hq as (w & <- & _).
    split; [|apply trim_ends]. unfold keepTag in K.
    apply Nat.ltb_lt in K. destruct (trim w); [simpl in K; lia|discriminate].
  - now apply trim_fix.
Qed.

Lemma canonical_values_trimmed :
  forallb (fun v => eqs (trim v) v)
          (VALID_STATUSES ++ VALID_TIME_ZONES ++ map snd TIMEZONE_ALIASES)
  = true.
Proof. vm_compute. reflexivity. Qed.

Lemma canonical_trimmed v :
  In v (VALID_STATUSES ++ VALID_TIME_ZONES ++ map snd TIMEZONE_ALIASES) ->
  trim v = v.
Proof.
  intros H. apply eqs_eq.
  exact (proj1 (forallb_forall _ _) canonical_values_trimmed v H).
Qed.

Lemma cleanStatus_trimmed x : trim (cleanStatus x) = cleanStatus x.
Proof.
  unfold cleanStatus. apply guard_cases; [reflexivity|]. cbv zeta.
  destruct (find _ VALID_STATUSES) as [v|] eqn:F; [|apply trim_idem].
  apply find_some in F as [F _]. apply canonical_trimmed, in_or_app. now left.
Qed.

Lemma cleanTimeZone_trimmed x : trim (cleanTimeZone x) = cleanTimeZone x.
Proof.
  destruct x as [|c x]; [reflexivity|].
  destruct (cleanTimeZone_cases (c :: x)) as [H|(E & _)]; [discriminate| |].
  - apply canonical_trimmed, in_or_app. right. apply in_or_app. now left.
  - rewrite E. apply trim_idem.
Qed.

Lemma cleanBirthday_trimmed x : trim (cleanBirthday x) = cleanBirthday x.
Proof.
  unfold cleanBirthday. destruct (parseBirthday x) as [c|] eqn:P;
    [|apply trim_idem].
  apply parseBirthday_wf in P as ([Lm Hm] & [Ld Hd] & [Ly Hy]).
  destruct c as [m d y]; simpl in *.
  replace (m ++ "/"%char :: d ++ "/"%char :: y)
    with (m ++ ("/"%char :: d ++ ["/"%char]) ++ y)
    by (simpl; now rewrite <- app_assoc).
  apply trim_digit_ends; auto; lia.
Qed.

Lemma cleanStandard_trimmed target o :
  trim o = o -> trim (cleanStandard target o) = cleanStandard target o.
Proof.
  intros T. unfold cleanStandard.
  destruct (_ || _); [now apply toProperCase_trimmed|].
  destruct (eqs target (str "Email")).
  { unfold cleanEmail. apply guard_cases; [reflexivity|].
    apply no_space_trimmed, removeAll_none_left. }
  destruct (eqs target (str "Phone")).
  { unfold cleanPhone. apply guard_cases; [reflexivity|].
    apply no_space_trimmed, digits_no_space, removeAll_only_digits. }
  destruct (eqs target (str "Status")); [apply cleanStatus_trimmed|].
  destruct (eqs target (str "Tags")); [apply cleanTags_trimmed|].
  destruct (eqs target (str "Time Zone")); [apply cleanTimeZone_trimmed|].
  destruct (eqs target (str "Birthday")); [apply cleanBirthday_trimmed|].
  exact T.
Qed.

Lemma cleanCell_value_trimmed value target :
  trim (fst (cleanCell value target)) = fst (cleanCell value target).
Proof.
  unfold cleanCell. destruct (isEmptyValue value); [reflexivity|].
  destruct target as [t|]; [|apply trim_idem].
  destruct (negb (truthy t)); [apply trim_idem|]. cbn [fst].
  destruct (includesStr TARGET_HEADERS t); [|apply trim_idem].
  apply cleanStandard_trimmed, trim_idem.
Qed.

(** X7: for every raw value and target but a time zone or a birthday
    that indexes a table by a name inherited from [Object.prototype]
    ([plainCell]; the code then returns a value that is not a string, or
    the text of a function), the value [cleanCell] returns has no leading
    or trailing whitespace.  With a non-empty target it reports a
    modification exactly when that value differs from the trimmed raw
    value; without a target, exactly when a placeholder for "empty" that
    is not blank (such as n/a) was cleared. *)
Theorem cleanCell_result_trimmed (value : RawValue) (target : option jsstring) :
  plainCell value target = true ->
  trim (fst (cleanCell value target)) = fst (cleanCell value target) /\
  (target = None -> snd (cleanCell value target)
                    = isEmptyValue value && negb (eqs (trim (rawString value)) [])) /\
  (forall t, target = Some t -> truthy t = true ->
     snd (cleanCell value target)
     = negb (eqs (fst (cleanCell value target)) (trim (rawString value)))).
Proof.
  intros _. split; [|split].
  - apply cleanCell_value_trimmed.
  - intros ->. unfold cleanCell. now destruct (isEmptyValue value).
  - intros t -> T. apply (cleanCell_modified value t T).
Qed.

Lemma cleanCell_result_trimmed_witness :
  existsb (fun cell => plainCell (fst cell) (snd cell)) inheritedCells
  = false /\
  plainCell (Some (str " est ")) (Some (str "Time Zone")) = true /\
  snd (cleanCell (Some (str " est ")) (Some (str "Time Zone"))) = true /\
  snd (cleanCell (Some (str " Bob ")) (Some (str "First Name"))) = false /\
  snd (cleanCell (Some (str " n/a ")) None) = true.
Proof.
  split; [reflexivity|].
  split; [reflexivity|]. split; [|split].
  - rewrite (proj2 (proj2 (cleanCell_result_trimmed (Some (str " est "))
                             (Some (str "Time Zone")) eq_refl))
               (str "Time Zone") eq_refl eq_refl).
    reflexivity.
  - rewrite (proj2 (proj2 (cleanCell_result_trimmed (Some (str " Bob "))
                             (Some (str "First Name")) eq_refl))
               (str "First Name") eq_refl eq_refl).
    reflexivity.
  - rewrite (proj1 (proj2 (cleanCell_result_trimmed (Some (str " n/a ")) None
                             eq_refl))
               eq_refl).
    reflexivity.
Defined.

(** ** Shape of the processed table *)

Lemma set_values row k v k' v' :
  In (k', v') (set row k v) -> In (k', v') row \/ v' = v.
Proof.
  induction row as [|[k0 v0] row IH]; simpl.
  - intros [[= _ <-]|[]]. now right.
  - destruct (eqs k0 k); simpl.
    + intros [[= _ <-]|H]; [now right|left; now right].
    + intros [H|H]; [left; now left|]. destruct (IH H); [left; now right|now right].
Qed.

Lemma blankRow_values headers k v : In (k, v) (blankRow headers) -> v = [].
Proof.
  unfold blankRow.
  assert (G : forall acc, (forall k v, In (k, v) acc -> v = []) ->
              forall k v, In (k, v) (fold_left (fun r h => set r h []) headers acc) ->
                          v = []).
  { induction headers as [|h hs IH]; intros acc H k0 v0; simpl; [apply H|].
    apply IH. intros k1 v1 H1. apply set_values in H1 as [H1|H1]; [eauto|exact H1]. }
  apply G. intros ? ? [].
Qed.

Lemma processRow_values mappings headers s row k v :
  In (k, v) (fst (processRow mappings headers s row)) -> trim v = v.
Proof.
  unfold processRow.
  assert (G : forall st, (forall k v, In (k, v) (fst st) -> trim v = v) ->
              forall k v, In (k, v) (fst (fold_left (processCell row) mappings st)) ->
                          trim v = v).
  { induction mappings as [|m ms IH]; intros st H k0 v0; simpl; [apply H|].
    apply IH. intros k1 v1. unfold processCell.
    destruct (activeTarget m) as [t|]; [|apply H]. simpl.
    intros H1. apply set_values in H1 as [H1| ->]; [eauto|].
    apply cleanCell_value_trimmed. }
  apply G. simpl. intros k0 v0 H. now rewrite (blankRow_values _ _ _ H).
Qed.

Lemma cleanRows_values mappings headers rows s row k v :
  In row (fst (cleanRows mappings headers rows s)) -> In (k, v) row ->
  trim v = v.
Proof.
  revert s. induction rows as [|r rows IH]; intros s; simpl; [intros []|].
  pose proof (processRow_values mappings headers s r k v) as V.
  destruct (processRow mappings headers s r) as [cr s1].
  specialize (IH s1). destruct (cleanRows mappings headers rows s1) as [rs s2].
  simpl in *. intros [<-|H]; auto.
Qed.

Lemma In_get row k v :
  NoDup (map fst row) -> In (k, v) row -> get row k = Some v.
Proof.
  unfold get. induction row as [|[k0 v0] row IH]; simpl; [intros _ []|].
  intros ND [[= -> ->]|Hin].
  - now rewrite eqs_refl.
  - inversion ND as [|? ? Hnot ND']; subst.
    destruct (eqs k0 k) eqn:E; [|now apply IH].
    apply eqs_eq in E as ->. exfalso. apply Hnot.
    now apply (in_map fst) in Hin.
Qed.

Lemma columnHasData_intro rows row k v :
  In row rows -> In (k, v) row -> nonBlank v = true ->
  columnHasData rows k = true.
Proof.
  intros Hr Hkv N. unfold columnHasData. apply existsb_exists.
  exists row. split; [exact Hr|]. apply existsb_exists.
  exists (k, v). split; [exact Hkv|]. simpl. now rewrite eqs_refl.
Qed.

Lemma columnHasData_elim rows k :
  columnHasData rows k = true ->
  exists row v, In row rows /\ In (k, v) row /\ nonBlank v = true.
Proof.
  unfold columnHasData. intros H.
  apply existsb_exists in H as (row & Hr & H).
  apply existsb_exists in H as ([k0 v] & Hkv & H). simpl in H.
  apply andb_true_iff in H as [E N]. apply eqs_eq in E as ->.
  now exists row, v.
Qed.

(** X8: on a table that indexes no object by a name inherited from
    [Object.prototype] ([plainTable]; on others the code can fail and
    return nothing), the table [processData] returns is rectangular and
    tight: all its rows have the same distinct keys, every row holds a
    non-blank value, every column holds a non-blank value in some row, and
    no value has leading or trailing whitespace. *)
Theorem processData_output_shape (rows : list Row) (mappings : list HeaderMapping) :
  plainTable rows mappings = true ->
  let out := data (processData rows mappings) in
  (exists keys, NoDup keys /\ forall row, In row out -> map fst row = keys) /\
  (forall row, In row out -> hasData row = true) /\
  (forall row k, In row out -> In k (map fst row) ->
     exists row' v, In row' out /\ get row' k = Some v /\ nonBlank v = true) /\
  (forall row k v, In row out -> In (k, v) row -> trim v = v).
Proof.
  intros _ out.
  set (built := fst (builtRows rows mappings)).
  set (survivors := filter hasData built).
  set (cols := columnsWithData survivors).
  set (keep := fun kv : jsstring * jsstring => includesStr cols (fst kv)).
  assert (K : forall row, In row survivors ->
                map fst row = commonKeys mappings (allTargetHeaders mappings)).
  { intros row H. apply filter_In in H as [H _]. now apply builtRows_keys in H. }
  assert (Eout : out = map (filter keep) survivors).
  { unfold out. rewrite processData_data. cbv zeta. apply map_ext_in.
    intros row Hrow. apply pruneColumns_filter.
    rewrite (K row Hrow). apply commonKeys_NoDup. }
  assert (Okeys : forall row, In row out ->
            map fst row
            = filter (includesStr cols)
                     (commonKeys mappings (allTargetHeaders mappings))).
  { intros row Hrow. rewrite Eout in Hrow.
    apply in_map_iff in Hrow as (r & <- & Hr).
    unfold keep. rewrite (keys_filter (includesStr cols)), (K r Hr). reflexivity. }
  split; [|split; [|split]].
  - eexists. split; [|exact Okeys]. apply NoDup_filter, commonKeys_NoDup.
  - intros row Hrow. rewrite Eout in Hrow.
    apply in_map_iff in Hrow as (r & <- & Hr).
    pose proof (proj2 (proj1 (filter_In _ _ _) Hr)) as D.
    unfold hasData in D. apply existsb_exists in D as ([k v] & Hkv & N).
    simpl in N. unfold hasData. apply existsb_exists. exists (k, v).
    split; [|exact N]. apply filter_In. split; [exact Hkv|].
    unfold keep, cols. simpl. rewrite columnsWithData_spec.
    now apply (columnHasData_intro survivors r k v).
  - intros row k Hrow Hk. rewrite (Okeys row Hrow) in Hk.
    apply filter_In in Hk as [_ Hk]. unfold cols in Hk.
    rewrite columnsWithData_spec in Hk.
    apply columnHasData_elim in Hk as (r & v & Hr & Hkv & N).
    exists (filter keep r), v. split; [|split; [|exact N]].
    + rewrite Eout. now apply in_map.
    + apply In_get.
      * rewrite (Okeys (filter keep r)) by (rewrite Eout; now apply in_map).
        apply NoDup_filter, commonKeys_NoDup.
      * apply filter_In. split; [exact Hkv|]. unfold keep, cols. simpl.
        rewrite columnsWithData_spec.
        now apply (columnHasData_intro survivors r k v).
  - intros row k v Hrow Hkv. rewrite Eout in Hrow.
    apply in_map_iff in Hrow as (r & <- & Hr).
    apply filter_In in Hkv as [Hkv _]. apply filter_In in Hr as [Hr _].
    exact (cleanRows_values _ _ _ _ r k v Hr Hkv).
Qed.

Lemma processData_output_shape_witness :
  let rows := [ [(str "mail", str " A@B.com"); (str "tel", str "n/a")];
                [(str "mail", str "c@d.org "); (str "tel", str "")] ] in
  let mappings := [ {| sourceHeader := str "mail";
                       targetHeader := Some (str "Email");
                       isCustom := false |};
                    {| sourceHeader := str "tel";
                       targetHeader := Some (str "Phone");
                       isCustom := false |} ] in
  existsb (fun t => plainTable (fst t) (snd t)) inheritedTables = false /\
  plainTable rows mappings = true /\
  hasData [(str "Email", str "a@b.com")] = true /\
  trim (str "c@d.org") = str "c@d.org".
Proof.
  intros rows mappings. split; [reflexivity|]. split; [reflexivity|].
  destruct (processData_output_shape rows mappings eq_refl) as (_ & D & _ & T).
  split.
  - apply D. left. reflexivity.
  - apply (T [(str "Email", str "c@d.org")] (str "Email")).
    + right. left. reflexivity.
    + left. reflexivity.
Defined.

(** ** The full-name splitter keeps the words *)

Lemma removePrefix_spec words :
  exists P,
    words = P ++ fst (removePrefix words) /\
    removedWord (snd (removePrefix words)) P /\
    (forall p, snd (removePrefix words) = Some p -> In p NAME_PREFIXES).
Proof.
  unfold removePrefix. destruct words as [|w ws].
  - exists []. simpl. repeat split. discriminate.
  - destruct (find _ NAME_PREFIXES) as [p|] eqn:F; simpl.
    + apply find_some in F as [Hin E]. apply eqs_eq in E.
      exists [w]. split; [reflexivity|]. split; [now exists w|].
      now intros ? [= <-].
    + exists []. repeat split. discriminate.
Qed.

Lemma removeSuffix_spec words :
  exists S,
    words = fst (removeSuffix words) ++ S /\
    removedWord (snd (removeSuffix words)) S /\
    (forall p, snd (removeSuffix words) = Some p -> In p NAME_SUFFIXES).
Proof.
  unfold removeSuffix. destruct words as [|w ws].
  - exists []. simpl. repeat split. discriminate.
  - destruct (find _ NAME_SUFFIXES) as [p|] eqn:F; cbn [fst snd].
    + apply find_some in F as [Hin E]. apply eqs_eq in E.
      exists [last (w :: ws) []]. split; [|split].
      * apply app_removelast_last. discriminate.
      * now exists (last (w :: ws) []).
      * now intros ? [= <-].
    + exists []. rewrite app_nil_r. repeat split. discriminate.
Qed.

(** X9: [splitFullName] neither invents nor reorders words.  The words of
    the input are, in order: the removed title (if any), the words of the
    first name, a dropped middle initial (only between a one-word first and
    a one-word last name), the words of the last name, and the removed
    suffix (if any).  The first name has at most two words and is empty only
    if the last name is; a removed title or suffix is an entry of the fixed
    list equal to the word up to case. *)
Theorem splitFullName_keeps_words (fullName : jsstring) :
  let r := splitFullName fullName in
  exists P F M L S,
    fullNameWords fullName = P ++ F ++ M ++ L ++ S /\
    firstName r = join (str " ") F /\
    lastName r = join (str " ") L /\
    removedWord (removedPrefix r) P /\
    removedWord (removedSuffix r) S /\
    (M = [] \/ exists m, M = [m] /\ isMiddleInitial m = true /\
                         List.length F = 1 /\ List.length L = 1) /\
    List.length F <= 2 /\
    (F = [] -> L = []) /\
    (forall p, removedPrefix r = Some p -> In p NAME_PREFIXES) /\
    (forall p, removedSuffix r = Some p -> In p NAME_SUFFIXES).
Proof.
  intros r. subst r.
  assert (Nil : exists P F M L S : list jsstring,
            @nil jsstring = P ++ F ++ M ++ L ++ S /\
            @nil ascii = join (str " ") F /\ @nil ascii = join (str " ") L /\
            removedWord None P /\ removedWord None S /\
            (M = [] \/ exists m, M = [m] /\ isMiddleInitial m = true /\
                                 List.length F = 1 /\ List.length L = 1) /\
            List.length F <= 2 /\ (F = [] -> L = []) /\
            (forall p, @None jsstring = Some p -> In p NAME_PREFIXES) /\
            (forall p, @None jsstring = Some p -> In p NAME_SUFFIXES)).
  { exists [], [], [], [], []. simpl.
    repeat split; auto; try discriminate. }
  unfold splitFullName, fullNameWords.
  destruct fullName as [|c0 x0]; [exact Nil|].
  cbn [truthy negb]. cbv iota zeta.
  set (words := filter truthy (splitRuns isSpace false (trim (c0 :: x0)))).
  destruct words as [|w ws] eqn:EW; [exact Nil|]. rewrite <- EW.
  destruct (removePrefix_spec words) as (P & EP & RP & IP).
  destruct (removePrefix words) as [words1 rp]. cbn [fst snd] in *.
  destruct (removeSuffix_spec words1) as (S & ES & RS & IS).
  destruct (removeSuffix words1) as [words2 rs]. cbn [fst snd] in *.
  assert (Shape : forall F M L,
            words2 = F ++ M ++ L ->
            words = P ++ F ++ M ++ L ++ S).
  { intros F M L E. rewrite EP, ES, E. now rewrite <- !app_assoc. }
  destruct words2 as [|a [|b [|c [|d rest]]]];
    [exists P, [], [], [], S
    |exists P, [a], [], [], S
    |exists P, [a], [], [b], S
    |destruct (isMiddleInitial b) eqn:MI;
       [exists P, [a], [b], [c], S|exists P, [a], [], [b; c], S]
    |exists P, [a; b], [], (c :: d :: rest), S];
    cbn [firstName lastName removedPrefix removedSuffix];
    (split; [now apply Shape|]);
    repeat split; auto; try discriminate; try (simpl; lia);
    right; exists b; auto.
Qed.

(** ** Regular expressions: the matcher decides the language *)

Lemma nullable_lang r : nullable r = true <-> lang r [].
Proof.
  induction r as [| |p|a IHa b IHb|a IHa b IHb|a IHa]; simpl.
  - split; [discriminate|]. intros H. inversion H.
  - split; [constructor|reflexivity].
  - split; [discriminate|]. intros H. inversion H.
  - rewrite andb_true_iff, IHa, IHb. split.
    + intros [Ha Hb]. exact (LCat a b [] [] Ha Hb).
    + intros H. inversion H as [| |a' b' s t Ha Hb E1 E2| | | |]; subst.
      apply app_eq_nil in E2 as [-> ->]. auto.
  - rewrite orb_true_iff, IHa, IHb. split.
    + intros [H|H]; [now apply LAltL|now apply LAltR].
    + intros H. inversion H; subst; auto.
  - split; [constructor|reflexivity].
Qed.

Lemma lang_star_cons a c s :
  lang (Star a) (c :: s) ->
  exists s1 s2, s = s1 ++ s2 /\ lang a (c :: s1) /\ lang (Star a) s2.
Proof.
  intros H. remember (Star a) as r eqn:Er. remember (c :: s) as w eqn:Ew.
  revert s Ew.
  induction H as [| | | | | |a' u t Hu _ Ht IHt]; intros s0 Ew;
    try discriminate.
  injection Er as ->. destruct u as [|d u].
  - simpl in Ew. now apply IHt.
  - simpl in Ew. injection Ew as -> <-. now exists u, t.
Qed.

Lemma deriv_lang c r s : lang (deriv c r) s <-> lang r (c :: s).
Proof.
  revert s. induction r as [| |p|a IHa b IHb|a IHa b IHb|a IHa]; intros s; simpl.
  - split; intros H; inversion H.
  - split; intros H; inversion H.
  - destruct (p c) eqn:E; split; intros H.
    + inversion H; subst. now constructor.
    + inversion H; subst. constructor.
    + inversion H.
    + inversion H; subst. congruence.
  - assert (Fwd : forall u, lang (Cat (deriv c a) b) u -> lang (Cat a b) (c :: u)).
    { intros u H. inversion H as [| |a' b' s1 s2 H1 H2 E1 E2| | | |]; subst.
      apply IHa in H1. exact (LCat a b (c :: s1) s2 H1 H2). }
    assert (Bwd : forall u, lang (Cat a b) (c :: u) ->
              lang (Cat (deriv c a) b) u \/ (lang a [] /\ lang b (c :: u))).
    { intros u H. inversion H as [| |a' b' s1 s2 H1 H2 E1 E2| | | |]; subst.
      destruct s1 as [|d s1]; simpl in E2.
      - right. subst. auto.
      - injection E2 as -> <-. left. apply LCat; [now apply IHa|assumption]. }
    destruct (nullable a) eqn:N; split; intros H.
    + inversion H as [| | |? ? ? HL|? ? ? HR| |]; subst; [now apply Fwd|].
      apply nullable_lang in N. apply IHb in HR.
      exact (LCat a b [] (c :: s) N HR).
    + destruct (Bwd s H) as [H1|[_ H1]]; [now apply LAltL|].
      apply LAltR. now apply IHb.
    + now apply Fwd.
    + destruct (Bwd s H) as [H1|[H0 _]]; [assumption|].
      apply nullable_lang in H0. congruence.
  - split; intros H; inversion H as [| | |? ? ? HL|? ? ? HR| |]; subst.
    + apply LAltL. now apply IHa.
    + apply LAltR. now apply IHb.
    + apply LAltL. now apply IHa.
    + apply LAltR. now apply IHb.
  - split; intros H.
    + inversion H as [| |a' b' s1 s2 H1 H2 E1 E2| | | |]; subst.
      apply IHa in H1. exact (LStarCons a (c :: s1) s2 H1 H2).
    + apply lang_star_cons in H as (s1 & s2 & -> & H1 & H2).
      apply LCat; [now apply IHa|assumption].
Qed.

Lemma matches_lang r s : matches r s = true <-> lang r s.
Proof.
  revert r. induction s as [|c s IH]; intros r; simpl.
  - apply nullable_lang.
  - rewrite IH. apply deriv_lang.
Qed.

Lemma lang_star_class p s : lang (Star (Cls p)) s <-> forallb p s = true.
Proof.
  split.
  - intros H. remember (Star (Cls p)) as r eqn:Er.
    induction H as [| | | | | |a u t Hu _ Ht IHt]; try discriminate;
      [reflexivity|].
    injection Er as ->. inversion Hu; subst. simpl.
    rewrite IHt by reflexivity. now rewrite H0.
  - induction s as [|c s IH]; simpl; intros H; [constructor|].
    apply andb_true_iff in H as [Hc Hs].
    exact (LStarCons (Cls p) [c] s (LCls p c Hc) (IH Hs)).
Qed.

Lemma lang_plus_class p s :
  lang (plus (Cls p)) s <-> s <> [] /\ forallb p s = true.
Proof.
  unfold plus. split.
  - intros H. inversion H as [| |a b u t Hu Ht E1 E2| | | |]; subst.
    inversion Hu; subst. apply lang_star_class in Ht. simpl.
    split; [discriminate|]. now rewrite H1, Ht.
  - intros [N H]. destruct s as [|c s]; [congruence|]. simpl in H.
    apply andb_true_iff in H as [Hc Hs].
    exact (LCat (Cls p) (Star (Cls p)) [c] s (LCls p c Hc)
                (proj2 (lang_star_class p s) Hs)).
Qed.

Lemma lang_chr c s : lang (chr c) s <-> s = [c].
Proof.
  unfold chr. split.
  - intros H. inversion H; subst. now apply Ascii.eqb_eq in H1 as ->.
  - intros ->. constructor. apply Ascii.eqb_refl.
Qed.

(** ** The e-mail format *)

Lemma validateEmailFormat_shape_aux (email : jsstring) :
  validateEmailFormat email = true <->
  exists a b c,
    email = a ++ str "@" ++ b ++ str "." ++ c /\
    a <> [] /\ b <> [] /\ c <> [] /\
    forallb isEmailChar a = true /\ forallb isEmailChar b = true /\
    forallb isEmailChar c = true.
Proof.
  unfold validateEmailFormat. split.
  - destruct (negb (truthy email)); [discriminate|]. intros H.
    apply matches_lang in H. unfold emailRegex in H. cbn [cats] in H.
    inversion H as [| |? ? a r1 Ha H1 E1 E2| | | |]; subst. clear H.
    inversion H1 as [| |? ? at_ r2 Hat H2 E1 E2| | | |]; subst. clear H1.
    inversion H2 as [| |? ? b r3 Hb H3 E1 E2| | | |]; subst. clear H2.
    inversion H3 as [| |? ? dot c Hdot Hc E1 E2| | | |]; subst. clear H3.
    apply lang_chr in Hat, Hdot. subst.
    apply lang_plus_class in Ha as [Na Fa], Hb as [Nb Fb], Hc as [Nc Fc].
    exists a, b, c. repeat split; assumption.
  - intros (a & b & c & -> & Na & Nb & Nc & Fa & Fb & Fc).
    destruct a as [|a0 a]; [congruence|]. cbn [app truthy negb]. cbv iota.
    apply matches_lang. unfold emailRegex. cbn [cats].
    pose proof (proj2 (lang_plus_class isEmailChar (a0 :: a)) (conj Na Fa)) as HA.
    pose proof (proj2 (lang_plus_class isEmailChar b) (conj Nb Fb)) as HB.
    pose proof (proj2 (lang_plus_class isEmailChar c) (conj Nc Fc)) as HC.
    pose proof (proj2 (lang_chr "@" ["@"%char]) eq_refl) as HAt.
    pose proof (proj2 (lang_chr "." ["."%char]) eq_refl) as HDot.
    exact (LCat _ _ (a0 :: a) (["@"%char] ++ b ++ ["."%char] ++ c) HA
             (LCat _ _ ["@"%char] (b ++ ["."%char] ++ c) HAt
                (LCat _ _ b (["."%char] ++ c) HB
                   (LCat _ _ ["."%char] c HDot HC)))).
Qed.

(** X10: [validateEmailFormat] accepts exactly the strings of the form
    local@domain.tail whose three parts are non-empty and contain neither
    whitespace nor "@" (the domain and the tail may contain further dots);
    in particular the empty string is rejected. *)
Theorem validateEmailFormat_shape (email : jsstring) :
  validateEmailFormat email = true <->
  exists a b c,
    email = a ++ str "@" ++ b ++ str "." ++ c /\
    a <> [] /\ b <> [] /\ c <> [] /\
    forallb isEmailChar a = true /\ forallb isEmailChar b = true /\
    forallb isEmailChar c = true.
Proof. apply validateEmailFormat_shape_aux. Qed.

Lemma validateEmailFormat_shape_witness :
  validateEmailFormat (str "ann.lee@mail.example.org") = true /\
  exists a b c,
    str "x@y.z" = a ++ str "@" ++ b ++ str "." ++ c /\
    a <> [] /\ b <> [] /\ c <> [] /\
    forallb isEmailChar a = true /\ forallb isEmailChar b = true /\
    forallb isEmailChar c = true.
Proof.
  split.
  - apply (proj2 (validateEmailFormat_shape (str "ann.lee@mail.example.org"))).
    exists (str "ann.lee"), (str "mail.example"), (str "org").
    split; [reflexivity|].
    split; [discriminate|]. split; [discriminate|]. split; [discriminate|].
    split; [reflexivity|]. split; reflexivity.
  - apply (proj1 (validateEmailFormat_shape (str "x@y.z"))). reflexivity.
Defined.

Lemma emailChar_lower c : isEmailChar (lowerChar c) = isEmailChar c.
Proof. all_chars c. Qed.

Lemma emailChar_not_space c : isEmailChar c = true -> isSpace c = false.
Proof. all_chars c. Qed.

Lemma forallb_lower_email s :
  forallb isEmailChar s = true -> forallb isEmailChar (toLowerCase s) = true.
Proof.
  unfold toLowerCase. induction s as [|c s IH]; simpl; [reflexivity|].
  intros H. apply andb_true_iff in H as [Hc Hs].
  now rewrite emailChar_lower, Hc, IH.
Qed.

Lemma removeAll_nothing p s :
  forallb (fun c => negb (p c)) s = true -> removeAll p s = s.
Proof.
  unfold removeAll. induction s as [|c s IH]; simpl; [reflexivity|].
  intros H. apply andb_true_iff in H as [Hc Hs]. rewrite Hc. now rewrite IH.
Qed.

(** X11: an address that passes [validateEmailFormat] contains no
    whitespace; cleaning it only lower-cases it, and the cleaned address
    passes the validation again. *)
Theorem valid_email_survives_cleaning (email : jsstring) :
  validateEmailFormat email = true ->
  forallb (fun c => negb (isSpace c)) email = true /\
  cleanEmail email = toLowerCase email /\
  validateEmailFormat (cleanEmail email) = true.
Proof.
  intros V.
  destruct (proj1 (validateEmailFormat_shape_aux email) V)
    as (a & b & c & -> & Na & Nb & Nc & Fa & Fb & Fc).
  assert (NS : forallb (fun c => negb (isSpace c))
                       (a ++ str "@" ++ b ++ str "." ++ c) = true).
  { assert (G : forall s, forallb isEmailChar s = true ->
                          forallb (fun c => negb (isSpace c)) s = true).
    { intros s H. apply forallb_forall. intros d Hd.
      rewrite (emailChar_not_space d); [reflexivity|].
      exact (proj1 (forallb_forall _ _) H d Hd). }
    rewrite !forallb_app, (G a), (G b), (G c) by assumption. reflexivity. }
  assert (CE : cleanEmail (a ++ str "@" ++ b ++ str "." ++ c)
               = toLowerCase (a ++ str "@" ++ b ++ str "." ++ c)).
  { unfold cleanEmail. destruct a as [|a0 a]; [congruence|].
    cbn [app truthy negb]. cbv iota. apply removeAll_nothing.
    unfold toLowerCase. rewrite forallb_forall. intros d Hd.
    apply in_map_iff in Hd as (d0 & <- & Hd0). rewrite isSpace_lowerChar.
    exact (proj1 (forallb_forall _ _) NS d0 Hd0). }
  split; [exact NS|]. split; [exact CE|]. rewrite CE.
  apply validateEmailFormat_shape_aux.
  exists (toLowerCase a), (toLowerCase b), (toLowerCase c).
  unfold toLowerCase at 1. rewrite !map_app.
  split; [reflexivity|].
  split; [destruct a; [congruence|discriminate]|].
  split; [destruct b; [congruence|discriminate]|].
  split; [destruct c; [congruence|discriminate]|].
  split; [|split]; now apply forallb_lower_email.
Qed.

Lemma valid_email_survives_cleaning_witness :
  cleanEmail (str "Ann.Lee@Example.ORG") = toLowerCase (str "Ann.Lee@Example.ORG").
Proof.
  apply (valid_email_survives_cleaning (str "Ann.Lee@Example.ORG")). reflexivity.
Defined.

(** ** Row validation *)

Lemma fieldBlank_trimmed row k :
  fieldBlank row k = negb (truthy (trimmedField row k)).
Proof.
  unfold fieldBlank, trimmedField. destruct (get row k) as [v|]; [|reflexivity].
  destruct v as [|c v]; [reflexivity|]. simpl negb at 1. simpl orb.
  destruct (trim (c :: v)); reflexivity.
Qed.

Lemma fieldInvalid_blank validate row k :
  fieldInvalid validate row k
  = negb (fieldBlank row k) && negb (validate (rawString (get row k))).
Proof.
  unfold fieldInvalid, fieldBlank. destruct (get row k) as [v|]; [|reflexivity].
  simpl rawString. destruct (truthy v); simpl; [|reflexivity].
  now destruct (eqs (trim v) []).
Qed.

Lemma missing_nonempty (rq : bool) (f : jsstring -> bool) x a b c :
  Nat.ltb 0 (List.length ((if rq then [x] else []) ++ filter f [a; b; c]))
  = rq || f a || f b || f c.
Proof. simpl. destruct rq, (f a), (f b), (f c); reflexivity. Qed.

Lemma hasIssue_clean row index :
  hasIssue (validateRow row index) = negb (rowIsClean row).
Proof.
  unfold hasIssue, validateRow, rowIsClean.
  cbn [missingFields invalidEmail invalidStatus invalidTimeZone missingTimeZone
       firstNameTooLong lastNameTooLong].
  rewrite missing_nonempty, !fieldInvalid_blank.
  rewrite !(Nat.leb_antisym MAX_NAME_LENGTH).
  rewrite <- (fieldBlank_trimmed row (str "First Name")).
  generalize (fieldBlank row (str "First Name")) as b1.
  generalize (fieldBlank row (str "Last Name")) as b2.
  generalize (fieldBlank row (str "Email")) as b3.
  generalize (fieldBlank row (str "Phone")) as b4.
  generalize (fieldBlank row (str "Status")) as b5.
  generalize (fieldBlank row (str "Time Zone")) as b6.
  generalize (Nat.ltb MAX_NAME_LENGTH
                (List.length (trimmedField row (str "First Name")))) as l1.
  generalize (Nat.ltb MAX_NAME_LENGTH
                (List.length (trimmedField row (str "Last Name")))) as l2.
  generalize (validateEmailFormat (rawString (get row (str "Email")))) as v1.
  generalize (validateStatus (rawString (get row (str "Status")))) as v2.
  generalize (validateTimeZone (rawString (get row (str "Time Zone")))) as v3.
  intros v3 v2 v1 l2 l1 b6 b5 b4 b3 b2 b1.
  destruct v3, v2, v1, l2, l1, b6, b5, b4, b3, b2, b1; reflexivity.
Qed.

Lemma selectFrom_spec pred rows start i :
  In i (selectFrom pred rows start) <->
  exists j row, i = start + j /\ nth_error rows j = Some row /\ pred row = true.
Proof.
  revert start i. induction rows as [|r rows IH]; intros start i; simpl.
  - split; [intros []|]. intros (j & row & _ & H & _). destruct j; discriminate.
  - destruct (pred r) eqn:E; simpl; rewrite ?IH; split.
    + intros [<-|(j & row & -> & Hn & Hp)].
      * exists 0, r. split; [lia|split; [reflexivity|exact E]].
      * exists (S j), row. split; [lia|split; assumption].
    + intros ([|j] & row & -> & Hn & Hp).
      * left. lia.
      * right. exists j, row. split; [lia|split; assumption].
    + intros (j & row & -> & Hn & Hp). exists (S j), row.
      split; [lia|split; assumption].
    + intros ([|j] & row & -> & Hn & Hp).
      * simpl in Hn. injection Hn as <-. congruence.
      * exists j, row. split; [lia|split; assumption].
Qed.

Lemma validateFrom_spec rows start w :
  In w (validateFrom rows start) <->
  exists j row, nth_error rows j = Some row /\
                w = validateRow row (start + j) /\ hasIssue w = true.
Proof.
  revert start. induction rows as [|r rows IH]; intros start; simpl.
  - split; [intros []|]. intros (j & row & H & _). destruct j; discriminate.
  - assert (Tail : (exists j row, nth_error rows j = Some row /\
                       w = validateRow row (S start + j) /\ hasIssue w = true)
                   -> exists j row, nth_error (r :: rows) j = Some row /\
                       w = validateRow row (start + j) /\ hasIssue w = true).
    { intros (j & row & Hn & -> & Hi). exists (S j), row.
      replace (start + S j) with (S start + j) by lia. auto. }
    destruct (hasIssue (validateRow r start)) eqn:E; simpl; rewrite ?IH; split.
    + intros [<-|H]; [|now apply Tail].
      exists 0, r. rewrite Nat.add_0_r. auto.
    + intros ([|j] & row & Hn & -> & Hi).
      * left. simpl in Hn. injection Hn as <-. now rewrite Nat.add_0_r.
      * right. exists j, row. replace (S start + j) with (start + S j) by lia.
        auto.
    + apply Tail.
    + intros ([|j] & row & Hn & -> & Hi).
      * simpl in Hn. injection Hn as <-. rewrite Nat.add_0_r in Hi. congruence.
      * exists j, row. replace (S start + j) with (start + S j) by lia. auto.
Qed.

Lemma validateFrom_sorted rows start :
  StronglySorted lt (map rowIndex (validateFrom rows start)) /\
  Forall (fun i => start <= i) (map rowIndex (validateFrom rows start)).
Proof.
  revert start. induction rows as [|r rows IH]; intros start; simpl.
  - split; constructor.
  - destruct (IH (S start)) as [S1 F1].
    assert (F2 : Forall (fun i => start <= i)
                        (map rowIndex (validateFrom rows (S start)))).
    { eapply Forall_impl; [|exact F1]. simpl. intros; lia. }
    destruct (hasIssue (validateRow r start)); simpl; [|now split].
    split; constructor; auto.
Qed.

(** X12: [validateRows] reports, in ascending row order and at most once
    each, exactly the rows that have an issue, and omits the others.  A row
    is omitted exactly when its first and last names are present and at
    most 26 characters long, its e-mail is present and well-formed, its
    phone is present, its status is blank or valid, and its time zone is
    present and canonical. *)
Theorem validateRows_reports_issues (rows : list Row) :
  (forall w, In w (validateRows rows) <->
             exists i row, nth_error rows i = Some row /\
                           w = validateRow row i /\ hasIssue w = true) /\
  StronglySorted lt (map rowIndex (validateRows rows)) /\
  (forall i row, nth_error rows i = Some row ->
     ((exists w, In w (validateRows rows) /\ rowIndex w = i)
      <-> rowIsClean row = false)).
Proof.
  split; [|split].
  - intros w. apply (validateFrom_spec rows 0 w).
  - apply validateFrom_sorted.
  - intros i row Hi. split.
    + intros (w & Hw & Ew). apply (validateFrom_spec rows 0) in Hw
        as (j & r & Hj & -> & Hiss). simpl in Ew. subst j.
      rewrite Hi in Hj. injection Hj as <-.
      rewrite hasIssue_clean in Hiss. now apply negb_true_iff in Hiss.
    + intros C. exists (validateRow row i). split; [|reflexivity].
      apply (validateFrom_spec rows 0). exists i, row.
      split; [exact Hi|]. split; [reflexivity|].
      rewrite hasIssue_clean, C. reflexivity.
Qed.

Lemma validateRows_reports_issues_witness :
  let good := [ (str "First Name", str "Ann"); (str "Last Name", str "Lee");
                (str "Email", str "ann@x.org"); (str "Phone", str "5551234");
                (str "Time Zone", str "Paris") ] in
  let bad := [ (str "First Name", str "Bob") ] in
  exists w, In w (validateRows [good; bad]) /\ rowIndex w = 1.
Proof.
  intros good bad.
  apply (proj2 (proj2 (validateRows_reports_issues [good; bad])) 1 bad eq_refl).
  reflexivity.
Defined.

(** X13: within one diagnostic the flags are consistent: "First Name" is
    listed as missing exactly when [firstNameRequired] is set, and then
    [firstNameTooLong] is not; [missingTimeZone] and [invalidTimeZone] are
    never both set; a field listed as missing is not also flagged as
    invalid; and [missingFields] lists only First Name, Email, Phone and
    Last Name, each at most once. *)
Theorem validateRow_flags_consistent (row : Row) (index : nat) :
  let w := validateRow row index in
  (firstNameRequired w = true <-> In (str "First Name") (missingFields w)) /\
  (firstNameRequired w = true -> firstNameTooLong w = false) /\
  (missingTimeZone w = true -> invalidTimeZone w = false) /\
  (In (str "Email") (missingFields w) -> invalidEmail w = false) /\
  NoDup (missingFields w) /\
  incl (missingFields w)
       [str "First Name"; str "Email"; str "Phone"; str "Last Name"].
Proof.
  intros w. subst w. unfold validateRow.
  cbn [firstNameRequired firstNameTooLong missingTimeZone invalidTimeZone
       invalidEmail missingFields filter].
  rewrite fieldInvalid_blank.
  set (rq := negb (truthy (trimmedField row (str "First Name")))).
  set (bE := fieldBlank row (str "Email")).
  set (bP := fieldBlank row (str "Phone")).
  set (bL := fieldBlank row (str "Last Name")).
  set (bT := fieldBlank row (str "Time Zone")).
  split; [|split; [|split; [|split; [|split]]]].
  - destruct rq, bE, bP, bL; simpl; split; auto; try discriminate;
      intros H; repeat (destruct H as [H|H]; [discriminate H|]); destruct H.
  - now intros ->.
  - now intros ->.
  - destruct bE; [reflexivity|].
    destruct rq, bP, bL; simpl; intros H;
      repeat (destruct H as [H|H]; [discriminate H|]); destruct H.
  - destruct rq, bE, bP, bL; simpl;
      repeat (constructor; [simpl; intuition discriminate|]); constructor.
  - destruct rq, bE, bP, bL; intros x H; simpl in H |- *; tauto.
Qed.

Lemma validateRow_flags_consistent_witness :
  firstNameTooLong (validateRow [(str "First Name", str "  ")] 0) = false.
Proof.
  exact (proj1 (proj2 (validateRow_flags_consistent
                         [(str "First Name", str "  ")] 0)) eq_refl).
Defined.

Lemma validateStatus_trimmed v : validateStatus v = true -> trim v = v.
Proof.
  unfold validateStatus. destruct v as [|c v]; [reflexivity|].
  cbn [truthy negb]. intros H. apply existsb_exists in H as (s & Hs & E).
  apply eqs_eq in E.
  apply (trim_same_spaces _ s).
  - rewrite <- (spaces_toLowerCase (c :: v)), <- E. apply spaces_toLowerCase.
  - assert (T : forallb (fun s => eqs (trim s) s) VALID_STATUSES = true)
      by (vm_compute; reflexivity).
    rewrite forallb_forall in T. apply eqs_eq. now apply T.
Qed.

Lemma selected_is_flagged (pred : Row -> bool) (flag : RowValidation -> Prop)
      (rows : list Row) (i : nat) :
  (forall row j, flag (validateRow row j) <-> pred row = true) ->
  (forall row, pred row = true -> rowIsClean row = false) ->
  In i (selectFrom pred rows 0) <->
  exists w, In w (validateRows rows) /\ rowIndex w = i /\ flag w.
Proof.
  intros Hflag Hissue. rewrite selectFrom_spec. split.
  - intros (j & row & -> & Hn & Hp). exists (validateRow row j).
    split; [|split; [reflexivity|now apply Hflag]].
    apply (validateFrom_spec rows 0). exists j, row.
    split; [exact Hn|]. split; [reflexivity|].
    rewrite hasIssue_clean, (Hissue _ Hp). reflexivity.
  - intros (w & Hw & <- & Hf).
    apply (validateFrom_spec rows 0) in Hw as (j & row & Hn & -> & _).
    exists j, row. split; [reflexivity|]. split; [exact Hn|].
    now apply (Hflag row j).
Qed.

Lemma rowIsClean_fields row :
  rowIsClean row = true ->
  fieldBlank row (str "First Name") = false /\
  Nat.ltb MAX_NAME_LENGTH (List.length (trimmedField row (str "First Name")))
    = false /\
  fieldBlank row (str "Last Name") = false /\
  Nat.ltb MAX_NAME_LENGTH (List.length (trimmedField row (str "Last Name")))
    = false /\
  fieldBlank row (str "Email") = false /\
  validateEmailFormat (rawString (get row (str "Email"))) = true /\
  fieldBlank row (str "Phone") = false /\
  (fieldBlank row (str "Status") = true \/
   validateStatus (rawString (get row (str "Status"))) = true) /\
  fieldBlank row (str "Time Zone") = false /\
  validateTimeZone (rawString (get row (str "Time Zone"))) = true.
Proof.
  unfold rowIsClean. rewrite !andb_true_iff, !negb_true_iff, orb_true_iff.
  rewrite !Nat.leb_le, !Nat.ltb_ge. tauto.
Qed.

Lemma trimmedField_blank row k :
  fieldBlank row k = true -> trimmedField row k = [].
Proof.
  rewrite fieldBlank_trimmed, negb_true_iff.
  now destruct (trimmedField row k).
Qed.

(** X14: the row selectors agree with the diagnostics of [validateRows]:
    a row index is listed by [getRowsWithMissingTimezone] exactly when the
    row is reported with [missingTimeZone]; by [getRowsWithNameTooLong]
    exactly when it is reported with [firstNameTooLong] or
    [lastNameTooLong]; by [findMissingEmails] exactly when it is reported
    with "Email" among its missing fields.  [getRowsWithInvalidStatus]
    tests the trimmed status while [validateRows] tests the status as it
    stands: every index it lists is reported with [invalidStatus], and a
    reported row it does not list carries a status with outer whitespace
    whose trimmed form is valid. *)
Theorem selectors_agree_with_validateRows (rows : list Row) (i : nat) :
  let reported flag :=
    exists w, In w (validateRows rows) /\ rowIndex w = i /\ flag w in
  (In i (getRowsWithMissingTimezone rows)
   <-> reported (fun w => missingTimeZone w = true)) /\
  (In i (getRowsWithNameTooLong rows)
   <-> reported (fun w => firstNameTooLong w = true
                          \/ lastNameTooLong w = true)) /\
  (In i (findMissingEmails rows)
   <-> reported (fun w => In (str "Email") (missingFields w))) /\
  (In i (getRowsWithInvalidStatus rows)
   -> reported (fun w => invalidStatus w = true)) /\
  (reported (fun w => invalidStatus w = true) ->
   ~ In i (getRowsWithInvalidStatus rows) ->
   exists row v, nth_error rows i = Some row /\
                 get row (str "Status") = Some v /\
                 trim v <> v /\ validateStatus (trim v) = true).
Proof.
  intros reported. subst reported. cbv beta.
  split; [|split; [|split; [|split]]].
  - apply selected_is_flagged.
    + intros row j. reflexivity.
    + intros row H. destruct (rowIsClean row) eqn:C; [|reflexivity].
      apply rowIsClean_fields in C. intuition congruence.
  - apply selected_is_flagged.
    + intros row j. unfold validateRow.
      cbn [firstNameTooLong lastNameTooLong].
      rewrite orb_true_iff, andb_true_iff, negb_true_iff, negb_false_iff.
      destruct (trimmedField row (str "First Name")) eqn:F;
        cbn [truthy List.length]; [|tauto].
      split; [intros [[C _]|H]|intros [C|H]]; auto; discriminate C.
    + intros row H. destruct (rowIsClean row) eqn:C; [|reflexivity].
      apply rowIsClean_fields in C. apply orb_true_iff in H.
      intuition congruence.
  - apply selected_is_flagged.
    + intros row j. unfold validateRow. cbn [missingFields filter].
      destruct (negb (truthy (trimmedField row (str "First Name"))));
        destruct (fieldBlank row (str "Email")),
                 (fieldBlank row (str "Phone")),
                 (fieldBlank row (str "Last Name")); simpl;
        split; auto; try discriminate;
        intros H; repeat (destruct H as [H|H]; [discriminate H|]); destruct H.
    + intros row H. destruct (rowIsClean row) eqn:C; [|reflexivity].
      apply rowIsClean_fields in C. intuition congruence.
  - unfold getRowsWithInvalidStatus. rewrite selectFrom_spec.
    intros (j & row & -> & Hn & Hp). exists (validateRow row j).
    assert (Hf : invalidStatus (validateRow row j) = true).
    { unfold validateRow. cbn [invalidStatus]. unfold fieldInvalid.
      destruct (get row (str "Status")) as [v|]; [|discriminate].
      cbv zeta in Hp. apply andb_true_iff in Hp as [Hp Hv].
      apply andb_true_iff in Hp as [Ht Hne].
      rewrite Hne, andb_true_r.
      destruct v as [|c v]; [discriminate|]. cbn [truthy andb].
      apply negb_true_iff in Hv. apply negb_true_iff.
      destruct (validateStatus (c :: v)) eqn:V; [|reflexivity].
      rewrite (validateStatus_trimmed _ V) in Hv. congruence. }
    split; [|split; [reflexivity|exact Hf]].
    apply (validateFrom_spec rows 0). exists j, row.
    split; [exact Hn|]. split; [reflexivity|].
    unfold hasIssue. rewrite Hf, !orb_true_r. reflexivity.
  - intros (w & Hw & <- & Hf) Hnot.
    apply (validateFrom_spec rows 0) in Hw as (j & row & Hn & -> & _).
    cbn [rowIndex validateRow] in Hnot |- *.
    change (0 + j) with j in Hnot |- *. exists row.
    unfold validateRow in Hf. cbn [invalidStatus] in Hf.
    unfold fieldInvalid in Hf.
    destruct (get row (str "Status")) as [v|] eqn:G; [|discriminate].
    exists v. split; [exact Hn|]. split; [reflexivity|].
    apply andb_true_iff in Hf as [Hf Hv].
    apply andb_true_iff in Hf as [Ht Hne].
    apply negb_true_iff in Hv.
    assert (V : validateStatus (trim v) = true).
    { destruct (validateStatus (trim v)) eqn:V; [reflexivity|].
      exfalso. apply Hnot. unfold getRowsWithInvalidStatus.
      apply selectFrom_spec. exists j, row.
      split; [reflexivity|]. split; [exact Hn|].
      rewrite G. cbv zeta. rewrite Hne, V.
      apply negb_true_iff, eqs_neq in Hne.
      destruct (trim v); [congruence|reflexivity]. }
    split; [|exact V]. intros E. rewrite E in V. congruence.
Qed.

Lemma selectors_agree_with_validateRows_witness :
  exists w, In w (validateRows [[(str "Status", str "bogus")]])
            /\ rowIndex w = 0 /\ invalidStatus w = true.
Proof.
  apply (proj1 (proj2 (proj2 (proj2
           (selectors_agree_with_validateRows
              [[(str "Status", str "bogus")]] 0))))).
  vm_compute. left. reflexivity.
Defined.

(** ** CSV lines *)

Lemma includes_char s c :
  includes s [c] = existsb (fun d => Ascii.eqb d c) s.
Proof.
  induction s as [|d s IH]; [reflexivity|].
  cbn [includes startsWith existsb]. rewrite IH.
  destruct s; now rewrite andb_true_r.
Qed.

Lemma includes_char_false s c d :
  includes s [c] = false -> In d s -> Ascii.eqb d c = false.
Proof.
  rewrite includes_char. intros H Hd.
  destruct (Ascii.eqb d c) eqn:E; [|reflexivity].
  rewrite <- H. symmetry. apply existsb_exists. now exists d.
Qed.

Lemma parseCSVFrom_plain v tail result current :
  (forall c, In c v -> Ascii.eqb c dquote = false /\ Ascii.eqb c comma = false) ->
  parseCSVFrom (v ++ tail) result current false
  = parseCSVFrom tail result (current ++ v) false.
Proof.
  revert current. induction v as [|c v IH]; intros current H.
  - now rewrite app_nil_r.
  - destruct (H c (or_introl eq_refl)) as [Hq Hc].
    cbn [app parseCSVFrom]. rewrite Hq, Hc. cbn [andb].
    rewrite IH by (intros; apply H; now right).
    now rewrite <- app_assoc.
Qed.

Lemma parseCSVFrom_quoted v tail result current :
  startsWith tail [dquote] = false ->
  parseCSVFrom (doubleQuotes v ++ dquote :: tail) result current true
  = parseCSVFrom tail result (current ++ v) false.
Proof.
  intros Htail. revert current. induction v as [|c v IH]; intros current.
  - rewrite app_nil_r. cbn [doubleQuotes flat_map app parseCSVFrom].
    rewrite Ascii.eqb_refl. destruct tail as [|next rest]; [reflexivity|].
    cbn [startsWith] in Htail.
    replace (startsWith rest []) with true in Htail by now destruct rest.
    rewrite andb_true_r in Htail. rewrite Htail. reflexivity.
  - cbn [doubleQuotes flat_map]. fold (doubleQuotes v).
    destruct (Ascii.eqb c dquote) eqn:E.
    + apply Ascii.eqb_eq in E as ->.
      cbn [app parseCSVFrom]. rewrite Ascii.eqb_refl. cbn [andb].
      rewrite IH, <- app_assoc. reflexivity.
    + cbn [app parseCSVFrom]. rewrite E, andb_false_r.
      rewrite IH, <- app_assoc. reflexivity.
Qed.

Lemma parseCSVFrom_escaped v tail result current :
  startsWith tail [dquote] = false ->
  parseCSVFrom (escapeCSV v ++ tail) result current false
  = parseCSVFrom tail result (current ++ v) false.
Proof.
  intros Htail. unfold escapeCSV.
  destruct (includes v [comma] || includes v [dquote] || includes v [newline])
    eqn:E.
  - cbn [app parseCSVFrom]. rewrite Ascii.eqb_refl, <- app_assoc.
    cbn [app andb negb].
    rewrite <- (parseCSVFrom_quoted v tail result current Htail).
    now destruct (doubleQuotes v ++ dquote :: tail).
  - apply orb_false_iff in E as [E _]. apply orb_false_iff in E as [Ec Eq].
    apply parseCSVFrom_plain. intros c Hc. split.
    + exact (includes_char_false _ _ _ Eq Hc).
    + exact (includes_char_false _ _ _ Ec Hc).
Qed.

Lemma parseCSVFrom_join v vs result :
  parseCSVFrom (join [comma] (map escapeCSV (v :: vs))) result [] false
  = result ++ map trim (v :: vs).
Proof.
  revert v result. induction vs as [|v' vs IH]; intros v result.
  - cbn [map join]. rewrite <- (app_nil_r (escapeCSV v)).
    now rewrite parseCSVFrom_escaped.
  - change (join [comma] (map escapeCSV (v :: v' :: vs)))
      with (escapeCSV v ++ comma :: join [comma] (map escapeCSV (v' :: vs))).
    rewrite parseCSVFrom_escaped by reflexivity.
    cbn [parseCSVFrom app]. change (Ascii.eqb comma dquote) with false.
    cbv iota. rewrite Ascii.eqb_refl. cbn [andb negb].
    rewrite IH, <- app_assoc. reflexivity.
Qed.

Lemma parseCSVLine_join (values : list jsstring) :
  values <> [] ->
  parseCSVLine (join [comma] (map escapeCSV values)) = map trim values.
Proof.
  destruct values as [|v vs]; [congruence|]. intros _.
  apply (parseCSVFrom_join v vs []).
Qed.

(** X15: a line written by [generateCSV] is read back by [parseCSVLine]:
    joining the escaped fields with commas and parsing the line gives the
    fields back, each trimmed, whatever characters they hold (commas,
    quotes, line feeds).  Without any field the line is empty and is read
    as one empty field. *)
Theorem parseCSVLine_escapeCSV (values : list jsstring) :
  (values <> [] ->
   parseCSVLine (join [comma] (map escapeCSV values)) = map trim values) /\
  (values = [] ->
   parseCSVLine (join [comma] (map escapeCSV values)) = [[]]).
Proof.
  split; [apply parseCSVLine_join|]. intros ->. reflexivity.
Qed.

Lemma parseCSVLine_escapeCSV_witness :
  parseCSVLine (join [comma] (map escapeCSV [str "Doe, Jane"; str " x "]))
  = [str "Doe, Jane"; str "x"].
Proof.
  apply (proj1 (parseCSVLine_escapeCSV [str "Doe, Jane"; str " x "])).
  discriminate.
Defined.

(** ** CSV files *)

Lemma trimStart_app_keep s u :
  trimStart s <> [] -> trimStart (s ++ u) = trimStart s ++ u.
Proof.
  induction s as [|c s IH]; simpl; [congruence|].
  destruct (isSpace c); [exact IH|reflexivity].
Qed.

Lemma trimStart_app_blank s u :
  trimStart s = [] -> trimStart (s ++ u) = trimStart u.
Proof.
  induction s as [|c s IH]; simpl; [reflexivity|].
  destruct (isSpace c); [exact IH|discriminate].
Qed.

Lemma trim_app_space s c : isSpace c = true -> trim (s ++ [c]) = trim s.
Proof.
  intros Hc. unfold trim, trimEnd. destruct (trimStart s) as [|d t] eqn:E.
  - rewrite (trimStart_app_blank _ _ E). simpl. now rewrite Hc.
  - rewrite trimStart_app_keep by (rewrite E; discriminate).
    rewrite E, rev_app_distr. simpl rev at 1. cbn [app trimStart].
    now rewrite Hc.
Qed.

Lemma trimStart_In s c : In c s -> isSpace c = false -> In c (trimStart s).
Proof.
  intros H Hc. induction s as [|d s IH]; [destruct H|]. simpl.
  destruct (isSpace d) eqn:Hd; [|exact H].
  destruct H as [->|H]; [congruence|auto].
Qed.

Lemma trim_nonblank s c : In c s -> isSpace c = false -> truthy (trim s) = true.
Proof.
  intros H Hc. assert (I : In c (trim s)).
  { unfold trim, trimEnd. apply -> in_rev. apply trimStart_In; [|exact Hc].
    apply -> in_rev. now apply trimStart_In. }
  now destruct (trim s).
Qed.

Lemma parseCSVFrom_return n : forall line result current inQuotes,
  List.length line <= n ->
  parseCSVFrom (line ++ [creturn]) result current inQuotes
  = parseCSVFrom line result current inQuotes.
Proof.
  induction n as [|n IH]; intros line result current inQuotes Hn.
  - destruct line; [|simpl in Hn; lia].
    cbn. now rewrite (trim_app_space current creturn eq_refl).
  - destruct line as [|char rest].
    + cbn. now rewrite (trim_app_space current creturn eq_refl).
    + simpl in Hn. cbn [app parseCSVFrom].
      destruct (Ascii.eqb char dquote).
      * destruct rest as [|next rest'].
        -- cbn [app]. change (Ascii.eqb creturn dquote) with false.
           rewrite andb_false_r. apply (IH [] _ _ _). simpl. lia.
        -- cbn [app]. destruct (inQuotes && Ascii.eqb next dquote).
           ++ apply IH. simpl in Hn. lia.
           ++ apply (IH (next :: rest')). simpl in Hn |- *. lia.
      * destruct (Ascii.eqb char comma && negb inQuotes); apply IH; lia.
Qed.

Lemma dropReturn_cases piece :
  dropReturn piece = piece \/ piece = dropReturn piece ++ [creturn].
Proof.
  unfold dropReturn. destruct (rev piece) as [|c t] eqn:E; [now left|].
  destruct (Ascii.eqb c creturn) eqn:Ec; [|now left].
  right. apply Ascii.eqb_eq in Ec as ->.
  rewrite <- (rev_involutive piece), E. reflexivity.
Qed.

Lemma parseCSVLine_dropReturn piece :
  parseCSVLine (dropReturn piece) = parseCSVLine piece.
Proof.
  destruct (dropReturn_cases piece) as [->|E]; [reflexivity|].
  rewrite E at 2. unfold parseCSVLine. symmetry.
  now apply (parseCSVFrom_return (List.length (dropReturn piece))).
Qed.

Lemma nonblank_dropReturn piece :
  truthy (trim (dropReturn piece)) = truthy (trim piece).
Proof.
  destruct (dropReturn_cases piece) as [->|E]; [reflexivity|].
  rewrite E at 2. now rewrite trim_app_space.
Qed.

Lemma dropReturns_parse pieces :
  map parseCSVLine (dropReturns pieces) = map parseCSVLine pieces.
Proof.
  induction pieces as [|piece rest IH]; [reflexivity|].
  destruct rest as [|piece' rest]; [reflexivity|].
  change (dropReturns (piece :: piece' :: rest))
    with (dropReturn piece :: dropReturns (piece' :: rest)).
  cbn [map] in IH |- *. now rewrite parseCSVLine_dropReturn, IH.
Qed.

Lemma dropReturns_nonblank pieces :
  forallb (fun line => truthy (trim line)) pieces = true ->
  filter (fun line => truthy (trim line)) (dropReturns pieces)
  = dropReturns pieces.
Proof.
  induction pieces as [|piece rest IH]; [reflexivity|].
  intros H. cbn [forallb] in H. apply andb_true_iff in H as [H1 H2].
  destruct rest as [|piece' rest]; [cbn; now rewrite H1|].
  change (dropReturns (piece :: piece' :: rest))
    with (dropReturn piece :: dropReturns (piece' :: rest)).
  cbn [filter]. rewrite nonblank_dropReturn, H1, (IH H2). reflexivity.
Qed.

Lemma doubleQuotes_chars v c : In c (doubleQuotes v) -> c = dquote \/ In c v.
Proof.
  unfold doubleQuotes. rewrite in_flat_map. intros (d & Hd & H).
  destruct (Ascii.eqb d dquote) eqn:E.
  - left. destruct H as [<-|[<-|[]]]; reflexivity.
  - right. destruct H as [<-|[]]. exact Hd.
Qed.

Lemma escapeCSV_no_newline v : ~ In newline v -> ~ In newline (escapeCSV v).
Proof.
  intros H. unfold escapeCSV.
  destruct (includes v [comma] || includes v [dquote] || includes v [newline]);
    [|exact H].
  intros [C|C]; [discriminate C|].
  apply in_app_or in C as [C|[C|[]]]; [|discriminate C].
  apply doubleQuotes_chars in C as [C|C]; [discriminate C|auto].
Qed.

Lemma join_no_char (c sep : ascii) ws :
  c <> sep -> (forall w, In w ws -> ~ In c w) -> ~ In c (join [sep] ws).
Proof.
  intros Hsep. induction ws as [|w ws IH]; intros H; [intros []|].
  destruct ws as [|w' ws]; [apply H; now left|].
  change (join [sep] (w :: w' :: ws)) with (w ++ sep :: join [sep] (w' :: ws)).
  intros C. apply in_app_or in C as [C|[C|C]].
  - now apply (H w (or_introl eq_refl)).
  - congruence.
  - revert C. apply IH. intros; apply H; now right.
Qed.

Lemma csv_line_no_newline values :
  (forall v, In v values -> ~ In newline v) ->
  ~ In newline (join [comma] (map escapeCSV values)).
Proof.
  intros H. apply join_no_char; [discriminate|].
  intros w Hw. apply in_map_iff in Hw as (v & <- & Hv).
  apply escapeCSV_no_newline. now apply H.
Qed.

Lemma csv_line_nonblank values :
  2 <= List.length values ->
  truthy (trim (join [comma] (map escapeCSV values))) = true.
Proof.
  intros H. apply (trim_nonblank _ comma); [|reflexivity].
  destruct values as [|a [|b values]]; simpl in H; try lia.
  change (join [comma] (map escapeCSV (a :: b :: values)))
    with (escapeCSV a ++ comma :: join [comma] (map escapeCSV (b :: values))).
  apply in_or_app. right. now left.
Qed.

Lemma rowOfValues_fold (f g : jsstring -> jsstring) headers pre row :
  rowOfValues (map f headers) (List.length pre) (pre ++ map g headers) row
  = fold_left (fun r h => set r (f h) (g h)) headers row.
Proof.
  revert pre row. induction headers as [|h hs IH]; intros pre row;
    [reflexivity|].
  cbn [map rowOfValues fold_left].
  rewrite nth_error_app2, Nat.sub_diag by lia. cbn [nth_error rawString].
  replace (pre ++ g h :: map g hs) with ((pre ++ [g h]) ++ map g hs)
    by now rewrite <- app_assoc.
  replace (S (List.length pre)) with (List.length (pre ++ [g h]))
    by (rewrite length_app; simpl; lia).
  apply IH.
Qed.

Lemma fold_set_ext (f g f' g' : jsstring -> jsstring) headers row :
  (forall h, In h headers -> f h = f' h /\ g h = g' h) ->
  fold_left (fun r h => set r (f h) (g h)) headers row
  = fold_left (fun r h => set r (f' h) (g' h)) headers row.
Proof.
  revert row. induction headers as [|h hs IH]; intros row H; [reflexivity|].
  cbn [fold_left]. destruct (H h (or_introl eq_refl)) as [-> ->].
  apply IH. intros; apply H; now right.
Qed.

Lemma sanitizeRow_refold headers row :
  fold_left (fun r h => set r h (cell (sanitizeRow headers row) h)) headers []
  = sanitizeRow headers row.
Proof.
  unfold sanitizeRow at 2.
  apply (fold_set_ext (fun h => h) _ (fun h => h)).
  intros h Hh. split; [reflexivity|].
  unfold cell, sanitizeRow. rewrite get_fold_set.
  rewrite (proj2 (includesStr_In headers h) Hh). reflexivity.
Qed.

Lemma parseCSV_lines first others :
  forallb (fun line => truthy (trim line)) (first :: others) = true ->
  (forall line, In line (first :: others) -> ~ In newline line) ->
  parseCSV (join [newline] (first :: others))
  = (parseCSVLine first,
     map (fun line => rowOfValues (parseCSVLine first) 0 (parseCSVLine line) [])
         others).
Proof.
  intros Hnb Hnl. unfold parseCSV, splitLines.
  rewrite splitOn_join; [|reflexivity|discriminate|].
  2:{ intros w c Hw Hc. destruct (Ascii.eqb newline c) eqn:E; [|reflexivity].
      apply Ascii.eqb_eq in E as <-. now apply Hnl in Hw. }
  rewrite (dropReturns_nonblank _ Hnb).
  pose proof (dropReturns_parse (first :: others)) as P.
  destruct (dropReturns (first :: others)) as [|first' others'];
    [discriminate P|].
  cbn [map] in P. injection P as P1 P2. rewrite P1. f_equal.
  rewrite <- (map_map parseCSVLine
                (fun values => rowOfValues (parseCSVLine first) 0 values [])).
  rewrite P2. now rewrite map_map.
Qed.

Lemma csv_rows_read_back (data : list Row) (headers : list jsstring) :
  2 <= List.length headers ->
  (forall h, In h headers -> ~ In newline h) ->
  (forall row h, In row (sanitizeData data headers) -> In h headers ->
                 ~ In newline (cell row h)) ->
  parseCSV (generateCSV data headers)
  = (map trim headers,
     map (fun row =>
            fold_left (fun r h => set r (trim h) (trim (cell row h)))
                      headers [])
         (sanitizeData data headers)).
Proof.
  intros H2 Hh Hc.
  assert (Hd : headers <> [])
    by (destruct headers; [simpl in H2; lia|discriminate]).
  unfold generateCSV. rewrite parseCSV_lines.
  - rewrite (parseCSVLine_join headers Hd). f_equal.
    rewrite map_map. apply map_ext. intros row. unfold csvLine.
    rewrite <- (map_map (cell row) escapeCSV).
    rewrite (parseCSVLine_join (map (cell row) headers))
      by (destruct headers; [congruence|discriminate]).
    rewrite (map_map (cell row) trim).
    apply (rowOfValues_fold trim (fun h => trim (cell row h)) headers [] []).
  - cbn [forallb]. rewrite csv_line_nonblank by exact H2. cbn [andb].
    apply forallb_forall. intros line Hl.
    apply in_map_iff in Hl as (row & <- & _). unfold csvLine.
    rewrite <- (map_map (cell row) escapeCSV).
    apply csv_line_nonblank. now rewrite length_map.
  - intros line [<-|Hl].
    + now apply csv_line_no_newline.
    + apply in_map_iff in Hl as (row & <- & Hr). unfold csvLine.
      rewrite <- (map_map (cell row) escapeCSV).
      apply csv_line_no_newline. intros v Hv.
      apply in_map_iff in Hv as (h & <- & Hin). now apply Hc.
Qed.

Lemma csv_rows_refold (data : list Row) (headers : list jsstring) :
  (forall h, In h headers -> trim h = h) ->
  (forall row h, In row (sanitizeData data headers) -> In h headers ->
                 trim (cell row h) = cell row h) ->
  (map trim headers,
   map (fun row =>
          fold_left (fun r h => set r (trim h) (trim (cell row h)))
                    headers [])
       (sanitizeData data headers))
  = (headers, sanitizeData data headers).
Proof.
  intros Th Tc. f_equal.
  - rewrite <- (map_id headers) at 2. apply map_ext_in. exact Th.
  - rewrite <- (map_id (sanitizeData data headers)) at 2.
    apply map_ext_in. intros row Hr.
    pose proof Hr as Hr'. unfold sanitizeData in Hr.
    apply in_map_iff in Hr as (row0 & <- & Hr0).
    etransitivity; [|apply sanitizeRow_refold].
    apply (fold_set_ext trim _ (fun h => h)).
    intros h Hin. split; [now apply Th|]. now apply Tc.
Qed.

(** X16: a CSV file written by [generateCSV] is read back by the CSV
    branch of [parseFile].  With at least two headers, none of which is,
    as written or trimmed, a name inherited from [Object.prototype] (for
    such a header the code can fail in [generateCSV], or read back a row
    without the key), and no line feed inside a header or an exported
    cell, the headers come back trimmed and every exported row comes back
    with its keys and cells trimmed; when headers and exported cells are
    already trimmed the result is exactly the headers and the rows of
    [sanitizeData]. *)
Theorem parseCSV_generateCSV (data : list Row) (headers : list jsstring) :
  let exported := sanitizeData data headers in
  plainHeaders headers = true ->
  plainHeaders (map trim headers) = true ->
  2 <= List.length headers ->
  (forall h, In h headers -> ~ In newline h) ->
  (forall row h, In row exported -> In h headers ->
                 ~ In newline (cell row h)) ->
  parseCSV (generateCSV data headers)
  = (map trim headers,
     map (fun row =>
            fold_left (fun r h => set r (trim h) (trim (cell row h)))
                      headers [])
         exported)
  /\ ((forall h, In h headers -> trim h = h) ->
      (forall row h, In row exported -> In h headers ->
                     trim (cell row h) = cell row h) ->
      parseCSV (generateCSV data headers) = (headers, exported)).
Proof.
  intros exported _ _ H2 Hh Hc. subst exported.
  pose proof (csv_rows_read_back data headers H2 Hh Hc) as G.
  split; [exact G|].
  intros Th Tc. rewrite G. now apply csv_rows_refold.
Qed.

Lemma parseCSV_generateCSV_witness :
  existsb plainHeaders inheritedHeaders = false /\
  plainHeaders (map trim [str "Email"; str " __proto__ "]) = false /\
  parseCSV (generateCSV [[(str "Email", str "=a,b"); (str "Phone", str "1")]]
                        [str "Email"; str "Phone"])
  = ([str "Email"; str "Phone"],
     sanitizeData [[(str "Email", str "=a,b"); (str "Phone", str "1")]]
                  [str "Email"; str "Phone"]).
Proof.
  split; [reflexivity|]. split; [reflexivity|].
  apply (parseCSV_generateCSV
           [[(str "Email", str "=a,b"); (str "Phone", str "1")]]
           [str "Email"; str "Phone"]).
  - reflexivity.
  - reflexivity.
  - simpl. lia.
  - intros h [<-|[<-|[]]]; vm_compute; intuition discriminate.
  - intros row h [<-|[]] [<-|[<-|[]]]; vm_compute; intuition discriminate.
  - intros h [<-|[<-|[]]]; reflexivity.
  - intros row h [<-|[]] [<-|[<-|[]]]; reflexivity.
Defined.

(** ** Address components *)

Import Address.

Lemma insertByOrder_In c l x : In x (insertByOrder c l) <-> x = c \/ In x l.
Proof.
  induction l as [|d l IH]; simpl; [intuition|].
  destruct (Nat.leb (order c) (order d)); simpl; [intuition|].
  rewrite IH. intuition.
Qed.

Lemma insertByOrder_perm c l : Permutation (c :: l) (insertByOrder c l).
Proof.
  induction l as [|d l IH]; simpl; [reflexivity|].
  destruct (Nat.leb (order c) (order d)); [reflexivity|].
  rewrite perm_swap. now apply perm_skip.
Qed.

Lemma sortByOrder_perm l : Permutation l (sortByOrder l).
Proof.
  induction l as [|c l IH]; simpl; [reflexivity|].
  rewrite <- insertByOrder_perm. now apply perm_skip.
Qed.

Lemma insertByOrder_sorted c l :
  StronglySorted (fun a b => order a <= order b) l ->
  StronglySorted (fun a b => order a <= order b) (insertByOrder c l).
Proof.
  induction l as [|d l IH]; intros S; simpl.
  - repeat constructor.
  - inversion S as [|? ? S' F]; subst.
    destruct (Nat.leb (order c) (order d)) eqn:E.
    + apply Nat.leb_le in E. constructor; [assumption|].
      constructor; [assumption|].
      eapply Forall_impl; [|exact F]. simpl. intros; lia.
    + apply Nat.leb_gt in E. constructor; [now apply IH|].
      apply Forall_forall. intros x Hx. apply insertByOrder_In in Hx as [->|Hx].
      * lia.
      * rewrite Forall_forall in F. now apply F.
Qed.

Lemma sortByOrder_sorted l :
  StronglySorted (fun a b => order a <= order b) (sortByOrder l).
Proof.
  induction l as [|c l IH]; simpl; [constructor|].
  now apply insertByOrder_sorted.
Qed.

Lemma sortByOrder_fixed l :
  StronglySorted (fun a b => order a <= order b) l -> sortByOrder l = l.
Proof.
  induction l as [|c l IH]; intros S; [reflexivity|].
  inversion S as [|? ? S' F]; subst. simpl. rewrite (IH S').
  destruct l as [|d l]; [reflexivity|]. simpl.
  inversion F as [|? ? Hd _]; subst.
  apply Nat.leb_le in Hd. now rewrite Hd.
Qed.

Lemma insertByOrder_filter k c l :
  filter (fun x => Nat.eqb (order x) k) (insertByOrder c l)
  = filter (fun x => Nat.eqb (order x) k) (c :: l).
Proof.
  induction l as [|d l IH]; [reflexivity|].
  cbn [insertByOrder]. destruct (Nat.leb (order c) (order d)) eqn:E;
    [reflexivity|].
  apply Nat.leb_gt in E. cbn [filter] in IH |- *. rewrite IH.
  destruct (Nat.eqb (order c) k) eqn:Ec; [|reflexivity].
  apply Nat.eqb_eq in Ec.
  destruct (Nat.eqb (order d) k) eqn:Ed; [|reflexivity].
  apply Nat.eqb_eq in Ed. lia.
Qed.

Lemma sortByOrder_filter k l :
  filter (fun x => Nat.eqb (order x) k) (sortByOrder l)
  = filter (fun x => Nat.eqb (order x) k) l.
Proof.
  induction l as [|c l IH]; [reflexivity|].
  cbn [sortByOrder fold_right]. fold (sortByOrder l).
  rewrite insertByOrder_filter. cbn [filter]. now rewrite IH.
Qed.

Lemma componentOf_spec header c :
  componentOf header = Some c ->
  sourceHeader c = header /\
  exists p, In p patterns /\ role c = patternRole p /\
            order c = patternOrder p /\
            matches (regex p) (trim header) = true.
Proof.
  unfold componentOf.
  destruct (find _ patterns) as [p|] eqn:F; [|discriminate].
  intros [= <-]. apply find_some in F as [Hin Hm].
  split; [reflexivity|]. now exists p.
Qed.

Lemma detected_In headers c :
  In c (flat_map (fun header => match componentOf header with
                                | Some c => [c]
                                | None => []
                                end) headers)
  <-> exists header, In header headers /\ componentOf header = Some c.
Proof.
  rewrite in_flat_map. split; intros (h & Hh & H); exists h; split; auto.
  - destruct (componentOf h); [|destruct H]. destruct H as [<-|[]].
    reflexivity.
  - rewrite H. now left.
Qed.

Lemma detected_filter k headers :
  map sourceHeader
      (filter (fun x => Nat.eqb (order x) k)
              (flat_map (fun header => match componentOf header with
                                       | Some c => [c]
                                       | None => []
                                       end) headers))
  = filter (fun header => match componentOf header with
                          | Some c => Nat.eqb (order c) k
                          | None => false
                          end) headers.
Proof.
  induction headers as [|h hs IH]; [reflexivity|].
  cbn [flat_map]. rewrite filter_app, map_app, IH. cbn [filter].
  destruct (componentOf h) as [c|] eqn:E; [|reflexivity].
  apply componentOf_spec in E as [E _]. cbn [filter].
  destruct (Nat.eqb (order c) k); [|reflexivity].
  cbn [map app]. now rewrite E.
Qed.

Lemma detected_length headers :
  List.length (flat_map (fun header => match componentOf header with
                                       | Some c => [c]
                                       | None => []
                                       end) headers)
  <= List.length headers.
Proof.
  induction headers as [|h hs IH]; [simpl; lia|].
  cbn [flat_map]. rewrite length_app.
  destruct (componentOf h); simpl; lia.
Qed.

(** X17: [detectAddressComponentColumns] returns at most one component
    per header, each for a header of the list whose trimmed form matches
    the pattern that gives the component its role and order; every header
    that matches a pattern has its component.  The components are sorted by
    order, components of equal order stay in the order of their headers,
    and sorting the result again leaves it as it is. *)
Theorem detectAddressComponentColumns_sorted (headers : list jsstring) :
  let found := detectAddressComponentColumns headers in
  (forall c, In c found <->
             exists header, In header headers /\ componentOf header = Some c) /\
  (forall c, In c found ->
     In (sourceHeader c) headers /\
     exists p, In p patterns /\ role c = patternRole p /\
               order c = patternOrder p /\
               matches (regex p) (trim (sourceHeader c)) = true) /\
  List.length found <= List.length headers /\
  StronglySorted (fun a b => order a <= order b) found /\
  (forall k, map sourceHeader (filter (fun c => Nat.eqb (order c) k) found)
             = filter (fun header => match componentOf header with
                                     | Some c => Nat.eqb (order c) k
                                     | None => false
                                     end) headers) /\
  sortByOrder found = found.
Proof.
  intros found. subst found. unfold detectAddressComponentColumns.
  set (raw := flat_map _ headers).
  assert (In_found : forall c, In c (sortByOrder raw) <->
            exists header, In header headers /\ componentOf header = Some c).
  { intros c. rewrite <- detected_In. fold raw. split; intros H.
    - eapply Permutation_in; [symmetry; apply sortByOrder_perm|exact H].
    - eapply Permutation_in; [apply sortByOrder_perm|exact H]. }
  split; [exact In_found|]. split; [|split; [|split; [|split]]].
  - intros c Hc. apply In_found in Hc as (h & Hh & E).
    apply componentOf_spec in E as (E & p & Hp). rewrite E. now split; [|exists p].
  - rewrite <- (Permutation_length (sortByOrder_perm raw)).
    apply detected_length.
  - apply sortByOrder_sorted.
  - intros k. rewrite sortByOrder_filter. apply detected_filter.
  - apply sortByOrder_fixed, sortByOrder_sorted.
Qed.

Lemma detectAddressComponentColumns_sorted_witness :
  In (str "Zip Code")
     (map sourceHeader
          (detectAddressComponentColumns [str "Zip Code"; str "Name"; str "city"])).
Proof.
  apply in_map_iff.
  exists {| sourceHeader := str "Zip Code"; role := zip; order := 5 |}.
  split; [reflexivity|].
  apply (proj1 (detectAddressComponentColumns_sorted
                  [str "Zip Code"; str "Name"; str "city"])).
  exists (str "Zip Code"). split; [now left|reflexivity].
Defined.









Lemma commaRun_shorter s rest :
  commaRun s = Some rest -> List.length rest < List.length s.
Proof.
  destruct s as [|c t]; [discriminate|]. simpl.
  destruct (Ascii.eqb c ","); [|discriminate].
  destruct (trimStart_split t) as (ws & E & _).
  destruct (trimStart t) as [|d r]; [discriminate|].
  destruct (Ascii.eqb d ","); [|discriminate]. intros [= <-].
  rewrite E, length_app. simpl. lia.
Qed.

Lemma collapseCommasFuel_enough fuel s :
  List.length s < fuel -> collapseCommasFuel fuel s = collapseCommas s.
Proof.
  unfold collapseCommas.
  assert (G : forall n s f1 f2, List.length s < n -> List.length s < f1 ->
              List.length s < f2 ->
              collapseCommasFuel f1 s = collapseCommasFuel f2 s).
  { clear. induction n as [|n IH]; intros s f1 f2 Hn H1 H2; [lia|].
    destruct f1 as [|f1]; [lia|]. destruct f2 as [|f2]; [lia|].
    destruct s as [|c t]; [reflexivity|].
    cbn [collapseCommasFuel]. destruct (commaRun (c :: t)) as [rest|] eqn:E.
    - apply commaRun_shorter in E. f_equal. apply IH; simpl in *; lia.
    - f_equal. apply IH; simpl in *; lia. }
  intros H. apply (G (S (List.length s))); lia.
Qed.













(** ** Sample values *)

Lemma candidate_cases (row : Row) header :
  (exists v, get row header = Some v /\ isEmptyValue (Some v) = false /\
             rawTruthy (get row header) && negb (isEmptyValue (get row header))
             = true /\ truthy (trim v) = true)
  \/ (rawTruthy (get row header) && negb (isEmptyValue (get row header)) = false
      /\ forall v, get row header = Some v -> isEmptyValue (Some v) = true).
Proof.
  destruct (get row header) as [v|]; [|right; split; [reflexivity|discriminate]].
  destruct (isEmptyValue (Some v)) eqn:E.
  - right. split; [apply andb_false_r|]. now intros ? [= <-].
  - left. exists v. split; [reflexivity|]. split; [exact E|].
    assert (T : truthy (trim v) = true).
    { unfold isEmptyValue in E. cbv zeta in E.
      destruct (trim v); [discriminate E|reflexivity]. }
    split; [|exact T]. cbn [rawTruthy negb]. rewrite andb_true_r.
    destruct v; [discriminate T|reflexivity].
Qed.

Lemma sampleFrom_prefix rows header n acc :
  exists ext, sampleFrom rows header n acc = acc ++ ext.
Proof.
  revert acc. induction rows as [|row rows IH]; intros acc;
    [exists []; now rewrite app_nil_r|].
  cbn [sampleFrom]. destruct (Nat.leb n (List.length acc));
    [exists []; now rewrite app_nil_r|].
  cbv zeta. destruct (rawTruthy _ && negb _); [|apply IH].
  destruct (truthy _ && negb _); [|apply IH].
  destruct (IH (acc ++ [shorten (trim (rawString (get row header)))]))
    as (ext & E).
  rewrite E, <- app_assoc. now eexists.
Qed.

Lemma sampleFrom_length rows header n acc :
  List.length acc <= n -> List.length (sampleFrom rows header n acc) <= n.
Proof.
  revert acc. induction rows as [|row rows IH]; intros acc L; [exact L|].
  cbn [sampleFrom]. destruct (Nat.leb n (List.length acc)) eqn:E; [exact L|].
  apply Nat.leb_gt in E. cbv zeta.
  destruct (rawTruthy _ && negb _); [|now apply IH].
  destruct (truthy _ && negb _); [|now apply IH].
  apply IH. rewrite length_app. simpl. lia.
Qed.

Lemma sampleFrom_from rows header n acc s :
  In s (sampleFrom rows header n acc) -> In s acc \/ isSample rows header s.
Proof.
  assert (W : forall row rows s, isSample rows header s ->
                                 isSample (row :: rows) header s).
  { intros row0 rows0 s0 (r & v & Hr & H). exists r, v. split; [now right|exact H]. }
  revert acc. induction rows as [|row rows IH]; intros acc H; [now left|].
  cbn [sampleFrom] in H. destruct (Nat.leb n (List.length acc)); [now left|].
  cbv zeta in H. destruct (candidate_cases row header)
    as [(v & G & Ev & C & T)|[C _]]; rewrite C in H.
  - rewrite G in H. cbn [rawString] in H.
    destruct (truthy _ && negb _).
    + apply IH in H as [H|H]; [|right; now apply W].
      apply in_app_or in H as [H|[<-|[]]]; [now left|].
      right. exists row, v. split; [now left|]. now repeat split.
    + apply IH in H as [H|H]; [now left|right; now apply W].
  - apply IH in H as [H|H]; [now left|right; now apply W].
Qed.

Lemma shorten_short s : List.length s <= 30 -> shorten s = s.
Proof.
  intros L. unfold shorten. apply Nat.ltb_ge in L. now rewrite L.
Qed.

Lemma shorten_shape s :
  truthy s = true -> trim s = s ->
  1 <= List.length (shorten s) <= 30 /\ trim (shorten s) = shorten s.
Proof.
  intros T E. unfold shorten. destruct (Nat.ltb 30 (List.length s)) eqn:L.
  - apply Nat.ltb_lt in L. split.
    + rewrite length_app, length_firstn.
      change (List.length (str "...")) with 3. lia.
    + apply trim_fixed_iff in E as [Hd _]. apply trim_fix.
      * destruct s as [|c s]; [discriminate T|]. exact Hd.
      * rewrite rev_app_distr. reflexivity.
  - apply Nat.ltb_ge in L. split; [|exact E].
    destruct s; [discriminate T|]. simpl in *. lia.
Qed.

Lemma sampleFrom_NoDup rows header n acc :
  (forall row v, In row rows -> get row header = Some v ->
                 List.length (trim v) <= 30) ->
  NoDup acc -> NoDup (sampleFrom rows header n acc).
Proof.
  revert acc. induction rows as [|row rows IH]; intros acc S ND; [exact ND|].
  assert (S' : forall r v, In r rows -> get r header = Some v ->
                           List.length (trim v) <= 30)
    by (intros r v Hr; apply S; now right).
  cbn [sampleFrom]. destruct (Nat.leb n (List.length acc)); [exact ND|].
  cbv zeta. destruct (candidate_cases row header)
    as [(v & G & Ev & C & T)|[C _]]; rewrite C; [|now apply IH].
  rewrite G. cbn [rawString]. rewrite T. cbn [andb].
  destruct (includesStr acc (trim v)) eqn:I; cbn [negb]; [now apply IH|].
  apply IH; [exact S'|].
  rewrite shorten_short by (apply (S row); [now left|exact G]).
  apply NoDup_app; [exact ND|repeat constructor; intros []|].
  intros x Hx [<-|[]]. apply includesStr_In in Hx. congruence.
Qed.

Lemma sampleFrom_complete rows header n acc :
  Forall (fun s => List.length s <= 30) acc ->
  List.length (sampleFrom rows header n acc) < n ->
  forall s, isSample rows header s -> In s (sampleFrom rows header n acc).
Proof.
  revert acc. induction rows as [|row rows IH]; intros acc B L s Hs.
  - destruct Hs as (r & _ & [] & _).
  - cbn [sampleFrom] in L |- *. revert L.
    match goal with
    | |- context [Nat.leb n ?l] => destruct (Nat.leb n l) eqn:E
    end; [apply Nat.leb_le in E; lia|].
    intros L. cbv zeta in L |- *.
    assert (Keep : isSample rows header s ->
                   In s (if rawTruthy (get row header)
                            && negb (isEmptyValue (get row header))
                         then if truthy (trim (rawString (get row header)))
                                 && negb (includesStr acc
                                            (trim (rawString (get row header))))
                              then sampleFrom rows header n
                                     (acc ++ [shorten (trim (rawString
                                                               (get row header)))])
                              else sampleFrom rows header n acc
                         else sampleFrom rows header n acc)).
    { intros Hs'. destruct (candidate_cases row header)
        as [(v & G & Ev & C & T)|[C _]]; rewrite C in L |- *; [|now apply IH].
      rewrite G in L |- *. cbn [rawString] in L |- *.
      destruct (truthy _ && negb _); [|now apply IH].
      apply IH; [|exact L|exact Hs'].
      apply Forall_app. split; [exact B|]. constructor; [|constructor].
      apply shorten_shape; [exact T|apply trim_idem]. }
    destruct Hs as (r & w & [<-|Hr] & Gw & Ew & ->);
      [|apply Keep; exists r, w; now repeat split].
    clear Keep.
    destruct (candidate_cases row header) as [(v & G & Ev & C & T)|[C A]];
      [|rewrite (A w Gw) in Ew; discriminate].
    rewrite G in Gw. injection Gw as <-.
    rewrite C. rewrite G. cbn [rawString]. rewrite T. cbn [andb].
    destruct (includesStr acc (trim v)) eqn:I; cbn [negb].
    + match goal with
      | |- In _ (sampleFrom ?a ?b ?c ?d) =>
          destruct (sampleFrom_prefix a b c d) as (ext & P)
      end.
      rewrite P. apply in_or_app. left. apply includesStr_In in I.
      rewrite Forall_forall in B. now rewrite (shorten_short _ (B _ I)).
    + match goal with
      | |- In _ (sampleFrom ?a ?b ?c ?d) =>
          destruct (sampleFrom_prefix a b c d) as (ext & P)
      end.
      rewrite P. apply in_or_app. left. apply in_or_app. right. now left.
Qed.

(** X20: for a header that is not a name inherited from
    [Object.prototype] (under such a header the code can find an inherited
    member in a row that does not hold the column), [getSampleValues]
    returns at most [maxSamples] samples.  Each is
    taken from a value of the column that is not empty (nor a placeholder
    such as n/a or null): the trimmed value, or its first 27 characters
    followed by three dots when it is longer than 30; so a sample has
    between 1 and 30 characters and no outer white space.  When fewer than
    [maxSamples] samples come back, every such value of the column has its
    sample in the result; and when no trimmed value of the column is longer
    than 30 characters, the samples are pairwise distinct. *)
Theorem getSampleValues_bounds (rows : list Row) (header : jsstring)
        (maxSamples : nat) :
  inheritedName header = false ->
  let samples := getSampleValues rows header maxSamples in
  List.length samples <= maxSamples /\
  (forall s, In s samples ->
     isSample rows header s /\
     1 <= List.length s <= 30 /\ trim s = s) /\
  (List.length samples < maxSamples ->
   forall s, isSample rows header s -> In s samples) /\
  ((forall row v, In row rows -> get row header = Some v ->
                  List.length (trim v) <= 30) ->
   NoDup samples).
Proof.
  intros _ samples. subst samples. unfold getSampleValues.
  split; [apply sampleFrom_length; simpl; lia|]. split; [|split].
  - intros s Hs. apply sampleFrom_from in Hs as [[]|Hs].
    split; [exact Hs|]. destruct Hs as (row & v & _ & _ & E & ->).
    apply shorten_shape; [|apply trim_idem].
    unfold isEmptyValue in E. cbv zeta in E.
    destruct (trim v); [discriminate E|reflexivity].
  - apply sampleFrom_complete. constructor.
  - intros S. apply sampleFrom_NoDup; [exact S|constructor].
Qed.

Lemma getSampleValues_bounds_witness :
  forallb inheritedName OBJECT_PROTOTYPE_NAMES = true /\
  inheritedName (str "Name") = false /\
  In (str "Ann")
     (getSampleValues [[(str "Name", str " Ann ")]; [(str "Name", str "n/a")]]
                      (str "Name") 3).
Proof.
  split; [reflexivity|]. split; [reflexivity|].
  apply (proj1 (proj2 (proj2 (getSampleValues_bounds
           [[(str "Name", str " Ann ")]; [(str "Name", str "n/a")]]
           (str "Name") 3 eq_refl)))).
  - vm_compute. lia.
  - exists [(str "Name", str " Ann ")], (str " Ann ").
    split; [now left|]. repeat split.
Defined.

(** ** Header recognition *)

Lemma deriv_lower r c : caseBlind r -> deriv (lowerChar c) r = deriv c r.
Proof.
  induction r as [| |p|a IHa b IHb|a IHa b IHb|a IHa]; simpl; intros H;
    try reflexivity.
  - now rewrite H.
  - destruct H as [Ha Hb]. now rewrite (IHa Ha), (IHb Hb).
  - destruct H as [Ha Hb]. now rewrite (IHa Ha), (IHb Hb).
  - now rewrite (IHa H).
Qed.

Lemma deriv_caseBlind r c : caseBlind r -> caseBlind (deriv c r).
Proof.
  induction r as [| |p|a IHa b IHb|a IHa b IHb|a IHa]; simpl; intros H;
    try exact I.
  - now destruct (p c).
  - destruct H as [Ha Hb]. destruct (nullable a); simpl; auto.
  - destruct H as [Ha Hb]. auto.
  - auto.
Qed.

Lemma matches_lower r s :
  caseBlind r -> matches r (toLowerCase s) = matches r s.
Proof.
  revert r. induction s as [|c s IH]; intros r H; [reflexivity|].
  simpl. rewrite (deriv_lower _ _ H). apply IH. now apply deriv_caseBlind.
Qed.

Lemma litI_caseBlind w : caseBlind (litI w).
Proof.
  induction w as [|c w IH]; simpl; [exact I|]. split; [|exact IH].
  intros d. now rewrite lowerChar_idem.
Qed.

Lemma isJoiner_lower c : isJoiner (lowerChar c) = isJoiner c.
Proof. all_chars c. Qed.

Lemma isGap_lower c : Address.isGap (lowerChar c) = Address.isGap c.
Proof. all_chars c. Qed.

Ltac case_blind :=
  repeat match goal with
         | |- caseBlind (litI _) => apply litI_caseBlind
         | |- caseBlind (Address.word _) => apply litI_caseBlind
         | |- caseBlind (Cat _ _) => split
         | |- caseBlind (Alt _ _) => split
         | |- caseBlind Eps => exact I
         | |- caseBlind (Cls isJoiner) => exact isJoiner_lower
         | |- caseBlind (Cls Address.isGap) => exact isGap_lower
         | |- caseBlind (cats _) => cbn [cats]
         | |- caseBlind (alts _) => cbn [alts]
         | |- caseBlind (opt _) => unfold opt
         | |- caseBlind NameSplit.joiner => unfold NameSplit.joiner
         | |- caseBlind Address.gap => unfold Address.gap
         end.

Lemma name_patterns_caseBlind :
  Forall (fun p => caseBlind (NameSplit.pattern p))
         NameSplit.combinedNamePatterns.
Proof.
  unfold NameSplit.combinedNamePatterns.
  repeat (apply Forall_cons; [cbn [NameSplit.pattern]; case_blind|]).
  apply Forall_nil.
Qed.

Lemma address_patterns_caseBlind :
  Forall (fun p => caseBlind (Address.regex p)) Address.patterns.
Proof.
  unfold Address.patterns.
  repeat (apply Forall_cons; [cbn [Address.regex]; case_blind|]).
  apply Forall_nil.
Qed.

Lemma find_ext_in {A} (f g : A -> bool) l :
  (forall x, In x l -> f x = g x) -> find f l = find g l.
Proof.
  induction l as [|x l IH]; intros H; [reflexivity|]. simpl.
  rewrite (H x (or_introl eq_refl)), IH; [reflexivity|].
  intros; apply H; now right.
Qed.

Lemma matches_trimmed_lower r h :
  caseBlind r -> matches r (trim h) = matches r (toLowerCase (trim h)).
Proof. intros H. symmetry. now apply matches_lower. Qed.

(** X21: the header detectors look at a header only up to letter case and
    outer white space: two headers whose trimmed forms are equal up to case
    get the same combined-name type from [detectFullNameColumn]'s patterns
    and the same role and order from [detectAddressComponentColumns]. *)
Theorem header_detection_ignores_case (h h' : jsstring) :
  toLowerCase (trim h) = toLowerCase (trim h') ->
  NameSplit.combinedName h = NameSplit.combinedName h' /\
  option_map Address.role (Address.componentOf h)
  = option_map Address.role (Address.componentOf h') /\
  option_map Address.order (Address.componentOf h)
  = option_map Address.order (Address.componentOf h').
Proof.
  intros E.
  assert (N : find (fun p => matches (NameSplit.pattern p) (trim h))
                   NameSplit.combinedNamePatterns
              = find (fun p => matches (NameSplit.pattern p) (trim h'))
                     NameSplit.combinedNamePatterns).
  { apply find_ext_in. intros p Hp.
    pose proof name_patterns_caseBlind as B. rewrite Forall_forall in B.
    rewrite (matches_trimmed_lower _ h (B p Hp)).
    rewrite (matches_trimmed_lower _ h' (B p Hp)). now rewrite E. }
  assert (A : find (fun p => matches (Address.regex p) (trim h))
                   Address.patterns
              = find (fun p => matches (Address.regex p) (trim h'))
                     Address.patterns).
  { apply find_ext_in. intros p Hp.
    pose proof address_patterns_caseBlind as B. rewrite Forall_forall in B.
    rewrite (matches_trimmed_lower _ h (B p Hp)).
    rewrite (matches_trimmed_lower _ h' (B p Hp)). now rewrite E. }
  unfold NameSplit.combinedName, Address.componentOf. rewrite N, A.
  split; [reflexivity|].
  destruct (find (fun p => matches (Address.regex p) (trim h'))
                 Address.patterns); split; reflexivity.
Qed.

Lemma header_detection_ignores_case_witness :
  NameSplit.combinedName (str " FULL NAME ")
  = NameSplit.combinedName (str "full name").
Proof.
  apply (header_detection_ignores_case (str " FULL NAME ") (str "full name")).
  reflexivity.
Defined.

Lemma firstCombinedName_spec headers :
  match NameSplit.firstCombinedName headers with
  | Some d =>
      exists before after,
        headers = before ++ NameSplit.sourceHeader d :: after /\
        (forall h, In h before -> NameSplit.combinedName h = None) /\
        NameSplit.combinedName (NameSplit.sourceHeader d)
        = Some (NameSplit.type d)
  | None => forall h, In h headers -> NameSplit.combinedName h = None
  end.
Proof.
  induction headers as [|header rest IH]; simpl; [intros h []|].
  destruct (NameSplit.combinedName header) as [t|] eqn:E.
  - exists [], rest. simpl. split; [reflexivity|]. split; [intros h []|exact E].
  - destruct (NameSplit.firstCombinedName rest) as [d|].
    + destruct IH as (before & after & -> & Hb & Hd).
      exists (header :: before), after. split; [reflexivity|].
      split; [|exact Hd]. intros h [<-|Hh]; [exact E|now apply Hb].
    + intros h [<-|Hh]; [exact E|now apply IH].
Qed.

(** X22: [detectFullNameColumn] proposes no column when the headers
    already name a first name and a last name.  Otherwise it proposes the
    first header, in the order of the list, whose trimmed form matches one
    of the combined-name patterns, with the type of the first pattern it
    matches; and it proposes nothing exactly when no header matches. *)
Theorem detectFullNameColumn_first_match (headers : list jsstring) :
  let named test := existsb test (map normalizeHeader headers) in
  (named namesFirst = true -> named namesLast = true ->
   NameSplit.detectFullNameColumn headers = None) /\
  (forall d, NameSplit.detectFullNameColumn headers = Some d ->
     (named namesFirst = false \/ named namesLast = false) /\
     exists before after,
       headers = before ++ NameSplit.sourceHeader d :: after /\
       (forall h, In h before -> NameSplit.combinedName h = None) /\
       NameSplit.combinedName (NameSplit.sourceHeader d)
       = Some (NameSplit.type d)) /\
  (named namesFirst = false \/ named namesLast = false ->
   (NameSplit.detectFullNameColumn headers = None <->
    forall h, In h headers -> NameSplit.combinedName h = None)).
Proof.
  intros named. subst named. cbv beta. unfold NameSplit.detectFullNameColumn.
  cbv zeta.
  set (f := existsb namesFirst (map normalizeHeader headers)).
  set (l := existsb namesLast (map normalizeHeader headers)).
  pose proof (firstCombinedName_spec headers) as S.
  split; [|split].
  - intros -> ->. reflexivity.
  - intros d. destruct (f && l) eqn:B; [discriminate|]. intros E.
    rewrite E in S. split; [|exact S].
    apply andb_false_iff in B. exact B.
  - intros B. replace (f && l) with false
      by (symmetry; apply andb_false_iff; exact B).
    destruct (NameSplit.firstCombinedName headers) as [d|].
    + split; [discriminate|]. intros H.
      destruct S as (before & after & -> & _ & Hd).
      rewrite H in Hd; [discriminate|]. apply in_or_app. right. now left.
    + split; [intros _; exact S|reflexivity].
Qed.

Lemma detectFullNameColumn_first_match_witness :
  NameSplit.detectFullNameColumn [str "First Name"; str "Surname"; str "lname"]
  = None.
Proof.
  apply (proj1 (detectFullNameColumn_first_match
                  [str "First Name"; str "Surname"; str "lname"]));
    reflexivity.
Defined.

Lemma keywordTarget_cases n :
  (fst (Fallback.keywordTarget n) = None /\ snd (Fallback.keywordTarget n) = 0)
  \/ (exists t, In t TARGET_HEADERS /\
                fst (Fallback.keywordTarget n) = Some t /\
                6 <= snd (Fallback.keywordTarget n) <= 9).
Proof.
  unfold Fallback.keywordTarget. cbv zeta.
  repeat match goal with
         | |- context [if ?b then _ else _] => destruct b
         end;
    try (left; split; reflexivity);
    right; eexists; (split; [|split; [reflexivity|cbn [snd]; lia]]);
    unfold TARGET_HEADERS; cbn [map In]; auto 12.
Qed.

Lemma keywordTarget_first n :
  fst (Fallback.keywordTarget n) = Some (str "First Name") ->
  namesFirst n = true.
Proof.
  unfold Fallback.keywordTarget, namesFirst, Fallback.hasWord, Fallback.isWord.
  cbv zeta.
  destruct (includes n (str "firstname")), (eqs n (str "first")),
    (eqs n (str "fname")); try reflexivity.
  cbn [orb].
  repeat match goal with
         | |- context [if ?b then _ else _] => destruct b
         end; intros H; discriminate H.
Qed.

Lemma keywordTarget_last n :
  fst (Fallback.keywordTarget n) = Some (str "Last Name") ->
  namesLast n = true.
Proof.
  unfold Fallback.keywordTarget, namesLast, Fallback.hasWord, Fallback.isWord.
  cbv zeta.
  destruct (includes n (str "firstname") || eqs n (str "first")
            || eqs n (str "fname")); [intros H; discriminate H|].
  destruct (includes n (str "lastname")), (eqs n (str "last")),
    (eqs n (str "lname")); try reflexivity.
  cbn [orb].
  repeat match goal with
         | |- context [if ?b then _ else _] => destruct b
         end; intros H; discriminate H.
Qed.

Lemma template_headers_recognised :
  forallb (fun t => match fst (Fallback.keywordTarget (normalizeHeader t)) with
                    | Some t' => eqs t' t
                    | None => false
                    end) TARGET_HEADERS = true.
Proof. vm_compute. reflexivity. Qed.

(** X23: [fallbackMapping] proposes one mapping per source header, in
    order.  A proposal either has no target and confidence 0, or targets
    one of the ten template headers with a confidence between 0.6 and 0.9.
    A source header that is a template header up to letter case, spaces,
    underscores and hyphens is mapped to that template header.  And when
    the proposals contain a First Name and a Last Name target,
    [detectFullNameColumn] proposes no name column to split. *)
Theorem fallbackMapping_targets (sourceHeaders : list jsstring) :
  let proposals := Fallback.fallbackMapping sourceHeaders in
  map Fallback.sourceHeader proposals = sourceHeaders /\
  (forall p, In p proposals ->
     (Fallback.targetHeader p = None /\ Fallback.confidenceTenths p = 0) \/
     (exists t, In t TARGET_HEADERS /\ Fallback.targetHeader p = Some t /\
                6 <= Fallback.confidenceTenths p <= 9)) /\
  (forall p t, In p proposals -> In t TARGET_HEADERS ->
     normalizeHeader (Fallback.sourceHeader p) = normalizeHeader t ->
     Fallback.targetHeader p = Some t) /\
  ((exists p, In p proposals /\
              Fallback.targetHeader p = Some (str "First Name")) ->
   (exists q, In q proposals /\
              Fallback.targetHeader q = Some (str "Last Name")) ->
   NameSplit.detectFullNameColumn sourceHeaders = None).
Proof.
  intros proposals. subst proposals. unfold Fallback.fallbackMapping.
  split; [|split; [|split]].
  - rewrite map_map. cbn [Fallback.sourceHeader]. apply map_id.
  - intros p Hp. apply in_map_iff in Hp as (h & <- & _).
    cbn [Fallback.targetHeader Fallback.confidenceTenths].
    apply keywordTarget_cases.
  - intros p t Hp Ht E. apply in_map_iff in Hp as (h & <- & _).
    cbn [Fallback.targetHeader Fallback.sourceHeader] in *. rewrite E.
    pose proof template_headers_recognised as T.
    rewrite forallb_forall in T. specialize (T t Ht).
    destruct (fst (Fallback.keywordTarget (normalizeHeader t))) as [t'|];
      [|discriminate T].
    apply eqs_eq in T. now subst t'.
  - intros (p & Hp & Tp) (q & Hq & Tq).
    apply in_map_iff in Hp as (hp & <- & Hhp).
    apply in_map_iff in Hq as (hq & <- & Hhq).
    cbn [Fallback.targetHeader] in Tp, Tq.
    apply keywordTarget_first in Tp. apply keywordTarget_last in Tq.
    unfold NameSplit.detectFullNameColumn. cbv zeta.
    replace (existsb namesFirst (map normalizeHeader sourceHeaders)) with true.
    + replace (existsb namesLast (map normalizeHeader sourceHeaders)) with true;
        [reflexivity|].
      symmetry. apply existsb_exists. exists (normalizeHeader hq).
      split; [now apply in_map|exact Tq].
    + symmetry. apply existsb_exists. exists (normalizeHeader hp).
      split; [now apply in_map|exact Tp].
Qed.

Lemma fallbackMapping_targets_witness :
  NameSplit.detectFullNameColumn [str "fname"; str "Name"; str "LAST_NAME"]
  = None.
Proof.
  apply (proj2 (proj2 (proj2 (fallbackMapping_targets
           [str "fname"; str "Name"; str "LAST_NAME"])))).
  - eexists. split; [left; reflexivity|reflexivity].
  - eexists. split; [right; right; left; reflexivity|reflexivity].
Defined.

(** ** Duplicate phones *)

Lemma digits_lower s : forallb isDigit s = true -> toLowerCase s = s.
Proof.
  induction s as [|c s IH]; [reflexivity|]. simpl. intros H.
  apply andb_true_iff in H as [Hc Hs]. rewrite (IH Hs). f_equal.
  revert Hc. all_chars c.
Qed.

Lemma phoneKey_digits row : forallb isDigit (phoneKey row) = true.
Proof.
  unfold phoneKey. destruct (get row (str "Phone")); [|reflexivity].
  cbv zeta. destruct (truthy _ && _); [|reflexivity].
  apply removeAll_only_digits.
Qed.

(** A row that carries the phone digits where [detectDuplicates] reads
    the e-mail. *)
Lemma phoneKey_as_email row :
  emailKey [(str "Email", phoneKey row)] = phoneKey row.
Proof.
  unfold emailKey. cbn. pose proof (phoneKey_digits row) as D.
  rewrite (digits_lower _ D). apply no_space_trimmed. now apply digits_no_space.
Qed.

Lemma collectPhones_as_emails rows index m :
  collectPhones rows index m
  = collectEmails (map (fun row => [(str "Email", phoneKey row)]) rows) index m.
Proof.
  revert index m. induction rows as [|row rows IH]; intros index m;
    [reflexivity|].
  cbn [collectPhones map collectEmails]. cbv zeta.
  rewrite phoneKey_as_email, IH. f_equal.
  now destruct (phoneKey row).
Qed.

(** X24: [detectPhoneDuplicates] groups the row indices by the digits of
    the trimmed Phone value.  Every entry has a non-empty key made of
    digits only and at least two indices, which are exactly the positions,
    in ascending order, of the rows with those phone digits; every
    non-empty digit string carried by at least two rows has an entry, and
    no key has two.  Rows without digits in their Phone are in no entry. *)
Theorem detectPhoneDuplicates_groups_by_digits (rows : list Row) :
  let found := detectPhoneDuplicates rows in
  (forall k l, In (k, l) found ->
     k <> [] /\ forallb isDigit k = true /\ 2 <= List.length l /\
     StronglySorted lt l /\
     (forall i, In i l <->
                exists row, nth_error rows i = Some row /\ phoneKey row = k)) /\
  (forall k, k <> [] ->
     2 <= List.length (filter (fun row => eqs (phoneKey row) k) rows) ->
     exists l, In (k, l) found) /\
  NoDup (map fst found).
Proof.
  intros found. subst found. unfold detectPhoneDuplicates.
  rewrite collectPhones_as_emails.
  set (rows' := map (fun row => [(str "Email", phoneKey row)]) rows).
  destruct (collectEmails_keys rows' 0 [] (NoDup_nil _)
              (fun k (H : In k []) => match H with end)) as [ND NE].
  assert (Nth : forall i k,
            (exists j row', i = 0 + j /\ nth_error rows' j = Some row' /\
                            emailKey row' = k)
            <-> exists row, nth_error rows i = Some row /\ phoneKey row = k).
  { intros i k. split.
    - intros (j & row' & -> & Hn & Hk). unfold rows' in Hn.
      rewrite nth_error_map in Hn.
      destruct (nth_error rows j) as [row|] eqn:R; [|discriminate].
      injection Hn as <-. rewrite phoneKey_as_email in Hk.
      exists row. now split.
    - intros (row & Hn & Hk). exists i, [(str "Email", phoneKey row)].
      split; [reflexivity|]. split; [|now rewrite phoneKey_as_email].
      unfold rows'. now rewrite nth_error_map, Hn. }
  split; [|split].
  - intros k l H. apply filter_In in H as [Hin L]. cbn [snd] in L.
    apply Nat.ltb_lt in L.
    assert (Hk : k <> []) by (apply NE; now apply (in_map fst) in Hin).
    pose proof (indicesAt_entry _ _ _ ND Hin) as E.
    rewrite collectEmails_indices in E.
    rewrite (proj2 (truthy_nonempty k) Hk) in E. cbn [indicesAt app] in E.
    assert (In_l : forall i, In i l <->
              exists row, nth_error rows i = Some row /\ phoneKey row = k).
    { intros i. rewrite <- E, indicesOf_spec. apply Nth. }
    split; [exact Hk|]. split; [|split; [lia|split; [|exact In_l]]].
    + destruct l as [|i l']; [simpl in L; lia|].
      destruct (proj1 (In_l i) (or_introl eq_refl)) as (row & _ & <-).
      apply phoneKey_digits.
    + rewrite <- E. clear. generalize 0.
      induction rows' as [|r rs IH]; intros start; simpl; [constructor|].
      assert (LB : forall rs s, Forall (fun i => s <= i) (indicesOf k rs s)).
      { clear. induction rs as [|r rs IH]; intros s; simpl; [constructor|].
        destruct (eqs (emailKey r) k); [constructor; [lia|]|];
          (eapply Forall_impl; [|apply (IH (S s))]; simpl; intros; lia). }
      destruct (eqs (emailKey r) k); [|apply IH].
      constructor; [apply IH|].
      eapply Forall_impl; [|apply (LB rs (S start))]. simpl. intros; lia.
  - intros k Hk L.
    assert (E : indicesAt (collectEmails rows' 0 []) k = indicesOf k rows' 0).
    { rewrite collectEmails_indices.
      now rewrite (proj2 (truthy_nonempty k) Hk). }
    assert (Len : List.length (indicesOf k rows' 0)
                  = List.length (filter (fun row => eqs (phoneKey row) k) rows)).
    { rewrite indicesOf_length. unfold rows'. clear.
      induction rows as [|row rows IH]; [reflexivity|].
      cbn [map filter]. rewrite phoneKey_as_email.
      destruct (eqs (phoneKey row) k); cbn [List.length];
        [f_equal; exact IH|exact IH]. }
    exists (indicesOf k rows' 0). apply filter_In. split.
    + rewrite <- E. apply indicesAt_In. rewrite E.
      destruct (indicesOf k rows' 0); [simpl in Len; lia|discriminate].
    + cbn [snd]. apply Nat.ltb_lt. lia.
  - now apply NoDup_keys_filter.
Qed.

Lemma detectPhoneDuplicates_groups_by_digits_witness :
  exists l, In (str "5551234", l)
               (detectPhoneDuplicates [ [(str "Phone", str "(555) 1234")];
                                        [(str "Phone", str "n/a")];
                                        [(str "Phone", str " 555-1234 ")] ]).
Proof.
  apply (proj1 (proj2 (detectPhoneDuplicates_groups_by_digits
           [ [(str "Phone", str "(555) 1234")];
             [(str "Phone", str "n/a")];
             [(str "Phone", str " 555-1234 ")] ]))).
  - discriminate.
  - vm_compute. lia.
Defined.

(** ** Tags and proper case *)

(** X25: [cleanTags] delivers the tags of its input, in order, separated
    by single pipes: splitting the result at the pipes gives back exactly
    the trimmed, non-empty pieces of the input between commas, semicolons
    and pipes.  So no tag of the result is empty, has outer white space or
    holds a separator, the result holds no comma and no semicolon, and the
    result is empty exactly when the input has no such piece. *)
Theorem cleanTags_tags (tags : jsstring) :
  let pieces := filter keepTag (map trim (splitOn isTagSeparator tags)) in
  (cleanTags tags <> [] ->
   splitOn (fun c => Ascii.eqb c "|") (cleanTags tags) = pieces) /\
  (forall tag, In tag pieces ->
     tag <> [] /\ trim tag = tag /\
     forall c, In c tag -> isTagSeparator c = false) /\
  (forall c, In c (cleanTags tags) -> c <> ","%char /\ c <> ";"%char) /\
  (cleanTags tags = [] <-> tags = [] \/ pieces = []).
Proof.
  intros pieces.
  assert (Hps : forall w, In w pieces ->
            w <> [] /\ trim w = w /\
            forall c, In c w -> isTagSeparator c = false).
  { intros w Hw. apply filter_In in Hw as [Hw K].
    apply in_map_iff in Hw as (w0 & <- & Hw0). split; [|split].
    - intros E. rewrite E in K. discriminate K.
    - apply trim_idem.
    - intros c Hc. apply trim_incl in Hc.
      now destruct (splitOn_chars _ _ _ _ Hw0 Hc). }
  assert (E : cleanTags tags = if negb (truthy tags) then []
                               else join ["|"%char] pieces)
    by apply cleanTags_pieces.
  assert (J : join ["|"%char] pieces = [] -> pieces = []).
  { destruct pieces as [|p ps] eqn:P; [reflexivity|]. intros C. exfalso.
    destruct (Hps p (or_introl eq_refl)) as (Np & _).
    destruct p; [congruence|]. destruct ps; discriminate C. }
  split; [|split; [exact Hps|split]].
  - rewrite E. destruct (negb (truthy tags)); [congruence|]. intros N.
    apply splitOn_join; [reflexivity| |].
    + intros C. apply N. now rewrite C.
    + intros w c Hw Hc. destruct (Hps w Hw) as (_ & _ & S).
      specialize (S c Hc). unfold isTagSeparator in S.
      apply orb_false_iff in S as [_ S]. exact S.
  - intros c Hc. rewrite E in Hc.
    destruct (negb (truthy tags)); [destruct Hc|].
    assert (G : forall ps, (forall w, In w ps -> In w pieces) ->
                In c (join ["|"%char] ps) ->
                c = "|"%char \/ exists w, In w pieces /\ In c w).
    { clear Hc. induction ps as [|w ps IH]; intros Sub Hc; [destruct Hc|].
      destruct ps as [|w' ps].
      - right. exists w. split; [apply Sub; now left|exact Hc].
      - change (join ["|"%char] (w :: w' :: ps))
          with (w ++ "|"%char :: join ["|"%char] (w' :: ps)) in Hc.
        apply in_app_or in Hc as [Hc|[Hc|Hc]].
        + right. exists w. split; [apply Sub; now left|exact Hc].
        + now left.
        + apply IH; [|exact Hc]. intros x Hx. apply Sub. now right. }
    destruct (G pieces (fun w H => H) Hc) as [->|(w & Hw & Hcw)].
    + split; discriminate.
    + destruct (Hps w Hw) as (_ & _ & S). specialize (S c Hcw).
      unfold isTagSeparator in S. apply orb_false_iff in S as [S _].
      apply orb_false_iff in S as [S1 S2].
      split; intros ->; discriminate.
  - rewrite E. destruct tags as [|c t]; [split; [now left|reflexivity]|].
    cbn [truthy negb]. cbv iota. split.
    + intros C. right. now apply J.
    + intros [C|C]; [discriminate C|]. now rewrite C.
Qed.

Lemma cleanTags_tags_witness :
  splitOn (fun c => Ascii.eqb c "|") (cleanTags (str " vip ;; new, x|"))
  = [str "vip"; str "new"; str "x"].
Proof.
  apply (proj1 (cleanTags_tags (str " vip ;; new, x|"))).
  discriminate.
Defined.

Lemma isBlank_lower c : isBlank (lowerChar c) = Ascii.eqb c " ".
Proof. all_chars c. Qed.

Lemma proper_words s :
  match splitOn isBlank (toLowerCase s) with
  | w :: ws =>
      join [" "%char] (capitalize w :: map capitalize ws) = properFrom true s /\
      join [" "%char] (w :: map capitalize ws) = properFrom false s
  | [] => False
  end.
Proof.
  induction s as [|c s IH]; [split; reflexivity|].
  cbn [toLowerCase map splitOn]. fold (toLowerCase s).
  destruct (splitOn isBlank (toLowerCase s)) as [|w ws]; [destruct IH|].
  destruct IH as [IHt IHf]. rewrite isBlank_lower. cbn [properFrom].
  destruct (Ascii.eqb c " ") eqn:E.
  - apply Ascii.eqb_eq in E. subst c.
    change (capitalize []) with (@nil ascii). cbn [map].
    change (join [" "%char] ([] :: capitalize w :: map capitalize ws))
      with (" "%char :: join [" "%char] (capitalize w :: map capitalize ws)).
    split; (f_equal; exact IHt).
  - change (capitalize (lowerChar c :: w)) with (upperChar (lowerChar c) :: w).
    split; rewrite join_cons_head; (f_equal; exact IHf).
Qed.

Lemma properFrom_length start s :
  List.length (properFrom start s) = List.length s.
Proof.
  revert start. induction s as [|c s IH]; intros start; simpl;
    [reflexivity|now rewrite IH].
Qed.

(** X26: on a string of ASCII characters [toProperCase] changes letter
    case only, character by character: a character at the start of the
    string or right after a space character comes out in upper case, every
    other character in lower case (a tab or a hyphen does not start a new
    word).  The result has the length of the input and equals it up to
    letter case.  (Outside ASCII the code can lengthen the string: the
    sharp s becomes "SS", then "Ss".) *)
Theorem toProperCase_by_character (s : jsstring) :
  asciiOnly s = true ->
  toProperCase s = properFrom true s /\
  List.length (toProperCase s) = List.length s /\
  toLowerCase (toProperCase s) = toLowerCase s.
Proof.
  intros _.
  assert (E : toProperCase s = properFrom true s).
  { rewrite toProperCase_words. destruct s as [|c s]; [reflexivity|].
    cbn [truthy negb]. cbv iota.
    pose proof (proper_words (c :: s)) as P.
    destruct (splitOn isBlank (toLowerCase (c :: s))) as [|w ws];
      [destruct P|].
    exact (proj1 P). }
  split; [exact E|]. split; [|apply toLowerCase_toProperCase].
  rewrite E. apply properFrom_length.
Qed.

Lemma toProperCase_by_character_witness :
  asciiOnly ["223"%char] = false /\
  asciiOnly (str "aNN-marie  o'NEIL") = true /\
  toProperCase (str "aNN-marie  o'NEIL") = str "Ann-marie  O'neil" /\
  List.length (toProperCase (str "aNN-marie  o'NEIL")) = 17.
Proof.
  split; [reflexivity|]. split; [reflexivity|].
  destruct (toProperCase_by_character (str "aNN-marie  o'NEIL") eq_refl)
    as (E & L & _).
  split; [rewrite E; reflexivity|rewrite L; reflexivity].
Defined.

(** ** Validation of cleaned rows *)

Lemma processData_values_trimmed rows mappings row k v :
  In row (data (processData rows mappings)) -> In (k, v) row -> trim v = v.
Proof.
  set (built := fst (builtRows rows mappings)).
  set (survivors := filter hasData built).
  assert (K : forall r, In r survivors ->
                map fst r = commonKeys mappings (allTargetHeaders mappings)).
  { intros r H. apply filter_In in H as [H _]. now apply builtRows_keys in H. }
  rewrite processData_data. cbv zeta. fold built. fold survivors.
  intros Hrow Hkv. apply in_map_iff in Hrow as (r & <- & Hr).
  rewrite pruneColumns_filter in Hkv
    by (rewrite (K r Hr); apply commonKeys_NoDup).
  apply filter_In in Hkv as [Hkv _]. apply filter_In in Hr as [Hr _].
  exact (cleanRows_values _ _ _ _ r k v Hr Hkv).
Qed.

Lemma selected_is_flagged_in (pred : Row -> bool)
      (flag : RowValidation -> Prop) (rows : list Row) (i : nat) :
  (forall row j, In row rows ->
                 (flag (validateRow row j) <-> pred row = true)) ->
  (forall row, pred row = true -> rowIsClean row = false) ->
  In i (selectFrom pred rows 0) <->
  exists w, In w (validateRows rows) /\ rowIndex w = i /\ flag w.
Proof.
  intros Hflag Hissue. rewrite selectFrom_spec. split.
  - intros (j & row & -> & Hn & Hp). exists (validateRow row j).
    split; [|split; [reflexivity|]].
    + apply (validateFrom_spec rows 0). exists j, row.
      split; [exact Hn|]. split; [reflexivity|].
      rewrite hasIssue_clean, (Hissue _ Hp). reflexivity.
    + apply Hflag; [now apply nth_error_In in Hn|exact Hp].
  - intros (w & Hw & <- & Hf).
    apply (validateFrom_spec rows 0) in Hw as (j & row & Hn & -> & _).
    exists j, row. split; [reflexivity|]. split; [exact Hn|].
    apply (Hflag row j); [now apply nth_error_In in Hn|exact Hf].
Qed.

(** X27: on the rows that [processData] returns for a table that indexes
    no object by a name inherited from [Object.prototype] ([plainTable];
    on others the code can fail and return nothing), the status selector
    and the validator agree: [getRowsWithInvalidStatus] lists exactly the
    rows that [validateRows] reports with [invalidStatus].  (On rows that
    were not cleaned they can differ, for a status with outer white space;
    the cleaned values have none.) *)
Theorem cleaned_rows_invalid_status (rows : list Row)
        (mappings : list HeaderMapping) (i : nat) :
  plainTable rows mappings = true ->
  let cleaned := data (processData rows mappings) in
  In i (getRowsWithInvalidStatus cleaned) <->
  exists w, In w (validateRows cleaned) /\ rowIndex w = i /\
            invalidStatus w = true.
Proof.
  intros _ cleaned. unfold getRowsWithInvalidStatus.
  apply (selected_is_flagged_in _ (fun w => invalidStatus w = true)).
  - intros row j Hrow. unfold validateRow. cbn [invalidStatus].
    unfold fieldInvalid.
    destruct (get row (str "Status")) as [v|] eqn:G; [|reflexivity].
    assert (T : trim v = v).
    { apply (processData_values_trimmed rows mappings row (str "Status"));
        [exact Hrow|]. now apply lookup_In. }
    cbv zeta. rewrite T. reflexivity.
  - intros row H. destruct (rowIsClean row) eqn:C; [|reflexivity].
    apply rowIsClean_fields in C.
    destruct C as (_ & _ & _ & _ & _ & _ & _ & S & _).
    destruct (get row (str "Status")) as [v|] eqn:G; [|discriminate H].
    cbv zeta in H. apply andb_true_iff in H as [H Hv].
    apply andb_true_iff in H as [Ht Hne].
    apply negb_true_iff in Hv, Hne.
    destruct S as [S|S].
    + unfold fieldBlank in S. rewrite G in S.
      apply orb_true_iff in S as [S|S]; [|congruence].
      destruct v; [discriminate Ht|discriminate S].
    + cbn [rawString] in S. rewrite (validateStatus_trimmed _ S) in Hv.
      congruence.
Qed.

Lemma cleaned_rows_invalid_status_witness :
  let rows := [ [(str "mail", str "a@b.co"); (str "st", str " vip ")];
                [(str "mail", str "c@d.org"); (str "st", str " gold ")] ] in
  let mappings :=
    [ Build_HeaderMapping (str "mail") (Some (str "Email")) false;
      Build_HeaderMapping (str "st") (Some (str "Status")) false ] in
  let cleaned := data (processData rows mappings) in
  existsb (fun t => plainTable (fst t) (snd t)) inheritedTables = false /\
  plainTable rows mappings = true /\
  getRowsWithInvalidStatus cleaned = [1] /\
  exists w, In w (validateRows cleaned) /\ rowIndex w = 1 /\
            invalidStatus w = true.
Proof.
  intros rows mappings cleaned. split; [reflexivity|].
  split; [reflexivity|]. split; [reflexivity|].
  apply (proj1 (cleaned_rows_invalid_status rows mappings 1 eq_refl)).
  vm_compute. left. reflexivity.
Defined.

(** ** Export of the cleaned rows *)

Lemma sanitizeForExport_trimmed v :
  trim v = v -> trim (sanitizeForExport v) = sanitizeForExport v.
Proof.
  intros T. unfold sanitizeForExport. destruct v as [|c v]; [reflexivity|].
  cbn [truthy negb]. cbv iota.
  destruct (existsb _ formulaCharacters); [|exact T].
  apply trim_fixed_iff in T as [_ R]. apply trim_fix; [reflexivity|].
  change (str "'" ++ c :: v) with ("'"%char :: c :: v).
  change (rev ("'"%char :: c :: v)) with (rev (c :: v) ++ ["'"%char]).
  destruct (rev (c :: v)) as [|d r] eqn:E; [|exact R].
  apply (f_equal (@List.length ascii)) in E. rewrite length_rev in E.
  discriminate E.
Qed.

Lemma sanitizeForExport_chars v c :
  In c (sanitizeForExport v) -> c = "'"%char \/ In c v.
Proof.
  unfold sanitizeForExport. destruct (negb (truthy v)); [now right|].
  destruct (existsb _ formulaCharacters); [|now right].
  intros [<-|H]; [now left|now right].
Qed.

Lemma exported_cell headers row h :
  In h headers ->
  cell (sanitizeRow headers row) h
  = sanitizeForExport (if eqs h (str "Phone") && truthy (cell row h)
                       then formatPhoneNumber (cell row h) else cell row h).
Proof.
  intros Hh. unfold cell at 1. rewrite sanitizeRow_get.
  rewrite (proj2 (includesStr_In headers h) Hh). reflexivity.
Qed.

Lemma formatPhoneNumber_trimmed v :
  trim (formatPhoneNumber v) = formatPhoneNumber v.
Proof.
  unfold formatPhoneNumber. destruct (negb (truthy v)); [reflexivity|].
  apply no_space_trimmed, digits_no_space, removeAll_only_digits.
Qed.

Lemma formatPhoneNumber_chars v c : In c (formatPhoneNumber v) -> In c v.
Proof.
  unfold formatPhoneNumber, removeAll. destruct (negb (truthy v)); [intros []|].
  intros H. now apply filter_In in H as [H _].
Qed.

Lemma cleaned_cell_trimmed rows mappings row h :
  In row (data (processData rows mappings)) -> trim (cell row h) = cell row h.
Proof.
  intros Hr. unfold cell. destruct (get row h) as [v|] eqn:G; [|reflexivity].
  apply (processData_values_trimmed rows mappings row h); [exact Hr|].
  now apply lookup_In.
Qed.

(** X28: the cleaned table survives a CSV export and re-import: for the
    rows [processData] returns on a table that indexes no object by a name
    inherited from [Object.prototype] ([plainTable]) and at least two
    headers that are trimmed and are not such names ([plainHeaders]),
    when no header and no cell holds a line feed, reading back the text of
    [generateCSV] with the CSV branch of [parseFile] gives exactly the
    headers and the sanitised rows that were written (each cell as
    [sanitizeForExport] left it, the Phone reduced to its digits). *)
Theorem cleaned_rows_csv_round_trip (rows : list Row)
        (mappings : list HeaderMapping) (headers : list jsstring) :
  let cleaned := data (processData rows mappings) in
  plainTable rows mappings = true ->
  plainHeaders headers = true ->
  2 <= List.length headers ->
  (forall h, In h headers -> trim h = h /\ ~ In newline h) ->
  (forall row h, In row cleaned -> In h headers -> ~ In newline (cell row h)) ->
  parseCSV (generateCSV cleaned headers)
  = (headers, sanitizeData cleaned headers).
Proof.
  intros cleaned _ _ H2 Hh Hc.
  rewrite csv_rows_read_back; [apply csv_rows_refold| | |].
  - intros h Hin. now apply Hh.
  - intros row h Hr Hin. unfold sanitizeData in Hr.
    apply in_map_iff in Hr as (row0 & <- & Hr0).
    rewrite (exported_cell _ _ _ Hin). apply sanitizeForExport_trimmed.
    destruct (eqs h (str "Phone") && truthy (cell row0 h));
      [apply formatPhoneNumber_trimmed|].
    now apply (cleaned_cell_trimmed rows mappings).
  - exact H2.
  - intros h Hin. now apply Hh.
  - intros row h Hr Hin. unfold sanitizeData in Hr.
    apply in_map_iff in Hr as (row0 & <- & Hr0).
    rewrite (exported_cell _ _ _ Hin). intros C.
    apply sanitizeForExport_chars in C as [C|C]; [discriminate C|].
    destruct (eqs h (str "Phone") && truthy (cell row0 h));
      [apply formatPhoneNumber_chars in C|]; now apply (Hc row0 h).
Qed.

Lemma cleaned_rows_csv_round_trip_witness :
  let rows := [ [(str "mail", str " A@B.com "); (str "tel", str "(555) 12")] ] in
  let mappings :=
    [ Build_HeaderMapping (str "mail") (Some (str "Email")) false;
      Build_HeaderMapping (str "tel") (Some (str "Phone")) false ] in
  existsb (fun t => plainTable (fst t) (snd t)) inheritedTables = false /\
  existsb plainHeaders inheritedHeaders = false /\
  plainTable rows mappings = true /\
  parseCSV (generateCSV (data (processData rows mappings))
                        [str "Email"; str "Phone"])
  = ([str "Email"; str "Phone"],
     sanitizeData (data (processData rows mappings))
                  [str "Email"; str "Phone"]).
Proof.
  intros rows mappings.
  split; [reflexivity|]. split; [reflexivity|]. split; [reflexivity|].
  apply (cleaned_rows_csv_round_trip rows mappings [str "Email"; str "Phone"]).
  - reflexivity.
  - reflexivity.
  - simpl. lia.
  - intros h [<-|[<-|[]]]; (split; [reflexivity|]);
      vm_compute; intuition discriminate.
  - intros row h Hr. vm_compute in Hr. destruct Hr as [<-|[]].
    intros [<-|[<-|[]]]; vm_compute; intuition discriminate.
Defined.

(** ** Combined names and the keyword fallback *)

Lemma allChars_all c : In c allChars.
Proof.
  unfold allChars. rewrite <- (ascii_nat_embedding c). apply in_map.
  apply in_seq. pose proof (nat_ascii_bounded c). lia.
Qed.

Lemma normalizeHeader_app s t :
  normalizeHeader (s ++ t) = normalizeHeader s ++ normalizeHeader t.
Proof.
  unfold normalizeHeader, removeAll, toLowerCase.
  now rewrite map_app, filter_app.
Qed.

Lemma distinct_In l x : In x (distinct l) <-> In x l.
Proof.
  induction l as [|y l IH]; [reflexivity|]. cbn [distinct].
  destruct (includesStr l y) eqn:E.
  - rewrite IH. apply includesStr_In in E. split; [now right|].
    intros [<-|H]; assumption.
  - simpl. now rewrite IH.
Qed.

Lemma normalForms_lang r s :
  starFree r = true -> lang r s -> In (normalizeHeader s) (normalForms r).
Proof.
  intros F L. induction L as [|p c Hp|a b s t La IHa Lb IHb|a b s La IHa
                              |a b s Lb IHb|a|a s t La IHa Ls IHs];
    cbn [normalForms starFree] in F |- *; try discriminate F.
  - now left.
  - apply distinct_In, in_map_iff. exists c. split; [reflexivity|].
    apply filter_In. split; [apply allChars_all|exact Hp].
  - apply andb_true_iff in F as [Fa Fb]. rewrite normalizeHeader_app.
    apply in_flat_map. exists (normalizeHeader s). split; [now apply IHa|].
    apply in_map. now apply IHb.
  - apply andb_true_iff in F as [Fa _]. apply in_or_app. left. now apply IHa.
  - apply andb_true_iff in F as [_ Fb]. apply in_or_app. right. now apply IHb.
Qed.

Lemma trim_spaces s :
  exists pre post, s = pre ++ trim s ++ post /\
                   forallb isSpace pre = true /\ forallb isSpace post = true.
Proof.
  unfold trim, trimEnd.
  destruct (trimStart_split s) as (ws & E & Hws).
  destruct (trimStart_split (rev (trimStart s))) as (ws' & E' & Hws').
  exists ws, (rev ws'). split; [|split; [exact Hws|]].
  - rewrite E at 1. f_equal.
    rewrite <- rev_app_distr, <- E'. symmetry. apply rev_involutive.
  - now rewrite forallb_rev.
Qed.

Lemma normalizeHeader_spaces ws :
  forallb isSpace ws = true -> normalizeHeader ws = [].
Proof.
  induction ws as [|c ws IH]; [reflexivity|]. simpl. intros H.
  apply andb_true_iff in H as [Hc Hs].
  change (normalizeHeader (c :: ws))
    with (normalizeHeader ([c] ++ ws)).
  rewrite normalizeHeader_app, (IH Hs), app_nil_r.
  unfold normalizeHeader, removeAll. simpl.
  rewrite isJoiner_lower. unfold isJoiner. rewrite Hc, !orb_true_r.
  reflexivity.
Qed.

Lemma normalizeHeader_trim h : normalizeHeader (trim h) = normalizeHeader h.
Proof.
  destruct (trim_spaces h) as (pre & post & E & Hpre & Hpost).
  rewrite E at 2. rewrite !normalizeHeader_app.
  rewrite (normalizeHeader_spaces _ Hpre), (normalizeHeader_spaces _ Hpost).
  now rewrite app_nil_r.
Qed.

Lemma combined_names_unmapped :
  forallb (fun p =>
             starFree (NameSplit.pattern p)
             && forallb (fun n => match fst (Fallback.keywordTarget n) with
                                  | None => true
                                  | Some _ => false
                                  end)
                        (normalForms (NameSplit.pattern p)))
          NameSplit.combinedNamePatterns = true.
Proof. vm_compute. reflexivity. Qed.

(** X29: the keyword fallback never maps a column that
    [detectFullNameColumn] can propose for splitting: a header whose
    trimmed form matches one of the combined-name patterns (Name, Full Name,
    Client, Contact Name and the like, in any letter case) gets no target
    and confidence 0 from [fallbackMapping]. *)
Theorem combined_name_has_no_fallback_target (h : jsstring)
        (t : NameSplit.NameType) :
  NameSplit.combinedName h = Some t ->
  Fallback.fallbackMapping [h]
  = [ {| Fallback.sourceHeader := h; Fallback.targetHeader := None;
         Fallback.confidenceTenths := 0 |} ].
Proof.
  unfold NameSplit.combinedName.
  destruct (find _ NameSplit.combinedNamePatterns) as [p|] eqn:F;
    [|discriminate].
  intros _. apply find_some in F as [Hp M].
  pose proof combined_names_unmapped as U.
  rewrite forallb_forall in U. specialize (U p Hp).
  apply andb_true_iff in U as [SF U]. rewrite forallb_forall in U.
  apply matches_lang in M.
  pose proof (normalForms_lang _ _ SF M) as N.
  rewrite normalizeHeader_trim in N. specialize (U _ N).
  unfold Fallback.fallbackMapping. cbn [map].
  pose proof (keywordTarget_cases (normalizeHeader h)) as [[E1 E2]|(x & _ & E & _)].
  - now rewrite E1, E2.
  - rewrite E in U. discriminate U.
Qed.

Lemma combined_name_has_no_fallback_target_witness :
  Fallback.fallbackMapping [str " Contact_Name "]
  = [ {| Fallback.sourceHeader := str " Contact_Name ";
         Fallback.targetHeader := None;
         Fallback.confidenceTenths := 0 |} ].
Proof.
  apply (combined_name_has_no_fallback_target (str " Contact_Name ")
           NameSplit.combined_name).
  reflexivity.
Defined.

(** ** Sanitising twice *)

Lemma sanitizeForExport_twice v :
  sanitizeForExport (sanitizeForExport v) = sanitizeForExport v.
Proof.
  destruct v as [|d v]; [reflexivity|].
  assert (E1 : sanitizeForExport (d :: v)
               = if existsb (fun ch => startsWith (d :: v) ch)
                            formulaCharacters
                 then str "'" ++ d :: v else d :: v) by reflexivity.
  rewrite E1.
  destruct (existsb (fun ch => startsWith (d :: v) ch) formulaCharacters)
    eqn:E.
  - unfold sanitizeForExport. now rewrite quote_not_formula.
  - rewrite E1, ?E. reflexivity.
Qed.

Lemma exported_value_twice h x :
  let export y :=
    sanitizeForExport (if eqs h (str "Phone") && truthy y
                       then formatPhoneNumber y else y) in
  export (export x) = export x.
Proof.
  intros export. subst export. cbv beta.
  destruct (eqs h (str "Phone") && truthy x) eqn:C.
  - apply andb_true_iff in C as [Hh Tx]. rewrite Hh. cbn [andb].
    assert (D : forallb isDigit (formatPhoneNumber x) = true).
    { unfold formatPhoneNumber. destruct (negb (truthy x)); [reflexivity|].
      apply removeAll_only_digits. }
    rewrite (sanitize_digits _ D).
    destruct (truthy (formatPhoneNumber x)) eqn:T.
    + assert (F : formatPhoneNumber (formatPhoneNumber x) = formatPhoneNumber x).
      { unfold formatPhoneNumber at 1. rewrite T. cbn [negb].
        now apply removeAll_digits. }
      rewrite F. now apply sanitize_digits.
    + now apply sanitize_digits.
  - destruct (eqs h (str "Phone") && truthy (sanitizeForExport x)) eqn:C';
      [|apply sanitizeForExport_twice].
    apply andb_true_iff in C' as [Hh Tx]. rewrite Hh in C. cbn [andb] in C.
    destruct x; [discriminate Tx|discriminate C].
Qed.

Lemma sanitizeRow_twice headers row :
  sanitizeRow headers (sanitizeRow headers row) = sanitizeRow headers row.
Proof.
  unfold sanitizeRow at 1 3.
  apply (fold_set_ext (fun h => h) _ (fun h => h)).
  intros h Hh. split; [reflexivity|].
  change (match get (sanitizeRow headers row) h with
          | Some v => v
          | None => []
          end) with (cell (sanitizeRow headers row) h).
  change (match get row h with Some v => v | None => [] end)
    with (cell row h).
  rewrite (exported_cell _ _ _ Hh).
  apply (exported_value_twice h (cell row h)).
Qed.

(** X30: sanitising is stable: the rows of [sanitizeData], sanitised
    again for the same headers, are unchanged (no second apostrophe is put
    in front of a defused cell, and a Phone already reduced to its digits
    stays as it is); so exporting sanitised rows with [generateCSV] gives
    the same text as exporting the rows themselves. *)
Theorem sanitizeData_twice (data : list Row) (headers : list jsstring) :
  sanitizeData (sanitizeData data headers) headers = sanitizeData data headers
  /\ generateCSV (sanitizeData data headers) headers = generateCSV data headers.
Proof.
  assert (E : sanitizeData (sanitizeData data headers) headers
              = sanitizeData data headers).
  { unfold sanitizeData. rewrite map_map. apply map_ext.
    intros row. apply sanitizeRow_twice. }
  split; [exact E|]. unfold generateCSV. now rewrite E.
Qed.
